(** * zk_fee_profile: fee sampling and order statistics

    A shallow embedding of [zkfeeapp.py] (the functions [pct],
    [sample_block_fees], [analyze_fees] with its local [stats_bucket],
    [network_name], [connect] and [main]) together with the properties of
    the fee-sampling and statistics pipeline.

    Conventions of the embedding.
    - Python [int] is [Z].
    - A finite Python [float] is written as the rational it denotes ([Q]).
      Comparison, [sorted], [min], [max], [round] and indexing follow Python
      on these values.  The argument [q] of [pct] ranges over all floats,
      NaN and the infinities included ([pyfloat]).
    - The code computes with floats in two places: the product of line 70
      in [pct] and the mean of the two middle values in
      [statistics.median].  [pct64], [median64] and [stats_bucket64] round
      both to binary64 as the interpreter does ([rnd64]: to nearest, ties to
      the even significand, subnormal numbers and overflow included); what
      is said about the element [pct] returns and about the fields of a
      bucket is said of them.  [pct], [median] and [stats_bucket] take the
      product and the mean exactly; they carry the order and counting
      properties.
    - [from_wei_gwei] is the conversion from wei on the amounts the library
      accepts; [wei_ok] is that range and [amounts_ok] the contract that an
      endpoint serves such amounts only.
    - An exception is a value of [exn]; a computation that may raise returns
      a [result].
    - The RPC endpoint is an oracle answering the requests of one run
      ([Web3]); the two clock readings of [analyze_fees] are inputs.  The
      progress lines printed on the error stream are not part of any
      returned value and are left out. *)

From Stdlib Require Import String.
From Stdlib Require Import ZArith QArith Qround Qabs Qpower Lia Lqa List Bool.
From Stdlib Require Import Sorting.Sorted Sorting.Permutation.
From Stdlib Require Import DecimalString.
From Stdlib Require DecimalPos DecimalZ.
Import ListNotations.

Local Open Scope Z_scope.

(** ** Exceptions and fallible computations *)

Inductive exn : Type :=
| IndexError
| ValueError
| StatisticsError
| OverflowError
| AttributeError
| RpcError (msg : string).

Inductive result (A : Type) : Type :=
| Ok (a : A)
| Raise (e : exn).

Arguments Ok {A} a.
Arguments Raise {A} e.

Definition bind {A B : Type} (m : result A) (k : A -> result B) : result B :=
  match m with
  | Ok a => k a
  | Raise e => Raise e
  end.

Notation "x <- m ;; k" := (bind m (fun x => k))
  (at level 61, m at next level, right associativity).

(** [try: m except Exception: d] *)
Definition try_except {A : Type} (m : result A) (d : A) : A :=
  match m with
  | Ok a => a
  | Raise _ => d
  end.

(** ** Floats *)

Abbreviation float := Q (only parsing).

Inductive pyfloat : Type :=
| Fin (x : float)
| PosInf
| NegInf
| NaN.

(** [a < b] on floats: every comparison with NaN is false. *)
Definition Qltb (x y : Q) : bool := negb (Qle_bool y x).

Definition flt (a b : pyfloat) : bool :=
  match a, b with
  | Fin x, Fin y => Qltb x y
  | NegInf, Fin _ | NegInf, PosInf | Fin _, PosInf => true
  | _, _ => false
  end.

(** The builtins [min(a, b)] and [max(a, b)]: the first argument is kept
    unless the second one compares strictly below (above) it. *)
Definition fmin2 (a b : pyfloat) : pyfloat := if flt b a then b else a.
Definition fmax2 (a b : pyfloat) : pyfloat := if flt a b then b else a.

(** [round(x)]: the nearest integer, ties to the even one. *)
Definition py_round (x : float) : Z :=
  let f := Qfloor x in
  match (x - inject_Z f ?= 1 # 2)%Q with
  | Lt => f
  | Gt => f + 1
  | Eq => if Z.even f then f else f + 1
  end.

(** [round(x, ndigits)] for [ndigits >= 0]. *)
Definition round_ndigits (x : float) (ndigits : nat) : float :=
  let s := Z.to_pos (10 ^ Z.of_nat ndigits) in
  Qmake (py_round (x * inject_Z (Zpos s))%Q) s.

(** [round(a)] on an arbitrary float: NaN and the infinities raise. *)
Definition py_round_f (a : pyfloat) : result Z :=
  match a with
  | Fin x => Ok (py_round x)
  | NaN => Raise ValueError
  | _ => Raise OverflowError
  end.

(** [a * k] for a float [a] and an int [k]. *)
Definition fmul_int (a : pyfloat) (k : Z) : pyfloat :=
  match a with
  | Fin x => Fin (x * inject_Z k)%Q
  | NaN => NaN
  | PosInf => if k =? 0 then NaN else if 0 <? k then PosInf else NegInf
  | NegInf => if k =? 0 then NaN else if 0 <? k then NegInf else PosInf
  end.

(** ** Lists the way Python handles them *)

(** [l[i]]: a negative index counts from the end, an index out of range
    raises. *)
Definition py_getitem {A : Type} (l : list A) (i : Z) : result A :=
  let n := Z.of_nat (length l) in
  let j := if i <? 0 then i + n else i in
  if (j <? 0) || (n <=? j) then Raise IndexError
  else match nth_error l (Z.to_nat j) with
       | Some a => Ok a
       | None => Raise IndexError
       end.

(** [sorted(values)]: a stable sort into ascending order. *)
Fixpoint insert_sorted (x : float) (l : list float) : list float :=
  match l with
  | [] => [x]
  | y :: l' => if Qle_bool x y then x :: y :: l' else y :: insert_sorted x l'
  end.

Definition sorted (values : list float) : list float :=
  fold_right insert_sorted [] values.

(** [min(values)] and [max(values)]: the first least (greatest) element;
    an empty argument raises. *)
Definition min_from (x : float) (l : list float) : float :=
  fold_left (fun m y => if Qltb y m then y else m) l x.

Definition max_from (x : float) (l : list float) : float :=
  fold_left (fun m y => if Qltb m y then y else m) l x.

Definition py_min (values : list float) : result float :=
  match values with
  | [] => Raise ValueError
  | x :: l => Ok (min_from x l)
  end.

Definition py_max (values : list float) : result float :=
  match values with
  | [] => Raise ValueError
  | x :: l => Ok (max_from x l)
  end.

(** [statistics.median(data)] *)
Definition median (data : list float) : result float :=
  let data := sorted data in
  let n := Z.of_nat (length data) in
  if n =? 0 then Raise StatisticsError
  else if n mod 2 =? 1 then py_getitem data (n / 2)
  else
    let i := n / 2 in
    a <- py_getitem data (i - 1) ;;
    b <- py_getitem data i ;;
    Ok ((a + b) / 2)%Q.

(** [range(start, stop, step)] as the list of the numbers it yields. *)
Fixpoint range_from (fuel : nat) (n stop step : Z) : list Z :=
  match fuel with
  | O => []
  | S fuel' =>
      if (if 0 <? step then n <? stop else stop <? n)
      then n :: range_from fuel' (n + step) stop step
      else []
  end.

Definition py_range (start stop step : Z) : result (list Z) :=
  if step =? 0 then Raise ValueError
  else Ok (range_from (Z.to_nat (Z.abs (stop - start))) start stop step).

(** ** Small helpers *)

Definition NETWORKS : list (Z * string) :=
  [ (1, "Ethereum Mainnet"%string);
    (11155111, "Sepolia Testnet"%string);
    (10, "Optimism"%string);
    (137, "Polygon"%string);
    (42161, "Arbitrum One"%string);
    (8453, "Base"%string);
    (43114, "Avalanche C-Chain"%string) ].

Fixpoint dict_get {V : Type} (d : list (Z * V)) (k : Z) (default : V) : V :=
  match d with
  | [] => default
  | (k', v) :: d' => if k' =? k then v else dict_get d' k default
  end.

Definition str_of_int (z : Z) : string := NilZero.string_of_int (Z.to_int z).

Definition network_name (cid : Z) : string :=
  dict_get NETWORKS cid
    ("Unknown (chain ID " ++ str_of_int cid ++ ")")%string.

(** [pct]: approximate percentile [q] of a list of floats. *)
Definition pct (values : list float) (q : pyfloat) : result float :=
  match values with
  | [] => Ok 0%Q
  | _ =>
      let q := fmax2 (Fin 0%Q) (fmin2 (Fin 1%Q) q) in
      let sorted_vals := sorted values in
      idx <- py_round_f (fmul_int q (Z.of_nat (length sorted_vals) - 1)) ;;
      py_getitem sorted_vals idx
  end.

(** ** Transactions and blocks as the gateway delivers them *)

(** The fee fields of a transaction; [None] stands for a field that is
    absent (or present with value [None]). *)
Record TxFields : Type := {
  tx_type : option Z;
  gasPrice : option Z;
  maxPriorityFeePerGas : option Z;
  maxFeePerGas : option Z
}.

(** A transaction is delivered either as a dict or as an object with
    attributes. *)
Inductive Tx : Type :=
| TxDict (f : TxFields)
| TxAttr (f : TxFields).

Record Block : Type := {
  baseFeePerGas : option Z;
  base_fee_per_gas : option Z;
  transactions : list Tx;
  timestamp : option Z
}.

(** [x or 0] on an optional int, and [d.get(key, 0)]. *)
Definition or0 (x : option Z) : Z :=
  match x with
  | Some v => if v =? 0 then 0 else v
  | None => 0
  end.

Definition get_default (x : option Z) (default : Z) : Z :=
  match x with
  | Some v => v
  | None => default
  end.

(** [float(Web3.from_wei(w, "gwei"))]: the library's conversion of a wei
    amount to Gwei, the quotient of [w] by 10^9 (for the amounts the library
    accepts, 0 to 2^256 - 1). *)
Definition from_wei_gwei (w : Z) : float := Qmake w 1000000000.

(** ** [sample_block_fees] *)

Definition sample_tx (bf : Z) (acc : list float * list float) (tx : Tx)
  : list float * list float :=
  let '(eff_gwei, tip_gwei) := acc in
  let '(ttype, gas_price, mpp, mfp) :=
    match tx with
    | TxDict f =>
        (get_default (tx_type f) 0, or0 (gasPrice f),
         or0 (maxPriorityFeePerGas f), or0 (maxFeePerGas f))
    | TxAttr f =>
        (get_default (tx_type f) 0, or0 (gasPrice f),
         or0 (maxPriorityFeePerGas f), or0 (maxFeePerGas f))
    end in
  if ttype =? 2 then
    let effective_wei := Z.min mfp (bf + mpp) in
    (eff_gwei ++ [from_wei_gwei effective_wei],
     tip_gwei ++ [from_wei_gwei mpp])
  else
    (eff_gwei ++ [from_wei_gwei gas_price],
     tip_gwei ++ [from_wei_gwei (Z.max 0 (gas_price - bf))]).

Definition sample_block_fees (block : Block) (base_fee_wei : Z)
  : list float * list float :=
  let bf := or0 (Some base_fee_wei) in
  fold_left (sample_tx bf) (transactions block) ([], []).

(** ** [stats_bucket] *)

Record StatBucket : Type := {
  p50 : float;
  p95 : float;
  b_min : float;
  b_max : float;
  count : Z
}.

Definition stats_bucket (values : list float) : result StatBucket :=
  match values with
  | [] => Ok {| p50 := 0%Q; p95 := 0%Q; b_min := 0%Q; b_max := 0%Q; count := 0 |}
  | _ =>
      m <- median values ;;
      p <- pct values (Fin (95 # 100)) ;;
      lo <- py_min values ;;
      hi <- py_max values ;;
      Ok {| p50 := round_ndigits m 4;
            p95 := round_ndigits p 4;
            b_min := round_ndigits lo 4;
            b_max := round_ndigits hi 4;
            count := Z.of_nat (length values) |}
  end.

(** ** [analyze_fees] *)

(** The RPC endpoint: [w3.eth.block_number], [w3.eth.chain_id] and
    [w3.eth.get_block(n, full_transactions)]. *)
Record Web3 : Type := {
  block_number : result Z;
  chain_id : result Z;
  get_block : Z -> bool -> result Block
}.

Record FeeProfile : Type := {
  chainId : Z;
  network : string;
  headBlock : Z;
  oldestBlock : Z;
  blockSpan : Z;
  sampledBlocks : Z;
  step : Z;
  avgBlockTimeSec : float;
  timingSec : float;
  baseFeeGwei : StatBucket;
  effectivePriceGwei : StatBucket;
  tipGweiApprox : StatBucket
}.

(** The variables the sampling loop updates. *)
Record Samples : Type := {
  basefees : list float;
  eff_prices : list float;
  tips : list float;
  sampled_blocks : Z
}.

Definition block_base_fee (blk : Block) : Z :=
  match baseFeePerGas blk with
  | Some v => v
  | None => or0 (base_fee_per_gas blk)
  end.

Definition sample_block (w3 : Web3) (st : Samples) (n : Z) : result Samples :=
  blk <- get_block w3 n true ;;
  let bf_wei := block_base_fee blk in
  let basefees' := basefees st ++ [from_wei_gwei bf_wei] in
  let '(eff_gwei, tip_gwei) := sample_block_fees blk bf_wei in
  Ok {| basefees := basefees';
        eff_prices := eff_prices st ++ eff_gwei;
        tips := tips st ++ tip_gwei;
        sampled_blocks := sampled_blocks st + 1 |}.

(** [for n in ns: body] with the loop variables threaded through; the first
    exception ends the loop. *)
Fixpoint for_each (body : Samples -> Z -> result Samples) (ns : list Z)
  (st : Samples) : result Samples :=
  match ns with
  | [] => Ok st
  | n :: ns' => st' <- body st n ;; for_each body ns' st'
  end.

Definition block_timestamp (blk : Block) : result Z :=
  match timestamp blk with
  | Some t => Ok t
  | None => Raise AttributeError
  end.

Definition avg_block_time_of (w3 : Web3) (head start_block : Z) : result float :=
  newest <- get_block w3 head false ;;
  oldest <- get_block w3 start_block false ;;
  tn <- block_timestamp newest ;;
  tk <- block_timestamp oldest ;;
  let dt := tn - tk in
  let span_blocks := Z.max 1 (head - start_block) in
  let r := (inject_Z dt / inject_Z span_blocks)%Q in
  Ok (if Qltb 0 r then r else 0%Q).

Definition analyze_fees (w3 : Web3) (t0 t1 : float)
  (blocks step : Z) (head_override : option Z) : result FeeProfile :=
  head <- match head_override with
          | Some h => Ok h
          | None => block_number w3
          end ;;
  let start_block := Z.max 0 (head - blocks + 1) in
  ns <- py_range head (start_block - 1) (- step) ;;
  st <- for_each (sample_block w3) ns
          {| basefees := []; eff_prices := []; tips := [];
             sampled_blocks := 0 |} ;;
  let elapsed := (t1 - t0)%Q in
  let avg_block_time :=
    if sampled_blocks st =? 0 then 0%Q
    else try_except (avg_block_time_of w3 head start_block) 0%Q in
  cid <- chain_id w3 ;;
  bf <- stats_bucket (basefees st) ;;
  ep <- stats_bucket (eff_prices st) ;;
  tp <- stats_bucket (tips st) ;;
  Ok {| chainId := cid;
        network := network_name cid;
        headBlock := head;
        oldestBlock := start_block;
        blockSpan := blocks;
        sampledBlocks := sampled_blocks st;
        step := step;
        avgBlockTimeSec := round_ndigits avg_block_time 3;
        timingSec := round_ndigits elapsed 3;
        baseFeeGwei := bf;
        effectivePriceGwei := ep;
        tipGweiApprox := tp |}.

(** ** Reference definitions for the statements

    The definitions below follow the wording of the specification; the
    theorems relate them to the code above. *)

(** "clamp [q] to [0,1]"; a NaN is taken to 1. *)
Definition clamp01 (q : pyfloat) : float :=
  match q with
  | Fin x => if Qltb x 0 then 0%Q else if Qltb 1 x then 1%Q else x
  | NegInf => 0%Q
  | PosInf => 1%Q
  | NaN => 1%Q
  end.

(** "the element at index [round(q * (|V| - 1))]", for [|V| = n]. *)
Definition nearest_rank_index (n : nat) (q : pyfloat) : Z :=
  py_round (clamp01 q * inject_Z (Z.of_nat n - 1))%Q.

(** "[median(V)]" read off a list [s] that is already in ascending order:
    the middle element, or the mean of the two middle elements. *)
Definition median_of (s : list float) : float :=
  let n := Z.of_nat (length s) in
  if n mod 2 =? 1 then nth (Z.to_nat (n / 2)) s 0%Q
  else ((nth (Z.to_nat (n / 2 - 1)) s 0 + nth (Z.to_nat (n / 2)) s 0) / 2)%Q.

(** "[approximatePercentile(V, q)]": the element of the ascending list at
    the nearest-rank index. *)
Definition nearest_rank (V : list float) (q : pyfloat) : float :=
  nth (Z.to_nat (nearest_rank_index (length V) q)) (sorted V) 0%Q.

(** "rounded to 4 decimal places": [r] is a multiple of 10^-4 at distance at
    most half of 10^-4 from [x]. *)
Definition rounded_4dp (x r : float) : Prop :=
  exists k : Z, r = Qmake k 10000 /\
    (r - (1 # 20000) <= x /\ x <= r + (1 # 20000))%Q.

(** The StatBucket of a value collection. *)
Definition bucket_of (V : list float) : StatBucket :=
  match V with
  | [] => {| p50 := 0%Q; p95 := 0%Q; b_min := 0%Q; b_max := 0%Q; count := 0 |}
  | x :: l =>
      {| p50 := round_ndigits (median_of (sorted V)) 4;
         p95 := round_ndigits (nearest_rank V (Fin (95 # 100))) 4;
         b_min := round_ndigits (min_from x l) 4;
         b_max := round_ndigits (max_from x l) 4;
         count := Z.of_nat (length V) |}
  end.

(** The fee fields of a transaction with their defaults applied. *)
Definition fields_of (tx : Tx) : TxFields :=
  match tx with
  | TxDict f => f
  | TxAttr f => f
  end.

Definition type_of (tx : Tx) : Z := get_default (tx_type (fields_of tx)) 0.
Definition gas_price_of (tx : Tx) : Z := or0 (gasPrice (fields_of tx)).
Definition priority_fee_of (tx : Tx) : Z :=
  or0 (maxPriorityFeePerGas (fields_of tx)).
Definition max_fee_of (tx : Tx) : Z := or0 (maxFeePerGas (fields_of tx)).

(** "If transaction type == 2: effectiveWei = min(maxFeePerGas, baseFeeWei +
    maxPriorityFeePerGas); tipWei = maxPriorityFeePerGas.  Otherwise:
    effectiveWei = gasPrice; tipWei = max(0, gasPrice - baseFeeWei)." *)
Definition effective_wei (baseFeeWei : Z) (tx : Tx) : Z :=
  if type_of tx =? 2
  then Z.min (max_fee_of tx) (baseFeeWei + priority_fee_of tx)
  else gas_price_of tx.

Definition tip_wei (baseFeeWei : Z) (tx : Tx) : Z :=
  if type_of tx =? 2
  then priority_fee_of tx
  else Z.max 0 (gas_price_of tx - baseFeeWei).

(** "divide by 10^9" *)
Definition wei_to_gwei (w : Z) : float := (inject_Z w / inject_Z (10 ^ 9))%Q.

(** "[ceil(a / b)]" for integers. *)
Definition ceil_div (a b : Z) : Z := Qceiling (inject_Z a / inject_Z b).

(** "Walk block numbers from [head] down to [startBlock], decrementing by
    [step] each iteration": [head], [head - step], [head - 2 step], ... as
    long as the number is at least [startBlock]. *)
Definition walk (head startBlock step : Z) : list Z :=
  map (fun i => head - Z.of_nat i * step)
      (seq 0 (Z.to_nat (ceil_div (head - startBlock + 1) step))).

(** The blocks of a walk, fetched in order with full transactions; the first
    failure is the result. *)
Fixpoint fetch_all (w3 : Web3) (ns : list Z) : result (list Block) :=
  match ns with
  | [] => Ok []
  | n :: ns' =>
      blk <- get_block w3 n true ;;
      blks <- fetch_all w3 ns' ;;
      Ok (blk :: blks)
  end.

(** What one visited block contributes to the three collections. *)
Definition add_block (st : Samples) (blk : Block) : Samples :=
  let bf := block_base_fee blk in
  {| basefees := basefees st ++ [from_wei_gwei bf];
     eff_prices := eff_prices st ++
       map (fun tx => from_wei_gwei (effective_wei bf tx)) (transactions blk);
     tips := tips st ++
       map (fun tx => from_wei_gwei (tip_wei bf tx)) (transactions blk);
     sampled_blocks := sampled_blocks st + 1 |}.

Definition no_samples : Samples :=
  {| basefees := []; eff_prices := []; tips := []; sampled_blocks := 0 |}.

Definition collect (blks : list Block) : Samples :=
  fold_left add_block blks no_samples.

(** The FeeProfileResult of a run that resolved [head], fetched the blocks
    [blks] of its walk and read the chain id [cid]. *)
Definition profile_of (w3 : Web3) (t0 t1 : float)
  (blocks step head cid : Z) (blks : list Block) : FeeProfile :=
  let st := collect blks in
  let start_block := Z.max 0 (head - blocks + 1) in
  {| chainId := cid;
     network := network_name cid;
     headBlock := head;
     oldestBlock := start_block;
     blockSpan := blocks;
     sampledBlocks := sampled_blocks st;
     step := step;
     avgBlockTimeSec :=
       round_ndigits
         (if sampled_blocks st =? 0 then 0%Q
          else try_except (avg_block_time_of w3 head start_block) 0%Q) 3;
     timingSec := round_ndigits (t1 - t0) 3;
     baseFeeGwei := bucket_of (basefees st);
     effectivePriceGwei := bucket_of (eff_prices st);
     tipGweiApprox := bucket_of (tips st) |}.

Definition resolve_head (w3 : Web3) (head_override : option Z) : result Z :=
  match head_override with
  | Some h => Ok h
  | None => block_number w3
  end.

(** "a FetchError naming the failed block number": the number of the block
    whose fetch failed can be read off the raised value. *)
Definition names_failed_block (block_of : exn -> Z) : Prop :=
  forall (w3 : Web3) (t0 t1 : float) (blocks step head : Z)
         (pre post : list Z) (n : Z) (e : exn),
    py_range head (Z.max 0 (head - blocks + 1) - 1) (- step)
      = Ok (pre ++ n :: post) ->
    (forall m, In m pre -> exists blk, get_block w3 m true = Ok blk) ->
    get_block w3 n true = Raise e ->
    exists e', analyze_fees w3 t0 t1 blocks step (Some head) = Raise e' /\
               block_of e' = n.

(** ** Sample inputs *)

Definition demo_type2 : Tx :=
  TxDict {| tx_type := Some 2; gasPrice := None;
            maxPriorityFeePerGas := Some 5000000000;
            maxFeePerGas := Some 100000000000 |}.

Definition demo_legacy : Tx :=
  TxAttr {| tx_type := None; gasPrice := Some 50000000000;
            maxPriorityFeePerGas := None; maxFeePerGas := None |}.

Definition demo_block : Block :=
  {| baseFeePerGas := Some 80000000000; base_fee_per_gas := None;
     transactions := [demo_type2; demo_legacy];
     timestamp := Some 1700000000 |}.

(** An endpoint that serves [demo_block] for every number. *)
Definition demo_w3 : Web3 :=
  {| block_number := Ok 10; chain_id := Ok 1;
     get_block := fun _ _ => Ok demo_block |}.

(** An endpoint whose request for block [bad] times out. *)
Definition timeout_at (bad : Z) : Web3 :=
  {| block_number := Ok 10; chain_id := Ok 1;
     get_block := fun n _ =>
       if n =? bad then Raise (RpcError "timeout") else Ok demo_block |}.

(** An endpoint that serves full blocks but whose header requests time
    out. *)
Definition headerless_w3 : Web3 :=
  {| block_number := Ok 10; chain_id := Ok 1;
     get_block := fun _ full =>
       if full then Ok demo_block else Raise (RpcError "timeout") |}.

(** An endpoint for a chain with one block every 12 seconds. *)
Definition regular_w3 : Web3 :=
  {| block_number := Ok 10; chain_id := Ok 1;
     get_block := fun n _ =>
       Ok {| baseFeePerGas := Some 80000000000; base_fee_per_gas := None;
             transactions := [demo_type2; demo_legacy];
             timestamp := Some (1700000000 + 12 * n) |} |}.

(** A block of a chain without a fee market: no base-fee field at all. *)
Definition legacy_block : Block :=
  {| baseFeePerGas := None; base_fee_per_gas := None;
     transactions := [demo_legacy; demo_type2];
     timestamp := Some 1700000000 |}.

(** Counting the values below a bound, used to compare sorted lists. *)
Definition count_lt (v : float) (l : list float) : nat :=
  length (filter (fun x => Qltb x v) l).

Definition count_le (v : float) (l : list float) : nat :=
  length (filter (fun x => Qle_bool x v) l).

(** ** The same code with its RPC requests recorded

    [analyze_fees], [connect] and [main] once more, this time as
    computations that also list, in order, the requests they send to the
    endpoint. *)

Inductive rpc_call : Type :=
| CallIsConnected
| CallBlockNumber
| CallChainId
| CallGetBlock (n : Z) (full_transactions : bool).

Definition io (A : Type) : Type := (list rpc_call * result A)%type.

Definition io_ret {A : Type} (a : A) : io A := ([], Ok a).

Definition io_lift {A : Type} (r : result A) : io A := ([], r).

Definition io_bind {A B : Type} (m : io A) (k : A -> io B) : io B :=
  match m with
  | (l, Ok a) => let (l', r) := k a in (l ++ l', r)
  | (l, Raise e) => (l, Raise e)
  end.

Notation "x <~ m ;; k" := (io_bind m (fun x => k))
  (at level 61, m at next level, right associativity).

(** [try: m except Exception: d]: the requests of [m] were sent all the
    same. *)
Definition io_try {A : Type} (m : io A) (d : A) : io A :=
  (fst m, Ok (try_except (snd m) d)).

Definition rpc_block_number (w3 : Web3) : io Z :=
  ([CallBlockNumber], block_number w3).

Definition rpc_chain_id (w3 : Web3) : io Z :=
  ([CallChainId], chain_id w3).

Definition rpc_get_block (w3 : Web3) (n : Z) (full_transactions : bool)
  : io Block :=
  ([CallGetBlock n full_transactions], get_block w3 n full_transactions).

Definition sample_block_io (w3 : Web3) (st : Samples) (n : Z) : io Samples :=
  blk <~ rpc_get_block w3 n true ;;
  let bf_wei := block_base_fee blk in
  let basefees' := basefees st ++ [from_wei_gwei bf_wei] in
  let '(eff_gwei, tip_gwei) := sample_block_fees blk bf_wei in
  io_ret {| basefees := basefees';
            eff_prices := eff_prices st ++ eff_gwei;
            tips := tips st ++ tip_gwei;
            sampled_blocks := sampled_blocks st + 1 |}.

Fixpoint for_each_io (body : Samples -> Z -> io Samples) (ns : list Z)
  (st : Samples) : io Samples :=
  match ns with
  | [] => io_ret st
  | n :: ns' => st' <~ body st n ;; for_each_io body ns' st'
  end.

Definition avg_block_time_io (w3 : Web3) (head start_block : Z) : io float :=
  newest <~ rpc_get_block w3 head false ;;
  oldest <~ rpc_get_block w3 start_block false ;;
  tn <~ io_lift (block_timestamp newest) ;;
  tk <~ io_lift (block_timestamp oldest) ;;
  let dt := tn - tk in
  let span_blocks := Z.max 1 (head - start_block) in
  let r := (inject_Z dt / inject_Z span_blocks)%Q in
  io_ret (if Qltb 0 r then r else 0%Q).

Definition analyze_fees_io (w3 : Web3) (t0 t1 : float)
  (blocks step : Z) (head_override : option Z) : io FeeProfile :=
  head <~ match head_override with
          | Some h => io_ret h
          | None => rpc_block_number w3
          end ;;
  let start_block := Z.max 0 (head - blocks + 1) in
  ns <~ io_lift (py_range head (start_block - 1) (- step)) ;;
  st <~ for_each_io (sample_block_io w3) ns
          {| basefees := []; eff_prices := []; tips := [];
             sampled_blocks := 0 |} ;;
  let elapsed := (t1 - t0)%Q in
  avg_block_time <~
    (if sampled_blocks st =? 0 then io_ret 0%Q
     else io_try (avg_block_time_io w3 head start_block) 0%Q) ;;
  cid <~ rpc_chain_id w3 ;;
  bf <~ io_lift (stats_bucket (basefees st)) ;;
  ep <~ io_lift (stats_bucket (eff_prices st)) ;;
  tp <~ io_lift (stats_bucket (tips st)) ;;
  io_ret {| chainId := cid;
            network := network_name cid;
            headBlock := head;
            oldestBlock := start_block;
            blockSpan := blocks;
            sampledBlocks := sampled_blocks st;
            step := step;
            avgBlockTimeSec := round_ndigits avg_block_time 3;
            timingSec := round_ndigits elapsed 3;
            baseFeeGwei := bf;
            effectivePriceGwei := ep;
            tipGweiApprox := tp |}.

(** The block numbers of a range that are requested: all up to and
    including the first whose fetch fails. *)
Fixpoint attempted (w3 : Web3) (ns : list Z) : list Z :=
  match ns with
  | [] => []
  | n :: ns' =>
      n :: match get_block w3 n true with
           | Ok _ => attempted w3 ns'
           | Raise _ => []
           end
  end.

(** What the endpoint answers to a request, as success or exception. *)
Definition rpc_fails (w3 : Web3) (c : rpc_call) (e : exn) : Prop :=
  match c with
  | CallIsConnected => False
  | CallBlockNumber => block_number w3 = Raise e
  | CallChainId => chain_id w3 = Raise e
  | CallGetBlock n full => get_block w3 n full = Raise e
  end.

(** The numbers of the blocks requested with full transactions. *)
Fixpoint full_fetches (calls : list rpc_call) : list Z :=
  match calls with
  | [] => []
  | CallGetBlock n true :: calls' => n :: full_fetches calls'
  | _ :: calls' => full_fetches calls'
  end.

(** ** [connect] and [main] *)

(** What answers at an RPC URL: whether [w3.is_connected()] holds, and the
    endpoint's answers. *)
Record Endpoint : Type := {
  is_connected : bool;
  eth : Web3
}.

(** The parsed command line. *)
Module Args.
Record t : Type := {
  rpc : string;
  blocks : Z;
  step : Z;
  head : option Z;
  json : bool;
  pretty : bool
}.
End Args.

(** What [main] prints on standard output: the human summary lines rendered
    from a result, and [json.dumps] of the payload (indented or compact,
    keys sorted). *)
Inductive stdout_item : Type :=
| HumanSummary (result : FeeProfile)
| JsonDocument (indented : bool) (generatedAtUtc : string) (data : FeeProfile).

(** How the process ends: [sys.exit(code)], an uncaught exception, or the
    normal end of [main]. *)
Inductive outcome : Type :=
| SysExit (code : Z)
| Uncaught (e : exn)
| Completed (stdout : list stdout_item).

(** [connect(rpc)]; [None] stands for [sys.exit(1)]. *)
Definition connect_io (net : string -> Endpoint) (rpc : string)
  : list rpc_call * option Web3 :=
  let w3 := net rpc in
  if negb (is_connected w3) then ([CallIsConnected], None)
  else
    let chain_info :=
      io_try (chain_id <~ rpc_chain_id (eth w3) ;;
              latest <~ rpc_block_number (eth w3) ;;
              io_ret tt) tt in
    ([CallIsConnected] ++ fst chain_info, Some (eth w3)).

Definition main_io (net : string -> Endpoint) (args : Args.t)
  (t0 t1 : float) (generatedAtUtc : string) : list rpc_call * outcome :=
  if (Args.blocks args <=? 0) || (Args.step args <=? 0) then ([], SysExit 1)
  else
    match connect_io net (Args.rpc args) with
    | (calls, None) => (calls, SysExit 1)
    | (calls, Some w3) =>
        match analyze_fees_io w3 t0 t1 (Args.blocks args) (Args.step args)
                (Args.head args) with
        | (calls', Raise e) => (calls ++ calls', Uncaught e)
        | (calls', Ok result) =>
            (calls ++ calls',
             Completed
               (if Args.pretty args
                then [JsonDocument true generatedAtUtc result]
                else if Args.json args
                then [JsonDocument false generatedAtUtc result]
                else [HumanSummary result;
                      JsonDocument false generatedAtUtc result]))
        end
    end.

(** The sample endpoint behind every URL, and a command line. *)
Definition demo_net (rpc : string) : Endpoint :=
  {| is_connected := true; eth := demo_w3 |}.

Definition demo_args : Args.t :=
  {| Args.rpc := "http://localhost:8545"; Args.blocks := 5; Args.step := 2;
     Args.head := Some 10; Args.json := true; Args.pretty := false |}.


(** A dict-shaped legacy transaction with every fee field spelled out. *)
Definition explicit_legacy : Tx :=
  TxDict {| tx_type := Some 0; gasPrice := Some 50000000000;
            maxPriorityFeePerGas := Some 0; maxFeePerGas := Some 0 |}.

(** ** Binary64 arithmetic

    The floating-point operations of [pct] and of [statistics.median] as the
    interpreter performs them: the exact result rounded to the nearest
    binary64 number, ties to the even significand.  A double is still
    written as the rational it denotes. *)

Definition pow2 (e : Z) : Q := (2 ^ e)%Q.

(** [floor(log2 x)] for [x > 0]. *)
Definition ilog2 (x : Q) : Z :=
  let d := Z.log2 (Qnum x) - Z.log2 (Zpos (Qden x)) in
  if Qle_bool (pow2 d) x then d else d - 1.

(** The exponent of the last place of the binary64 numbers around [x]: 52
    places below the leading bit, and never below that of the subnormal
    numbers. *)
Definition ulp_exp (x : Q) : Z := Z.max (ilog2 (Qabs x) - 52) (-1074).

(** Rounding to the nearest binary64 number, overflow apart. *)
Definition rnd64 (x : Q) : Q :=
  if Qeq_bool x 0 then 0%Q
  else (inject_Z (py_round (x / pow2 (ulp_exp x))) * pow2 (ulp_exp x))%Q.

(** A rounded result as a float: beyond the largest double it is an
    infinity. *)
Definition overflows (r : Q) : bool := Qle_bool (pow2 1024) (Qabs r).

Definition to_pyfloat (r : Q) : pyfloat :=
  if overflows r then (if Qltb r 0 then NegInf else PosInf) else Fin r.

(** [float(k)] for an int [k], as done for an int operand of a float
    operation. *)
Definition float_of_int (k : Z) : result float :=
  let r := rnd64 (inject_Z k) in
  if overflows r then Raise OverflowError else Ok r.

(** [a * k] for a float [a] and an int [k]: [k] is converted, the product
    rounded. *)
Definition fmul_int64 (a : pyfloat) (k : Z) : result pyfloat :=
  kf <- float_of_int k ;;
  Ok match a with
     | Fin x => to_pyfloat (rnd64 (x * kf)%Q)
     | NaN => NaN
     | PosInf =>
         if Qeq_bool kf 0 then NaN else if Qltb 0 kf then PosInf else NegInf
     | NegInf =>
         if Qeq_bool kf 0 then NaN else if Qltb 0 kf then NegInf else PosInf
     end.

(** [a + b] for two finite floats, and [a / 2]. *)
Definition fadd64 (a b : float) : pyfloat := to_pyfloat (rnd64 (a + b)%Q).

Definition fhalf64 (a : pyfloat) : pyfloat :=
  match a with
  | Fin x => to_pyfloat (rnd64 (x / 2)%Q)
  | _ => a
  end.

(** [round(x, ndigits)] as a float: the double nearest to the decimal
    number; NaN and the infinities are returned as they are. *)
Definition round_ndigits64 (x : float) (ndigits : nat) : float :=
  rnd64 (round_ndigits x ndigits).

Definition round_ndigits_f (a : pyfloat) (ndigits : nat) : pyfloat :=
  match a with
  | Fin x => Fin (round_ndigits64 x ndigits)
  | _ => a
  end.

(** The literal [0.95]. *)
Definition double_0_95 : float := rnd64 (95 # 100).

(** ** [pct], [statistics.median] and [stats_bucket] in binary64 arithmetic

    The three functions once more, with the product of [pct] and the mean of
    [statistics.median] rounded as the interpreter rounds them. *)

Definition pct64 (values : list float) (q : pyfloat) : result float :=
  match values with
  | [] => Ok 0%Q
  | _ =>
      let q := fmax2 (Fin 0%Q) (fmin2 (Fin 1%Q) q) in
      let sorted_vals := sorted values in
      p <- fmul_int64 q (Z.of_nat (length sorted_vals) - 1) ;;
      idx <- py_round_f p ;;
      py_getitem sorted_vals idx
  end.

Definition median64 (data : list float) : result pyfloat :=
  let data := sorted data in
  let n := Z.of_nat (length data) in
  if n =? 0 then Raise StatisticsError
  else if n mod 2 =? 1 then
    x <- py_getitem data (n / 2) ;; Ok (Fin x)
  else
    let i := n / 2 in
    a <- py_getitem data (i - 1) ;;
    b <- py_getitem data i ;;
    Ok (fhalf64 (fadd64 a b)).

Module Bucket64.
Record t : Type := {
  p50 : pyfloat;
  p95 : pyfloat;
  min : pyfloat;
  max : pyfloat;
  count : Z
}.
End Bucket64.

Definition stats_bucket64 (values : list float) : result Bucket64.t :=
  match values with
  | [] =>
      Ok {| Bucket64.p50 := Fin 0%Q; Bucket64.p95 := Fin 0%Q;
            Bucket64.min := Fin 0%Q; Bucket64.max := Fin 0%Q;
            Bucket64.count := 0 |}
  | _ =>
      m <- median64 values ;;
      p <- pct64 values (Fin double_0_95) ;;
      lo <- py_min values ;;
      hi <- py_max values ;;
      Ok {| Bucket64.p50 := round_ndigits_f m 4;
            Bucket64.p95 := Fin (round_ndigits64 p 4);
            Bucket64.min := Fin (round_ndigits64 lo 4);
            Bucket64.max := Fin (round_ndigits64 hi 4);
            Bucket64.count := Z.of_nat (length values) |}
  end.

(** "the element at index [round(q * (|V| - 1))]", for [|V| = n], the
    product being the binary64 product. *)
Definition nearest_rank_index64 (n : nat) (q : pyfloat) : Z :=
  py_round (rnd64 (clamp01 q * inject_Z (Z.of_nat n - 1))%Q).

(** "[median(V)]" read off an ascending list of doubles: the middle
    element, or the mean of the two middle elements as binary64 arithmetic
    gives it. *)
Definition median64_of (s : list float) : float :=
  let n := Z.of_nat (length s) in
  if n mod 2 =? 1 then nth (Z.to_nat (n / 2)) s 0%Q
  else rnd64 (rnd64 (nth (Z.to_nat (n / 2 - 1)) s 0%Q
                     + nth (Z.to_nat (n / 2)) s 0%Q)%Q / 2)%Q.

(** The integers 0, 1, ..., [n - 1] as floats. *)
Definition floats_upto (n : nat) : list float :=
  map (fun i => inject_Z (Z.of_nat i)) (seq 0 n).


(** "rounded to 4 decimal places", for a double: [r] is the double nearest
    to a multiple of 10^-4 that lies at distance at most half of 10^-4 from
    [x]. *)
Definition rounded_4dp64 (x r : float) : Prop :=
  exists k : Z, r = rnd64 (Qmake k 10000) /\
    (Qmake k 10000 - (1 # 20000) <= x /\ x <= Qmake k 10000 + (1 # 20000))%Q.

(** The all-zero bucket. *)
Definition empty_bucket64 : Bucket64.t :=
  {| Bucket64.p50 := Fin 0%Q; Bucket64.p95 := Fin 0%Q;
     Bucket64.min := Fin 0%Q; Bucket64.max := Fin 0%Q;
     Bucket64.count := 0 |}.

(** Two doubles whose mean is rounded by the floating-point addition. *)
Definition demo_values : list float :=
  [rnd64 (105877785627 # 1000000000); rnd64 (92196314373 # 1000000000)].

(** ** The gateway contract on amounts

    [Web3.from_wei] accepts the amounts 0 to 2^256 - 1 and raises
    [ValueError] on every other; [from_wei_gwei] is the conversion on the
    amounts it accepts, and the float made of its result is the double
    nearest to the quotient.  An endpoint keeps the contract when every
    amount converted from a block it serves lies in that range; a served
    block carries its base fee, when it has the attribute, as an integer
    (the record [Block] has no other). *)

Definition wei_ok (w : Z) : bool := (0 <=? w) && (w <? 2 ^ 256).

Definition from_wei_gwei64 (w : Z) : result float :=
  if wei_ok w then Ok (rnd64 (from_wei_gwei w)) else Raise ValueError.

Definition block_amounts_ok (blk : Block) : Prop :=
  wei_ok (block_base_fee blk) = true /\
  forall tx, In tx (transactions blk) ->
    wei_ok (effective_wei (block_base_fee blk) tx) = true /\
    wei_ok (tip_wei (block_base_fee blk) tx) = true.

Definition amounts_ok (w3 : Web3) : Prop :=
  forall n blk, get_block w3 n true = Ok blk -> block_amounts_ok blk.

(** ** [main] from the command line on

    What [parse_args()] makes of the command line: argparse prints the help
    and ends the process with status 0, refuses the command line with
    status 2, or returns the namespace [main] goes on with. *)

Inductive parse_outcome : Type :=
| ParseHelp
| ParseError
| Parsed (args : Args.t).

Definition main (net : string -> Endpoint) (parse_args : parse_outcome)
  (t0 t1 : float) (generatedAtUtc : string) : list rpc_call * outcome :=
  match parse_args with
  | ParseHelp => ([], SysExit 0)
  | ParseError => ([], SysExit 2)
  | Parsed args => main_io net args t0 t1 generatedAtUtc
  end.

(** * Properties *)

(** ** Rounding *)

Lemma py_round_comp (x y : Q) : (x == y)%Q -> py_round x = py_round y.
Proof.
  intros E. unfold py_round.
  assert (F : Qfloor x = Qfloor y) by (rewrite E; reflexivity).
  rewrite F.
  assert (C : ((x - inject_Z (Qfloor y) ?= 1 # 2) = (y - inject_Z (Qfloor y) ?= 1 # 2))%Q)
    by (rewrite E; reflexivity).
  rewrite C. reflexivity.
Qed.

Lemma py_round_near (x : Q) :
  (inject_Z (py_round x) - (1 # 2) <= x /\ x <= inject_Z (py_round x) + (1 # 2))%Q.
Proof.
  unfold py_round.
  pose proof (Qfloor_le x) as Hlo. pose proof (Qlt_floor x) as Hhi.
  rewrite inject_Z_plus in Hhi. change (inject_Z 1) with 1%Q in Hhi.
  destruct (Qcompare_spec (x - inject_Z (Qfloor x)) (1 # 2)) as [E | L | G].
  - destruct (Z.even (Qfloor x));
      [| rewrite inject_Z_plus; change (inject_Z 1) with 1%Q]; lra.
  - lra.
  - rewrite inject_Z_plus. change (inject_Z 1) with 1%Q. lra.
Qed.

Lemma py_round_ge (x : Q) (k : Z) :
  (inject_Z k - (1 # 2) < x)%Q -> k <= py_round x.
Proof.
  intros H. destruct (py_round_near x) as [_ Hup].
  destruct (Z_le_gt_dec k (py_round x)) as [L | G]; [exact L | exfalso].
  assert (py_round x + 1 <= k) as L by lia.
  rewrite Zle_Qle, inject_Z_plus in L. change (inject_Z 1) with 1%Q in L. lra.
Qed.

Lemma py_round_le (x : Q) (k : Z) :
  (x <= inject_Z k)%Q -> py_round x <= k.
Proof.
  intros H. unfold py_round.
  pose proof (Qfloor_le x) as Hlo.
  assert (Hf : Qfloor x <= k).
  { rewrite <- (Qfloor_Z k). apply Qfloor_resp_le. exact H. }
  destruct (Z.eq_dec (Qfloor x) k) as [E | N].
  - rewrite E in *.
    destruct (Qcompare_spec (x - inject_Z k) (1 # 2)) as [E' | L | G];
      [lra | lia | lra].
  - destruct (x - inject_Z (Qfloor x) ?= 1 # 2)%Q; [destruct (Z.even _) | |]; lia.
Qed.

Lemma py_round_mono (x y : Q) : (x <= y)%Q -> py_round x <= py_round y.
Proof.
  intros H. destruct (py_round_near x) as [Hlo _].
  destruct (Qlt_le_dec (inject_Z (py_round x) - (1 # 2)) y) as [L | G].
  - apply py_round_ge. exact L.
  - assert (E : (x == y)%Q) by lra.
    rewrite (py_round_comp _ _ E). lia.
Qed.

Lemma py_round_Z (k : Z) : py_round (inject_Z k) = k.
Proof.
  apply Z.le_antisymm.
  - apply py_round_le. lra.
  - apply py_round_ge. lra.
Qed.

Lemma round_ndigits_mono (x y : Q) (n : nat) :
  (x <= y)%Q -> (round_ndigits x n <= round_ndigits y n)%Q.
Proof.
  intros H. unfold round_ndigits.
  set (s := Z.to_pos (10 ^ Z.of_nat n)).
  assert (M : py_round (x * inject_Z (Z.pos s))%Q <= py_round (y * inject_Z (Z.pos s))%Q).
  { apply py_round_mono. apply Qmult_le_compat_r; [exact H |].
    rewrite <- (Zle_Qle 0). lia. }
  unfold Qle. simpl. nia.
Qed.

Lemma round_ndigits_Z (k : Z) (n : nat) :
  (round_ndigits (inject_Z k) n == inject_Z k)%Q.
Proof.
  unfold round_ndigits.
  set (s := Z.to_pos (10 ^ Z.of_nat n)).
  rewrite <- inject_Z_mult, py_round_Z.
  unfold Qeq. simpl. lia.
Qed.

(** ** Sorting *)

Lemma Qle_bool_false (x y : Q) : Qle_bool x y = false -> (y < x)%Q.
Proof.
  intros H. apply Qnot_le_lt. intros L.
  apply Qle_bool_iff in L. congruence.
Qed.

Lemma Qltb_true (x y : Q) : Qltb x y = true <-> (x < y)%Q.
Proof.
  unfold Qltb. rewrite negb_true_iff. split.
  - apply Qle_bool_false.
  - intros L. destruct (Qle_bool y x) eqn:E; [| reflexivity].
    apply Qle_bool_iff in E. lra.
Qed.

Lemma Qltb_false (x y : Q) : Qltb x y = false <-> (y <= x)%Q.
Proof.
  unfold Qltb. rewrite negb_false_iff. apply Qle_bool_iff.
Qed.

(** Case analysis on a float comparison, with both outcomes turned into
    facts about the rationals. *)
Ltac case_Qltb x y :=
  let E := fresh "E" in
  destruct (Qltb x y) eqn:E;
  [apply Qltb_true in E | apply Qltb_false in E].

Lemma insert_sorted_perm (x : Q) (l : list Q) :
  Permutation (insert_sorted x l) (x :: l).
Proof.
  induction l as [| y l IH]; simpl.
  - apply Permutation_refl.
  - destruct (Qle_bool x y).
    + apply Permutation_refl.
    + transitivity (y :: x :: l).
      * apply perm_skip. exact IH.
      * apply perm_swap.
Qed.

Lemma sorted_perm (l : list Q) : Permutation (sorted l) l.
Proof.
  induction l as [| x l IH]; simpl.
  - apply perm_nil.
  - transitivity (x :: sorted l).
    + apply insert_sorted_perm.
    + apply perm_skip. exact IH.
Qed.

Lemma sorted_length (l : list Q) : length (sorted l) = length l.
Proof. apply Permutation_length, sorted_perm. Qed.

Lemma sorted_In (l : list Q) (x : Q) : In x (sorted l) <-> In x l.
Proof.
  split; apply Permutation_in;
    [apply sorted_perm | apply Permutation_sym, sorted_perm].
Qed.

Lemma insert_sorted_strongly (x : Q) (l : list Q) :
  StronglySorted Qle l -> StronglySorted Qle (insert_sorted x l).
Proof.
  induction l as [| y l IH]; intros S; simpl.
  - repeat constructor.
  - inversion S as [| ? ? S' F]; subst.
    destruct (Qle_bool x y) eqn:E.
    + apply Qle_bool_iff in E. constructor; [exact S |].
      constructor; [exact E |].
      eapply Forall_impl; [| exact F]. intros z Hz. lra.
    + apply Qle_bool_false in E. constructor; [apply IH, S' |].
      apply Forall_forall. intros z Hz.
      apply (Permutation_in _ (insert_sorted_perm x l)) in Hz.
      destruct Hz as [<- | Hz]; [lra |].
      rewrite Forall_forall in F. apply F, Hz.
Qed.

Lemma sorted_strongly (l : list Q) : StronglySorted Qle (sorted l).
Proof.
  induction l as [| x l IH]; simpl.
  - constructor.
  - apply insert_sorted_strongly, IH.
Qed.

Lemma strongly_sorted_nth (l : list Q) (d : Q) :
  StronglySorted Qle l ->
  forall i j : nat, (i <= j < length l)%nat -> (nth i l d <= nth j l d)%Q.
Proof.
  induction 1 as [| x l S IH F]; intros i j [Hij Hj]; simpl in *.
  - lia.
  - destruct i as [| i], j as [| j]; try lia.
    + lra.
    + rewrite Forall_forall in F. apply F, nth_In. lia.
    + apply IH. lia.
Qed.

(** ** Indexing *)

Lemma py_getitem_ok {A : Type} (l : list A) (i : Z) (d : A) :
  0 <= i < Z.of_nat (length l) ->
  py_getitem l i = Ok (nth (Z.to_nat i) l d).
Proof.
  intros [Hlo Hhi]. unfold py_getitem.
  destruct (i <? 0) eqn:E; [apply Z.ltb_lt in E; lia |].
  rewrite E. simpl.
  destruct (Z.of_nat (length l) <=? i) eqn:E'; [apply Z.leb_le in E'; lia |].
  rewrite (nth_error_nth' l d); [reflexivity | lia].
Qed.

(** ** Least and greatest element *)

Lemma min_from_spec (l : list Q) (x : Q) :
  In (min_from x l) (x :: l) /\
  forall y, In y (x :: l) -> (min_from x l <= y)%Q.
Proof.
  unfold min_from. revert x. induction l as [| a l IH]; intros x; simpl.
  - split; [left; reflexivity |]. intros y [<- | []]. lra.
  - destruct (IH (if Qltb a x then a else x)) as [Hin Hle]. split.
    + destruct Hin as [E | Hin]; [| right; right; exact Hin].
      rewrite <- E. destruct (Qltb a x); [right; left | left]; reflexivity.
    + intros y Hy.
      assert (Hax : ((if Qltb a x then a else x) <= a /\
                     (if Qltb a x then a else x) <= x)%Q)
        by (case_Qltb a x; lra).
      pose proof (Hle _ (or_introl eq_refl)) as H0.
      destruct Hy as [<- | [<- | Hy]]; [lra | lra |].
      apply Hle. right. exact Hy.
Qed.

Lemma max_from_spec (l : list Q) (x : Q) :
  In (max_from x l) (x :: l) /\
  forall y, In y (x :: l) -> (y <= max_from x l)%Q.
Proof.
  unfold max_from. revert x. induction l as [| a l IH]; intros x; simpl.
  - split; [left; reflexivity |]. intros y [<- | []]. lra.
  - destruct (IH (if Qltb x a then a else x)) as [Hin Hle]. split.
    + destruct Hin as [E | Hin]; [| right; right; exact Hin].
      rewrite <- E. destruct (Qltb x a); [right; left | left]; reflexivity.
    + intros y Hy.
      assert (Hax : (a <= (if Qltb x a then a else x) /\
                     x <= (if Qltb x a then a else x))%Q)
        by (case_Qltb x a; lra).
      pose proof (Hle _ (or_introl eq_refl)) as H0.
      destruct Hy as [<- | [<- | Hy]]; [lra | lra |].
      apply Hle. right. exact Hy.
Qed.

(** ** The percentile helper *)

Lemma clamp_spec (q : pyfloat) :
  exists c, fmax2 (Fin 0%Q) (fmin2 (Fin 1%Q) q) = Fin c /\ (c == clamp01 q)%Q.
Proof.
  destruct q as [x | | |]; try (eexists; split; reflexivity).
  unfold fmin2, fmax2, clamp01; cbn [flt].
  case_Qltb x 1%Q; cbn [flt].
  - case_Qltb 0%Q x.
    + exists x. split; [reflexivity |].
      case_Qltb x 0%Q; [lra |]. case_Qltb 1%Q x; [lra | reflexivity].
    + exists 0%Q. split; [reflexivity |].
      case_Qltb x 0%Q; [reflexivity |]. case_Qltb 1%Q x; lra.
  - exists 1%Q. split; [reflexivity |].
    case_Qltb x 0%Q; [lra |]. case_Qltb 1%Q x; [reflexivity | lra].
Qed.

Lemma clamp01_range (q : pyfloat) : (0 <= clamp01 q <= 1)%Q.
Proof.
  destruct q as [x | | |]; unfold clamp01; try lra.
  case_Qltb x 0%Q; [lra |]. case_Qltb 1%Q x; lra.
Qed.

Lemma nearest_rank_index_range (n : nat) (q : pyfloat) :
  (0 < n)%nat ->
  0 <= nearest_rank_index n q < Z.of_nat n.
Proof.
  intros Hn. unfold nearest_rank_index.
  pose proof (clamp01_range q) as [H0 H1].
  assert (Hm : (0 <= inject_Z (Z.of_nat n - 1))%Q)
    by (rewrite <- (Zle_Qle 0); lia).
  split.
  - apply py_round_ge.
    pose proof (Qmult_le_0_compat _ _ H0 Hm). change (inject_Z 0) with 0%Q. lra.
  - assert (py_round (clamp01 q * inject_Z (Z.of_nat n - 1))%Q <= Z.of_nat n - 1);
      [| lia].
    apply py_round_le.
    pose proof (Qmult_le_compat_r _ _ _ H1 Hm). lra.
Qed.

Lemma pct_nonempty (values : list Q) (q : pyfloat) :
  values <> [] ->
  pct values q =
  Ok (nth (Z.to_nat (nearest_rank_index (length values) q)) (sorted values) 0%Q).
Proof.
  intros Hne. destruct values as [| v l]; [congruence |].
  unfold pct.
  destruct (clamp_spec q) as [c [-> Hc]].
  rewrite sorted_length.
  set (n := length (v :: l)).
  cbn [fmul_int py_round_f bind].
  assert (E : py_round (c * inject_Z (Z.of_nat n - 1))%Q = nearest_rank_index n q).
  { unfold nearest_rank_index. apply py_round_comp. rewrite Hc. reflexivity. }
  rewrite E. apply py_getitem_ok. rewrite sorted_length.
  apply nearest_rank_index_range. unfold n. simpl. lia.
Qed.

Lemma pct_member (values : list Q) (q : pyfloat) :
  values <> [] -> exists v, pct values q = Ok v /\ In v values.
Proof.
  intros Hne. rewrite (pct_nonempty _ q Hne). eexists. split; [reflexivity |].
  apply sorted_In, nth_In. rewrite sorted_length.
  pose proof (nearest_rank_index_range (length values) q) as H.
  destruct values; [congruence |]. simpl length in *. lia.
Qed.

(** Ties go to the even index: 0.95 * 10 = 9.5 gives 10, and
    0.95 * 30 = 28.5 gives 28. *)
Example nearest_rank_index_ties :
  nearest_rank_index 11 (Fin (95 # 100)) = 10 /\
  nearest_rank_index 31 (Fin (95 # 100)) = 28.
Proof. split; reflexivity. Qed.

(** ** The median *)

Lemma median_nonempty (values : list Q) :
  values <> [] -> median values = Ok (median_of (sorted values)).
Proof.
  intros Hne. unfold median, median_of. cbv zeta.
  set (s := sorted values).
  assert (Hn : 0 < Z.of_nat (length s)).
  { unfold s. rewrite sorted_length. destruct values; [congruence | simpl; lia]. }
  remember (Z.of_nat (length s)) as n eqn:Hlen.
  destruct (n =? 0) eqn:E0; [apply Z.eqb_eq in E0; lia |].
  destruct (n mod 2 =? 1) eqn:E1.
  - apply py_getitem_ok. rewrite <- Hlen. split; [apply Z.div_pos; lia |].
    apply Z.div_lt; lia.
  - apply Z.eqb_neq in E1.
    assert (Hev : n mod 2 = 0) by (pose proof (Z.mod_pos_bound n 2); lia).
    assert (Hdiv : n = 2 * (n / 2)) by (pose proof (Z.div_mod n 2); lia).
    rewrite (py_getitem_ok s (n / 2 - 1) 0%Q) by lia.
    rewrite (py_getitem_ok s (n / 2) 0%Q) by lia.
    reflexivity.
Qed.

Lemma median_of_bounds (s : list Q) :
  s <> [] -> StronglySorted Qle s ->
  let n := Z.of_nat (length s) in
  (nth 0 s 0 <= median_of s /\ median_of s <= nth (Z.to_nat (n / 2)) s 0)%Q.
Proof.
  intros Hne S n.
  assert (Hn : 0 < n) by (unfold n; destruct s; [congruence | simpl; lia]).
  assert (Hlen : n = Z.of_nat (length s)) by reflexivity. clearbody n.
  unfold median_of. cbv zeta. rewrite <- Hlen.
  assert (Hh : 0 <= n / 2 < n)
    by (split; [apply Z.div_pos; lia | apply Z.div_lt; lia]).
  destruct (n mod 2 =? 1) eqn:E1.
  - split; [| apply Qle_refl]. apply strongly_sorted_nth; [exact S | lia].
  - apply Z.eqb_neq in E1.
    assert (Hdiv : n = 2 * (n / 2))
      by (pose proof (Z.div_mod n 2); pose proof (Z.mod_pos_bound n 2); lia).
    assert (A : (nth 0 s 0 <= nth (Z.to_nat (n / 2 - 1)) s 0)%Q)
      by (apply strongly_sorted_nth; [exact S | lia]).
    assert (B : (nth (Z.to_nat (n / 2 - 1)) s 0 <= nth (Z.to_nat (n / 2)) s 0)%Q)
      by (apply strongly_sorted_nth; [exact S | lia]).
    set (a := nth (Z.to_nat (n / 2 - 1)) s 0%Q) in *.
    set (b := nth (Z.to_nat (n / 2)) s 0%Q) in *.
    assert (E : ((a + b) / 2 == (a + b) * (1 # 2))%Q) by (unfold Qdiv; reflexivity).
    rewrite E. lra.
Qed.

(** The index picked for the 95th percentile lies at or above the upper
    median position. *)
Lemma p95_index_above_median (n : nat) :
  (0 < n)%nat ->
  Z.of_nat n / 2 <= nearest_rank_index n (Fin (95 # 100)).
Proof.
  intros Hn. unfold nearest_rank_index.
  change (clamp01 (Fin (95 # 100))) with (95 # 100)%Q.
  set (m := Z.of_nat n) in *.
  assert (Hm : 1 <= m) by lia.
  destruct (Z.eq_dec m 1) as [-> | Hne].
  - change (1 / 2) with 0. apply py_round_ge.
    change (inject_Z (1 - 1)) with 0%Q. change (inject_Z 0) with 0%Q. lra.
  - apply py_round_ge.
    assert (H2 : 2 * (m / 2) <= m)
      by (pose proof (Z.div_mod m 2); pose proof (Z.mod_pos_bound m 2); lia).
    rewrite Zle_Qle, inject_Z_mult in H2. change (inject_Z 2) with 2%Q in H2.
    assert (H1 : 2 <= m) by lia.
    rewrite Zle_Qle in H1. change (inject_Z 2) with 2%Q in H1.
    unfold Z.sub. rewrite inject_Z_plus, inject_Z_opp.
    change (inject_Z 1) with 1%Q. lra.
Qed.

Lemma round_ndigits_4dp (x : Q) : rounded_4dp x (round_ndigits x 4).
Proof.
  unfold rounded_4dp, round_ndigits.
  change (Z.to_pos (10 ^ Z.of_nat 4)) with 10000%positive.
  exists (py_round (x * inject_Z 10000)). split; [reflexivity |].
  destruct (py_round_near (x * inject_Z 10000)) as [Hlo Hhi].
  set (k := py_round (x * inject_Z 10000)) in *.
  assert (E : (k # 10000 == inject_Z k * (1 # 10000))%Q).
  { unfold Qeq, inject_Z, Qmult. simpl. lia. }
  rewrite E. change (inject_Z 10000) with (10000 # 1)%Q in *. lra.
Qed.

(** ** [stats_bucket] *)

Lemma stats_bucket_eq (values : list Q) :
  stats_bucket values = Ok (bucket_of values).
Proof.
  destruct values as [| x l]; [reflexivity |].
  unfold stats_bucket, bucket_of.
  rewrite median_nonempty by congruence.
  rewrite (pct_nonempty (x :: l) (Fin (95 # 100))) by congruence.
  reflexivity.
Qed.

Lemma bucket_of_count (values : list Q) :
  count (bucket_of values) = Z.of_nat (length values).
Proof. destruct values; reflexivity. Qed.

Lemma wei_to_gwei_eq (w : Z) : (from_wei_gwei w == wei_to_gwei w)%Q.
Proof.
  unfold from_wei_gwei, wei_to_gwei.
  change (10 ^ 9) with 1000000000.
  unfold Qeq, Qdiv, Qmult, Qinv, inject_Z. simpl. lia.
Qed.

(** ** [sample_block_fees] *)

Lemma or0_Some (v : Z) : or0 (Some v) = v.
Proof. unfold or0. destruct (v =? 0) eqn:E; [apply Z.eqb_eq in E |]; lia. Qed.

Lemma sample_tx_eq (bf : Z) (eff tip : list Q) (tx : Tx) :
  sample_tx bf (eff, tip) tx =
  (eff ++ [from_wei_gwei (effective_wei bf tx)],
   tip ++ [from_wei_gwei (tip_wei bf tx)]).
Proof.
  unfold sample_tx, effective_wei, tip_wei, type_of, gas_price_of,
    priority_fee_of, max_fee_of.
  destruct tx as [f | f]; simpl;
    destruct (get_default (tx_type f) 0 =? 2); reflexivity.
Qed.

Lemma sample_txs_eq (bf : Z) (txs : list Tx) (eff tip : list Q) :
  fold_left (sample_tx bf) txs (eff, tip) =
  (eff ++ map (fun tx => from_wei_gwei (effective_wei bf tx)) txs,
   tip ++ map (fun tx => from_wei_gwei (tip_wei bf tx)) txs).
Proof.
  revert eff tip. induction txs as [| tx txs IH]; intros eff tip;
    cbn [fold_left map].
  - rewrite !app_nil_r. reflexivity.
  - rewrite sample_tx_eq, IH, <- !app_assoc. reflexivity.
Qed.

Lemma sample_block_fees_eq (block : Block) (base_fee_wei : Z) :
  sample_block_fees block base_fee_wei =
  (map (fun tx => from_wei_gwei (effective_wei base_fee_wei tx))
       (transactions block),
   map (fun tx => from_wei_gwei (tip_wei base_fee_wei tx))
       (transactions block)).
Proof.
  unfold sample_block_fees. rewrite or0_Some. apply sample_txs_eq.
Qed.

(** The two fee models on the sample transactions, at a base fee of
    80 Gwei. *)
Example type2_fee_sample :
  (from_wei_gwei (effective_wei 80000000000 demo_type2) == 85)%Q /\
  (from_wei_gwei (tip_wei 80000000000 demo_type2) == 5)%Q.
Proof. split; reflexivity. Qed.

Example legacy_fee_sample :
  (from_wei_gwei (effective_wei 80000000000 demo_legacy) == 50)%Q /\
  (from_wei_gwei (tip_wei 80000000000 demo_legacy) == 0)%Q.
Proof. split; reflexivity. Qed.

Example demo_block_fee_samples :
  sample_block_fees demo_block 80000000000 =
  ([from_wei_gwei 85000000000; from_wei_gwei 50000000000],
   [from_wei_gwei 5000000000; from_wei_gwei 0]).
Proof. reflexivity. Qed.

(** ** The sampling loop *)

Section Loop.

Variable w3 : Web3.

Lemma sample_block_eq (st : Samples) (n : Z) :
  sample_block w3 st n = blk <- get_block w3 n true ;; Ok (add_block st blk).
Proof.
  unfold sample_block. destruct (get_block w3 n true) as [blk | e]; simpl;
    [| reflexivity].
  rewrite sample_block_fees_eq. reflexivity.
Qed.

Lemma for_each_eq (ns : list Z) (st : Samples) :
  for_each (sample_block w3) ns st =
  blks <- fetch_all w3 ns ;; Ok (fold_left add_block blks st).
Proof.
  revert st. induction ns as [| n ns IH]; intros st; simpl; [reflexivity |].
  rewrite sample_block_eq.
  destruct (get_block w3 n true) as [blk | e]; simpl; [| reflexivity].
  rewrite IH. destruct (fetch_all w3 ns); reflexivity.
Qed.

Lemma fetch_all_length (ns : list Z) (blks : list Block) :
  fetch_all w3 ns = Ok blks -> length blks = length ns.
Proof.
  revert blks. induction ns as [| n ns IH]; intros blks; simpl.
  - intros [= <-]. reflexivity.
  - destruct (get_block w3 n true); simpl; [| discriminate].
    destruct (fetch_all w3 ns) as [bs |]; simpl; [| discriminate].
    intros [= <-]. simpl. f_equal. apply IH. reflexivity.
Qed.

Lemma fetch_all_ok (ns : list Z) :
  (forall n, In n ns -> exists blk, get_block w3 n true = Ok blk) ->
  exists blks, fetch_all w3 ns = Ok blks.
Proof.
  induction ns as [| n ns IH]; intros H; simpl.
  - eexists. reflexivity.
  - destruct (H n (or_introl eq_refl)) as [blk ->].
    destruct IH as [blks ->]; [intros m Hm; apply H; right; exact Hm |].
    eexists. reflexivity.
Qed.

Lemma fetch_all_fails (pre post : list Z) (n : Z) (e : exn) :
  (forall m, In m pre -> exists blk, get_block w3 m true = Ok blk) ->
  get_block w3 n true = Raise e ->
  fetch_all w3 (pre ++ n :: post) = Raise e.
Proof.
  induction pre as [| m pre IH]; intros H Hn; simpl.
  - rewrite Hn. reflexivity.
  - destruct (H m (or_introl eq_refl)) as [blk ->]. simpl.
    rewrite IH; [reflexivity | | exact Hn].
    intros k Hk. apply H. right. exact Hk.
Qed.

Lemma fetch_all_In (ns : list Z) (blks : list Block) (blk : Block) :
  fetch_all w3 ns = Ok blks -> In blk blks ->
  exists n, In n ns /\ get_block w3 n true = Ok blk.
Proof.
  revert blks. induction ns as [| n ns IH]; intros blks; simpl.
  - intros [= <-] [].
  - destruct (get_block w3 n true) as [b |] eqn:E; simpl; [| discriminate].
    destruct (fetch_all w3 ns) as [bs |]; simpl; [| discriminate].
    intros [= <-] [<- | Hin].
    + exists n. split; [left; reflexivity | exact E].
    + destruct (IH bs eq_refl Hin) as (m & Hm & Hg).
      exists m. split; [right; exact Hm | exact Hg].
Qed.

End Loop.

Lemma fetch_all_ext (w3 w3' : Web3) (ns : list Z) :
  (forall n, In n ns -> get_block w3 n true = get_block w3' n true) ->
  fetch_all w3 ns = fetch_all w3' ns.
Proof.
  induction ns as [| n ns IH]; intros H; simpl; [reflexivity |].
  rewrite (H n (or_introl eq_refl)), IH; [reflexivity |].
  intros m Hm. apply H. right. exact Hm.
Qed.

Lemma fold_add_block_counts (blks : list Block) (st : Samples) :
  let st' := fold_left add_block blks st in
  sampled_blocks st' = sampled_blocks st + Z.of_nat (length blks) /\
  length (basefees st') = (length (basefees st) + length blks)%nat /\
  (length (eff_prices st) = length (tips st) ->
   length (eff_prices st') = length (tips st')).
Proof.
  revert st. induction blks as [| blk blks IH]; intros st; simpl.
  - repeat split; [lia | lia | auto].
  - destruct (IH (add_block st blk)) as (H1 & H2 & H3).
    simpl in H1, H2, H3. rewrite length_app in H2. simpl in H2.
    repeat split; [lia | lia |].
    intros E. apply H3. rewrite !length_app, !length_map. lia.
Qed.

Lemma collect_counts (blks : list Block) :
  sampled_blocks (collect blks) = Z.of_nat (length blks) /\
  length (basefees (collect blks)) = length blks /\
  length (eff_prices (collect blks)) = length (tips (collect blks)).
Proof.
  destruct (fold_add_block_counts blks no_samples) as (H1 & H2 & H3).
  unfold collect. simpl in *. repeat split; [lia | lia | auto].
Qed.

(** ** The walk *)

Lemma ceil_div_Z (a s : Z) : 0 < s -> ceil_div a s = (a + s - 1) / s.
Proof.
  intros Hs. unfold ceil_div, Qceiling.
  assert (E : (- (inject_Z a / inject_Z s) == inject_Z (- a) / inject_Z s)%Q).
  { rewrite inject_Z_opp. unfold Qdiv. ring. }
  rewrite E, <- Zdiv_Qdiv.
  apply (Z.div_unique _ _ _ (s - 1 - (- a) mod s)).
  - left. pose proof (Z.mod_pos_bound (- a) s Hs). lia.
  - pose proof (Z.div_mod (- a) s). lia.
Qed.

Lemma ceil_div_nonpos (a s : Z) : 0 < s -> a <= 0 -> ceil_div a s <= 0.
Proof.
  intros Hs Ha. rewrite ceil_div_Z by exact Hs.
  assert ((a + s - 1) / s < 1); [| lia].
  apply Z.div_lt_upper_bound; lia.
Qed.

Lemma ceil_div_pos (a s : Z) :
  0 < s -> 0 < a -> ceil_div a s = 1 + ceil_div (a - s) s /\ 0 <= ceil_div (a - s) s.
Proof.
  intros Hs Ha. rewrite !ceil_div_Z by exact Hs.
  replace (a + s - 1) with (a - s + s - 1 + 1 * s) by lia.
  rewrite Z.div_add by lia. split; [lia |].
  apply Z.div_pos; lia.
Qed.

Lemma range_from_desc (s : Z) (fuel : nat) (n stop : Z) :
  0 < s -> (Z.to_nat (n - stop) <= fuel)%nat ->
  range_from fuel n stop (- s) =
  map (fun i => n - Z.of_nat i * s) (seq 0 (Z.to_nat (ceil_div (n - stop) s))).
Proof.
  intros Hs. revert n. induction fuel as [| fuel IH]; intros n Hf.
  - assert (Hle : n - stop <= 0) by lia.
    pose proof (ceil_div_nonpos _ _ Hs Hle) as Hc.
    replace (Z.to_nat (ceil_div (n - stop) s)) with 0%nat by lia.
    reflexivity.
  - cbn [range_from].
    destruct (0 <? - s) eqn:E; [apply Z.ltb_lt in E; lia |].
    destruct (stop <? n) eqn:E'.
    + apply Z.ltb_lt in E'.
      destruct (ceil_div_pos (n - stop) s Hs) as [Hc Hc0]; [lia |].
      rewrite Hc.
      replace (Z.to_nat (1 + ceil_div (n - stop - s) s))
        with (S (Z.to_nat (ceil_div (n - stop - s) s))) by lia.
      cbn [seq map]. f_equal; [lia |].
      rewrite IH by lia.
      rewrite <- seq_shift, map_map.
      replace (n + - s - stop) with (n - stop - s) by lia.
      apply map_ext. intros i. lia.
    + apply Z.ltb_ge in E'.
      assert (Hle : n - stop <= 0) by lia.
      pose proof (ceil_div_nonpos _ _ Hs Hle) as Hc.
      replace (Z.to_nat (ceil_div (n - stop) s)) with 0%nat by lia.
      reflexivity.
Qed.

Lemma py_range_walk (head start_block step : Z) :
  0 < step ->
  py_range head (start_block - 1) (- step) = Ok (walk head start_block step).
Proof.
  intros Hs. unfold py_range, walk.
  destruct (- step =? 0) eqn:E; [apply Z.eqb_eq in E; lia |].
  rewrite range_from_desc by lia.
  replace (head - (start_block - 1)) with (head - start_block + 1) by lia.
  reflexivity.
Qed.

Lemma walk_length (head start_block step : Z) :
  0 < step -> start_block <= head ->
  Z.of_nat (length (walk head start_block step)) =
  ceil_div (head - start_block + 1) step.
Proof.
  intros Hs Hh. unfold walk. rewrite length_map, length_seq.
  destruct (ceil_div_pos (head - start_block + 1) step Hs) as [Hc Hc0]; lia.
Qed.

Lemma walk_In (head start_block step n : Z) :
  0 < step -> In n (walk head start_block step) ->
  start_block <= n <= head /\ exists i : nat, n = head - Z.of_nat i * step.
Proof.
  intros Hs Hin. unfold walk in Hin. apply in_map_iff in Hin.
  destruct Hin as (i & <- & Hi). apply in_seq in Hi.
  split; [| exists i; reflexivity].
  set (a := head - start_block + 1) in *.
  assert (Ha : 0 < a).
  { destruct (Z_lt_le_dec 0 a) as [L | G]; [exact L |].
    pose proof (ceil_div_nonpos a step Hs G). lia. }
  assert (Hi' : Z.of_nat i < ceil_div a step) by lia.
  rewrite ceil_div_Z in Hi' by exact Hs.
  assert (Hb : Z.of_nat i * step <= a - 1).
  { assert (H1 : Z.of_nat i + 1 <= (a + step - 1) / step) by lia.
    assert (H2 : step * ((a + step - 1) / step) <= a + step - 1)
      by (apply Z.mul_div_le; lia).
    nia. }
  assert (Hnn : 0 <= Z.of_nat i * step) by (apply Z.mul_nonneg_nonneg; lia).
  unfold a in Hb. lia.
Qed.

Lemma walk_single (head : Z) : walk head head 1 = [head].
Proof.
  unfold walk. rewrite ceil_div_Z by lia.
  replace (head - head + 1 + 1 - 1) with 1 by lia.
  change (Z.to_nat (1 / 1)) with 1%nat. simpl. f_equal. lia.
Qed.

(** ** [analyze_fees] *)

Lemma analyze_fees_eq (w3 : Web3) (t0 t1 : Q) (blocks step : Z)
  (head_override : option Z) :
  analyze_fees w3 t0 t1 blocks step head_override =
  head <- resolve_head w3 head_override ;;
  ns <- py_range head (Z.max 0 (head - blocks + 1) - 1) (- step) ;;
  blks <- fetch_all w3 ns ;;
  cid <- chain_id w3 ;;
  Ok (profile_of w3 t0 t1 blocks step head cid blks).
Proof.
  unfold analyze_fees, resolve_head.
  destruct (match head_override with Some h => Ok h | None => block_number w3 end)
    as [head | e]; simpl; [| reflexivity].
  destruct (py_range head (Z.max 0 (head - blocks + 1) - 1) (- step))
    as [ns | e]; simpl; [| reflexivity].
  rewrite for_each_eq.
  destruct (fetch_all w3 ns) as [blks | e]; simpl; [| reflexivity].
  destruct (chain_id w3) as [cid | e]; simpl; [| reflexivity].
  rewrite !stats_bucket_eq. reflexivity.
Qed.

(** ** Runs of [analyze_fees] *)

Lemma analyze_fees_ok_inv (w3 : Web3) (t0 t1 : Q) (blocks step : Z)
  (head_override : option Z) (r : FeeProfile) :
  analyze_fees w3 t0 t1 blocks step head_override = Ok r ->
  exists head ns blks cid,
    resolve_head w3 head_override = Ok head /\
    py_range head (Z.max 0 (head - blocks + 1) - 1) (- step) = Ok ns /\
    fetch_all w3 ns = Ok blks /\
    chain_id w3 = Ok cid /\
    r = profile_of w3 t0 t1 blocks step head cid blks.
Proof.
  rewrite analyze_fees_eq.
  destruct (resolve_head w3 head_override) as [head | e] eqn:E1; simpl;
    [| discriminate].
  destruct (py_range head (Z.max 0 (head - blocks + 1) - 1) (- step))
    as [ns | e] eqn:E2; simpl; [| discriminate].
  destruct (fetch_all w3 ns) as [blks | e] eqn:E3; simpl; [| discriminate].
  destruct (chain_id w3) as [cid | e] eqn:E4; simpl; [| discriminate].
  intros [= <-]. exists head, ns, blks, cid. repeat split; assumption.
Qed.

Lemma from_wei_gwei_nonneg (w : Z) : 0 <= w -> (0 <= from_wei_gwei w)%Q.
Proof. intros H. unfold from_wei_gwei, Qle. simpl. lia. Qed.

Lemma tip_wei_nonneg (bf : Z) (tx : Tx) :
  0 <= priority_fee_of tx -> 0 <= tip_wei bf tx.
Proof.
  intros H. unfold tip_wei. destruct (type_of tx =? 2); [exact H | lia].
Qed.

Lemma fold_add_block_tips (blks : list Block) (st : Samples) :
  Forall (fun t => 0 <= t)%Q (tips st) ->
  (forall blk tx, In blk blks -> In tx (transactions blk) ->
                  0 <= priority_fee_of tx) ->
  Forall (fun t => 0 <= t)%Q (tips (fold_left add_block blks st)).
Proof.
  revert st. induction blks as [| blk blks IH]; intros st Hst H; simpl.
  - exact Hst.
  - apply IH.
    + simpl. apply Forall_app. split; [exact Hst |].
      apply Forall_forall. intros t Ht. apply in_map_iff in Ht.
      destruct Ht as (tx & <- & Htx).
      apply from_wei_gwei_nonneg, tip_wei_nonneg.
      apply (H blk tx); [left; reflexivity | exact Htx].
    + intros b tx Hb Htx. apply (H b tx); [right; exact Hb | exact Htx].
Qed.

Lemma bucket_of_min_nonneg (V : list Q) :
  Forall (fun t => 0 <= t)%Q V -> (0 <= b_min (bucket_of V))%Q.
Proof.
  intros H. destruct V as [| x l]; simpl; [lra |].
  destruct (min_from_spec l x) as [Hin _].
  rewrite Forall_forall in H. specialize (H _ Hin).
  pose proof (round_ndigits_mono _ _ 4 H) as M.
  pose proof (round_ndigits_Z 0 4) as Z0.
  change (inject_Z 0) with 0%Q in Z0. lra.
Qed.

Example unknown_network_name :
  network_name 999999 = "Unknown (chain ID 999999)"%string /\
  network_name 1 = "Ethereum Mainnet"%string.
Proof. split; reflexivity. Qed.

(** ** Binary64 arithmetic *)

Lemma pow2_pos (e : Z) : (0 < pow2 e)%Q.
Proof. apply Qpower_0_lt. reflexivity. Qed.

Lemma pow2_plus (a b : Z) : (pow2 (a + b) == pow2 a * pow2 b)%Q.
Proof. apply Qpower_plus. discriminate. Qed.

Lemma pow2_le (a b : Z) : a <= b -> (pow2 a <= pow2 b)%Q.
Proof. intros H. apply Qpower_le_compat_l; [exact H | discriminate]. Qed.

Lemma pow2_le_inv (a b : Z) : (pow2 a <= pow2 b)%Q -> a <= b.
Proof. intros H. apply (Qpower_le_compat_l_inv 2); [exact H | reflexivity]. Qed.

Lemma pow2_Z (e : Z) : 0 <= e -> (pow2 e == inject_Z (2 ^ e))%Q.
Proof. intros H. unfold pow2. rewrite Zpower_Qpower by exact H. reflexivity. Qed.

Lemma pow2_cancel (e : Z) : (pow2 (- e) * pow2 e == 1)%Q.
Proof.
  rewrite <- pow2_plus. replace (- e + e) with 0 by lia. reflexivity.
Qed.

Lemma ilog2_lower (x : Q) : (0 < x)%Q -> (pow2 (ilog2 x) <= x)%Q.
Proof.
  intros Hx. unfold ilog2.
  set (a := Qnum x). set (b := Qden x).
  destruct (Qle_bool (pow2 (Z.log2 a - Z.log2 (Z.pos b))) x) eqn:E;
    [apply Qle_bool_iff, E |].
  assert (Ha : 0 < a) by (unfold a; destruct x as [n d]; unfold Qlt in Hx;
                          simpl in *; lia).
  pose proof (Z.log2_spec a Ha) as [Hla _].
  pose proof (Z.log2_spec (Z.pos b) ltac:(lia)) as [_ Hlb].
  pose proof (Z.log2_nonneg a) as Hna.
  pose proof (Z.log2_nonneg (Z.pos b)) as Hnb.
  set (la := Z.log2 a) in *. set (lb := Z.log2 (Z.pos b)) in *.
  replace (la - lb - 1) with (la + - (lb + 1)) by lia.
  rewrite pow2_plus.
  assert (Ex : (x == inject_Z a * / inject_Z (Z.pos b))%Q).
  { unfold a, b. destruct x as [n d]. simpl. rewrite (Qmake_Qdiv n d).
    reflexivity. }
  rewrite Ex.
  assert (H1 : (pow2 la <= inject_Z a)%Q)
    by (rewrite pow2_Z by lia; rewrite <- Zle_Qle; exact Hla).
  assert (H2 : (inject_Z (Z.pos b) <= pow2 (lb + 1))%Q).
  { rewrite pow2_Z by lia. rewrite <- Zle_Qle.
    replace (lb + 1) with (Z.succ lb) by lia. lia. }
  assert (Hb : (0 < inject_Z (Z.pos b))%Q) by (rewrite <- (Zlt_Qlt 0); lia).
  assert (H3 : (pow2 (- (lb + 1)) <= / inject_Z (Z.pos b))%Q).
  { apply Qle_shift_inv_l; [exact Hb |].
    rewrite Qmult_comm.
    apply Qle_trans with (pow2 (lb + 1) * pow2 (- (lb + 1)))%Q.
    - apply Qmult_le_compat_r; [exact H2 |]. apply Qlt_le_weak, pow2_pos.
    - rewrite Qmult_comm, pow2_cancel. apply Qle_refl. }
  pose proof (pow2_pos la). pose proof (pow2_pos (- (lb + 1))).
  apply Qle_trans with (inject_Z a * pow2 (- (lb + 1)))%Q.
  - apply Qmult_le_compat_r; [exact H1 | apply Qlt_le_weak; assumption].
  - rewrite !(Qmult_comm (inject_Z a)).
    apply Qmult_le_compat_r; [exact H3 |]. rewrite <- (Zle_Qle 0). lia.
Qed.

Lemma ilog2_upper (x : Q) : (0 < x)%Q -> (x < pow2 (ilog2 x + 1))%Q.
Proof.
  intros Hx. unfold ilog2.
  set (a := Qnum x). set (b := Qden x).
  destruct (Qle_bool (pow2 (Z.log2 a - Z.log2 (Z.pos b))) x) eqn:E.
  - assert (Ha : 0 < a) by (unfold a; destruct x as [n d]; unfold Qlt in Hx;
                            simpl in *; lia).
    pose proof (Z.log2_spec a Ha) as [_ Hla].
    pose proof (Z.log2_spec (Z.pos b) ltac:(lia)) as [Hlb _].
    pose proof (Z.log2_nonneg a) as Hna.
    pose proof (Z.log2_nonneg (Z.pos b)) as Hnb.
    set (la := Z.log2 a) in *. set (lb := Z.log2 (Z.pos b)) in *.
    replace (la - lb + 1) with ((la + 1) + - lb) by lia.
    rewrite pow2_plus.
    assert (Ex : (x == inject_Z a * / inject_Z (Z.pos b))%Q).
    { unfold a, b. destruct x as [n d]. simpl. rewrite (Qmake_Qdiv n d).
      reflexivity. }
    rewrite Ex.
    assert (H1 : (inject_Z a < pow2 (la + 1))%Q).
    { rewrite pow2_Z by lia. rewrite <- Zlt_Qlt.
      replace (la + 1) with (Z.succ la) by lia. exact Hla. }
    assert (H2 : (pow2 lb <= inject_Z (Z.pos b))%Q)
      by (rewrite pow2_Z by lia; rewrite <- Zle_Qle; exact Hlb).
    assert (Hb : (0 < inject_Z (Z.pos b))%Q) by (rewrite <- (Zlt_Qlt 0); lia).
    assert (H3 : (/ inject_Z (Z.pos b) <= pow2 (- lb))%Q).
    { apply Qle_shift_inv_r; [exact Hb |].
      apply Qle_trans with (pow2 (- lb) * pow2 lb)%Q.
      - rewrite pow2_cancel. apply Qle_refl.
      - rewrite !(Qmult_comm (pow2 (- lb))).
        apply Qmult_le_compat_r; [exact H2 |]. apply Qlt_le_weak, pow2_pos. }
    assert (Hib : (0 < / inject_Z (Z.pos b))%Q) by (apply Qinv_lt_0_compat, Hb).
    pose proof (pow2_pos (la + 1)). pose proof (pow2_pos (- lb)).
    apply Qlt_le_trans with (pow2 (la + 1) * / inject_Z (Z.pos b))%Q.
    + apply Qmult_lt_compat_r; assumption.
    + rewrite !(Qmult_comm (pow2 (la + 1))).
      apply Qmult_le_compat_r; [exact H3 | apply Qlt_le_weak; assumption].
  - apply Qle_bool_false in E.
    replace (Z.log2 a - Z.log2 (Z.pos b) - 1 + 1)
      with (Z.log2 a - Z.log2 (Z.pos b)) by lia.
    exact E.
Qed.

Lemma ilog2_unique (x : Q) (n : Z) :
  (pow2 n <= x)%Q -> (x < pow2 (n + 1))%Q -> ilog2 x = n.
Proof.
  intros Hlo Hhi.
  assert (Hx : (0 < x)%Q) by (pose proof (pow2_pos n); lra).
  pose proof (ilog2_lower x Hx) as L. pose proof (ilog2_upper x Hx) as U.
  assert (H1 : ilog2 x < n + 1).
  { destruct (Z_lt_le_dec (ilog2 x) (n + 1)) as [? | G]; [assumption |].
    apply pow2_le in G. lra. }
  assert (H2 : n < ilog2 x + 1).
  { destruct (Z_lt_le_dec n (ilog2 x + 1)) as [? | G]; [assumption |].
    apply pow2_le in G. lra. }
  lia.
Qed.

Lemma ilog2_comp (x y : Q) : (0 < x)%Q -> (x == y)%Q -> ilog2 x = ilog2 y.
Proof.
  intros Hx E. symmetry. apply ilog2_unique; rewrite <- E.
  - apply ilog2_lower, Hx.
  - apply ilog2_upper, Hx.
Qed.

Lemma Qabs_nonzero_pos (x : Q) : ~ (x == 0)%Q -> (0 < Qabs x)%Q.
Proof.
  intros Hz. destruct (Qlt_le_dec 0 x) as [L | G].
  - rewrite Qabs_pos by lra. exact L.
  - rewrite Qabs_neg by exact G.
    destruct (Qlt_le_dec x 0) as [L' | G']; [lra |].
    exfalso. apply Hz. lra.
Qed.

Lemma rnd64_comp (x y : Q) : (x == y)%Q -> rnd64 x = rnd64 y.
Proof.
  intros E. unfold rnd64.
  assert (E0 : Qeq_bool x 0 = Qeq_bool y 0) by (rewrite E; reflexivity).
  rewrite <- E0. destruct (Qeq_bool x 0) eqn:Hz; [reflexivity |].
  apply Qeq_bool_neq in Hz.
  assert (Habs : (0 < Qabs x)%Q) by (apply Qabs_nonzero_pos, Hz).
  assert (Ee : ulp_exp x = ulp_exp y).
  { unfold ulp_exp. f_equal. f_equal. apply ilog2_comp; [exact Habs |].
    rewrite E. reflexivity. }
  rewrite <- Ee. f_equal. f_equal. apply py_round_comp.
  unfold Qdiv. apply Qmult_comp; [exact E | reflexivity].
Qed.

Lemma rnd64_nonneg (y : Q) : (0 <= y)%Q -> (0 <= rnd64 y)%Q.
Proof.
  intros H. unfold rnd64. destruct (Qeq_bool y 0); [lra |].
  pose proof (pow2_pos (ulp_exp y)) as Hp.
  apply Qmult_le_0_compat; [| lra].
  rewrite <- (Zle_Qle 0). apply py_round_ge.
  assert (0 <= y / pow2 (ulp_exp y))%Q.
  { unfold Qdiv. apply Qmult_le_0_compat; [exact H |].
    apply Qinv_le_0_compat. lra. }
  change (inject_Z 0) with 0%Q. lra.
Qed.

(** An integer up to 2^53 is a multiple of the last place of every positive
    number below it. *)
Lemma int_multiple_of_ulp (y : Q) (m : Z) :
  (0 < y)%Q -> (y <= inject_Z m)%Q -> m <= 2 ^ 53 ->
  exists K : Z, (inject_Z m == inject_Z K * pow2 (ulp_exp y))%Q.
Proof.
  intros Hy Hm Hb.
  assert (Eabs : (Qabs y == y)%Q) by (apply Qabs_pos; lra).
  assert (Hl : (pow2 (ilog2 (Qabs y)) <= y)%Q).
  { rewrite (ilog2_comp (Qabs y) y) by (rewrite ?Eabs; auto; lra).
    apply ilog2_lower, Hy. }
  assert (Hle53 : ilog2 (Qabs y) <= 53).
  { apply pow2_le_inv. rewrite (pow2_Z 53) by lia.
    apply Qle_trans with y; [exact Hl |].
    apply Qle_trans with (inject_Z m); [exact Hm |].
    rewrite <- Zle_Qle. exact Hb. }
  unfold ulp_exp.
  destruct (Z_le_gt_dec (Z.max (ilog2 (Qabs y) - 52) (-1074)) 0) as [Hneg | Hpos].
  - set (e := Z.max (ilog2 (Qabs y) - 52) (-1074)) in *.
    exists (m * 2 ^ (- e)).
    rewrite inject_Z_mult, <- pow2_Z by lia.
    rewrite <- Qmult_assoc, pow2_cancel. ring.
  - assert (E53 : ilog2 (Qabs y) = 53) by lia.
    rewrite E53. change (Z.max (53 - 52) (-1074)) with 1.
    assert (Hm53 : m = 2 ^ 53).
    { apply Z.le_antisymm; [exact Hb |].
      rewrite Zle_Qle. rewrite <- (pow2_Z 53) by lia. rewrite <- E53.
      lra. }
    exists (2 ^ 52). rewrite Hm53. reflexivity.
Qed.

Lemma rnd64_le_int (y : Q) (m : Z) :
  (0 <= y)%Q -> (y <= inject_Z m)%Q -> m <= 2 ^ 53 ->
  (rnd64 y <= inject_Z m)%Q.
Proof.
  intros Hy Hm Hb. unfold rnd64.
  destruct (Qeq_bool y 0) eqn:Hz; [lra |].
  apply Qeq_bool_neq in Hz.
  assert (Hy' : (0 < y)%Q).
  { destruct (Qlt_le_dec 0 y) as [? | G]; [assumption |].
    exfalso. apply Hz. lra. }
  destruct (int_multiple_of_ulp y m Hy' Hm Hb) as [K HK].
  pose proof (pow2_pos (ulp_exp y)) as Hp.
  rewrite HK. apply Qmult_le_compat_r; [| lra].
  rewrite <- Zle_Qle. apply py_round_le.
  apply Qle_shift_div_r; [exact Hp |]. rewrite <- HK. exact Hm.
Qed.

Lemma rnd64_int (m : Z) :
  0 <= m <= 2 ^ 53 -> (rnd64 (inject_Z m) == inject_Z m)%Q.
Proof.
  intros [H0 Hb]. unfold rnd64.
  destruct (Qeq_bool (inject_Z m) 0) eqn:Hz;
    [apply Qeq_bool_iff in Hz; rewrite Hz; reflexivity |].
  apply Qeq_bool_neq in Hz.
  assert (Hm : (0 < inject_Z m)%Q).
  { rewrite <- (Zlt_Qlt 0).
    destruct (Z.eq_dec m 0) as [-> | ?]; [exfalso; apply Hz; reflexivity | lia]. }
  destruct (int_multiple_of_ulp (inject_Z m) m Hm (Qle_refl _) Hb) as [K HK].
  pose proof (pow2_pos (ulp_exp (inject_Z m))) as Hp.
  assert (E : (inject_Z m / pow2 (ulp_exp (inject_Z m)) == inject_Z K)%Q).
  { rewrite HK at 1. field. lra. }
  rewrite (py_round_comp _ _ E), py_round_Z. symmetry. exact HK.
Qed.

Lemma py_round_unique (x : Q) (k : Z) :
  (inject_Z k - (1 # 2) < x)%Q -> (x < inject_Z k + (1 # 2))%Q ->
  py_round x = k.
Proof.
  intros Hlo Hhi. apply Z.le_antisymm; [| apply py_round_ge, Hlo].
  destruct (py_round_near x) as [Hn _].
  destruct (Z_le_gt_dec (py_round x) k) as [L | G]; [exact L | exfalso].
  assert (k + 1 <= py_round x) as L by lia.
  rewrite Zle_Qle, inject_Z_plus in L. change (inject_Z 1) with 1%Q in L. lra.
Qed.

Lemma Qfloor_unique (x : Q) (k : Z) :
  (inject_Z k <= x)%Q -> (x < inject_Z k + 1)%Q -> Qfloor x = k.
Proof.
  intros Hlo Hhi.
  pose proof (Qfloor_le x) as H1. pose proof (Qlt_floor x) as H2.
  rewrite inject_Z_plus in H2. change (inject_Z 1) with 1%Q in H2.
  assert (A : (inject_Z k < inject_Z (Qfloor x) + 1)%Q) by lra.
  assert (B : (inject_Z (Qfloor x) < inject_Z k + 1)%Q) by lra.
  change 1%Q with (inject_Z 1) in A, B.
  rewrite <- inject_Z_plus, <- Zlt_Qlt in A, B. lia.
Qed.

Lemma py_round_tie (x : Q) (k : Z) :
  (x == inject_Z k + (1 # 2))%Q ->
  py_round x = if Z.even k then k else k + 1.
Proof.
  intros E. unfold py_round.
  assert (F : Qfloor x = k) by (apply Qfloor_unique; lra).
  rewrite F.
  assert (C : (x - inject_Z k ?= 1 # 2)%Q = Eq) by (apply Qeq_alt; lra).
  rewrite C. reflexivity.
Qed.

(** Rounding half to even is symmetric about 0. *)
Lemma py_round_opp (x : Q) : py_round (- x) = - py_round x.
Proof.
  pose proof (Qfloor_le x) as Hlo. pose proof (Qlt_floor x) as Hhi.
  rewrite inject_Z_plus in Hhi. change (inject_Z 1) with 1%Q in Hhi.
  set (k := Qfloor x) in *.
  destruct (Qcompare_spec (x - inject_Z k) (1 # 2)) as [E | L | G].
  - assert (Ex : (x == inject_Z k + (1 # 2))%Q) by lra.
    assert (En : (- x == inject_Z (- (k + 1)) + (1 # 2))%Q).
    { rewrite inject_Z_opp, inject_Z_plus. change (inject_Z 1) with 1%Q. lra. }
    rewrite (py_round_tie _ _ Ex), (py_round_tie _ _ En).
    rewrite Z.even_opp.
    replace (k + 1) with (Z.succ k) by lia. rewrite Z.even_succ.
    rewrite <- Z.negb_even. destruct (Z.even k); simpl; lia.
  - rewrite (py_round_unique x k) by lra.
    apply py_round_unique; rewrite inject_Z_opp; lra.
  - rewrite (py_round_unique x (k + 1))
      by (rewrite inject_Z_plus; change (inject_Z 1) with 1%Q; lra).
    apply py_round_unique; rewrite inject_Z_opp, inject_Z_plus;
      change (inject_Z 1) with 1%Q; lra.
Qed.

Lemma ulp_exp_opp (x : Q) : ~ (x == 0)%Q -> ulp_exp (- x) = ulp_exp x.
Proof.
  intros Hz. unfold ulp_exp. f_equal. f_equal.
  apply ilog2_comp.
  - apply Qabs_nonzero_pos. intros E. apply Hz. lra.
  - apply Qabs_opp.
Qed.

Lemma rnd64_opp (x : Q) : (rnd64 (- x) == - rnd64 x)%Q.
Proof.
  unfold rnd64.
  destruct (Qeq_bool x 0) eqn:Hz.
  - apply Qeq_bool_iff in Hz.
    assert (Hz' : Qeq_bool (- x) 0 = true) by (apply Qeq_bool_iff; lra).
    rewrite Hz'. reflexivity.
  - apply Qeq_bool_neq in Hz.
    assert (Hz' : Qeq_bool (- x) 0 = false).
    { destruct (Qeq_bool (- x) 0) eqn:E; [| reflexivity].
      apply Qeq_bool_iff in E. exfalso. apply Hz. lra. }
    rewrite Hz', (ulp_exp_opp x Hz).
    assert (E : (- x / pow2 (ulp_exp x) == - (x / pow2 (ulp_exp x)))%Q).
    { unfold Qdiv. ring. }
    rewrite (py_round_comp _ _ E), py_round_opp, inject_Z_opp. ring.
Qed.

Lemma ilog2_le (y : Q) (n : Z) :
  (0 < y)%Q -> (y <= pow2 n)%Q -> ilog2 y <= n.
Proof.
  intros Hy Hn. apply pow2_le_inv.
  apply Qle_trans with y; [apply ilog2_lower, Hy | exact Hn].
Qed.

(** A power of two that is no subnormal bounds the rounded value of what it
    bounds. *)
Lemma rnd64_le_pow2 (y : Q) (n : Z) :
  (0 <= y)%Q -> (y <= pow2 n)%Q -> -1074 <= n -> (rnd64 y <= pow2 n)%Q.
Proof.
  intros Hy Hn Hmin. unfold rnd64.
  destruct (Qeq_bool y 0) eqn:Hz; [apply Qlt_le_weak, pow2_pos |].
  apply Qeq_bool_neq in Hz.
  assert (Hy' : (0 < y)%Q).
  { destruct (Qlt_le_dec 0 y) as [? | G]; [assumption |].
    exfalso. apply Hz. lra. }
  assert (He : ulp_exp y <= n).
  { unfold ulp_exp.
    assert (ilog2 (Qabs y) <= n).
    { apply ilog2_le; rewrite Qabs_pos by lra; assumption. }
    lia. }
  set (e := ulp_exp y) in *.
  pose proof (pow2_pos e) as Hp.
  assert (HK : (pow2 n == inject_Z (2 ^ (n - e)) * pow2 e)%Q).
  { rewrite <- pow2_Z by lia. rewrite <- pow2_plus.
    replace (n - e + e) with n by lia. reflexivity. }
  rewrite HK. apply Qmult_le_compat_r; [| lra].
  rewrite <- Zle_Qle. apply py_round_le.
  apply Qle_shift_div_r; [exact Hp |]. rewrite <- HK. exact Hn.
Qed.

Lemma rnd64_abs_le_pow2 (y : Q) (n : Z) :
  (Qabs y <= pow2 n)%Q -> -1074 <= n -> (Qabs (rnd64 y) <= pow2 n)%Q.
Proof.
  intros Hn Hmin. destruct (Qlt_le_dec y 0) as [L | G].
  - rewrite Qabs_neg in Hn by lra.
    assert (H0 : (0 <= - y)%Q) by lra.
    pose proof (rnd64_le_pow2 (- y) n H0 Hn Hmin) as Hr.
    pose proof (rnd64_nonneg (- y) H0) as Hr0.
    rewrite rnd64_opp in Hr, Hr0.
    rewrite Qabs_neg by lra. exact Hr.
  - rewrite Qabs_pos in Hn by exact G.
    rewrite Qabs_pos by (apply rnd64_nonneg, G).
    apply rnd64_le_pow2; assumption.
Qed.

Lemma overflows_false (r : Q) (n : Z) :
  (Qabs r <= pow2 n)%Q -> n < 1024 -> overflows r = false.
Proof.
  intros Hr Hn. unfold overflows.
  destruct (Qle_bool (pow2 1024) (Qabs r)) eqn:E; [| reflexivity].
  apply Qle_bool_iff in E. exfalso.
  assert (H : (pow2 1024 <= pow2 n)%Q) by lra.
  apply pow2_le_inv in H. lia.
Qed.

Lemma to_pyfloat_Fin (r : Q) (n : Z) :
  (Qabs r <= pow2 n)%Q -> n < 1024 -> to_pyfloat r = Fin r.
Proof.
  intros Hr Hn. unfold to_pyfloat. rewrite (overflows_false r n Hr Hn).
  reflexivity.
Qed.

(** ** [pct] in binary64 arithmetic *)

Lemma pow2_53 : (pow2 53 == inject_Z (2 ^ 53))%Q.
Proof. apply pow2_Z. lia. Qed.

Lemma float_of_int_small (k : Z) :
  0 <= k <= 2 ^ 53 ->
  exists kf, float_of_int k = Ok kf /\ (kf == inject_Z k)%Q.
Proof.
  intros Hk. unfold float_of_int. cbv zeta.
  pose proof (rnd64_int k Hk) as E.
  assert (Hov : overflows (rnd64 (inject_Z k)) = false).
  { apply (overflows_false _ 53); [| lia].
    rewrite E, pow2_53. rewrite Qabs_pos by (rewrite <- (Zle_Qle 0); lia).
    rewrite <- Zle_Qle. lia. }
  rewrite Hov. eexists. split; [reflexivity | exact E].
Qed.

Lemma nearest_rank_index64_range (n : nat) (q : pyfloat) :
  (0 < n)%nat -> Z.of_nat n <= 2 ^ 53 ->
  0 <= nearest_rank_index64 n q < Z.of_nat n.
Proof.
  intros Hn Hb. unfold nearest_rank_index64.
  pose proof (clamp01_range q) as [H0 H1].
  assert (Hm : (0 <= inject_Z (Z.of_nat n - 1))%Q)
    by (rewrite <- (Zle_Qle 0); lia).
  pose proof (Qmult_le_0_compat _ _ H0 Hm) as Hp0.
  pose proof (Qmult_le_compat_r _ _ _ H1 Hm) as Hp1.
  rewrite Qmult_1_l in Hp1.
  split.
  - apply py_round_ge.
    pose proof (rnd64_nonneg _ Hp0). change (inject_Z 0) with 0%Q. lra.
  - assert (py_round (rnd64 (clamp01 q * inject_Z (Z.of_nat n - 1))%Q)
            <= Z.of_nat n - 1); [| lia].
    apply py_round_le. apply rnd64_le_int; [exact Hp0 | exact Hp1 | lia].
Qed.

Lemma fmul_int64_clamped (c : Q) (q : pyfloat) (n : nat) :
  (c == clamp01 q)%Q -> (0 < n)%nat -> Z.of_nat n <= 2 ^ 53 ->
  fmul_int64 (Fin c) (Z.of_nat n - 1) =
  Ok (Fin (rnd64 (clamp01 q * inject_Z (Z.of_nat n - 1))%Q)).
Proof.
  intros Hc Hn Hb.
  destruct (float_of_int_small (Z.of_nat n - 1)) as [kf [Hk Ek]]; [lia |].
  unfold fmul_int64. rewrite Hk. cbn [bind]. f_equal.
  assert (E : (c * kf == clamp01 q * inject_Z (Z.of_nat n - 1))%Q)
    by (rewrite Hc, Ek; reflexivity).
  rewrite (rnd64_comp _ _ E).
  pose proof (clamp01_range q) as [H0 H1].
  assert (Hm : (0 <= inject_Z (Z.of_nat n - 1))%Q)
    by (rewrite <- (Zle_Qle 0); lia).
  pose proof (Qmult_le_0_compat _ _ H0 Hm) as Hp0.
  pose proof (Qmult_le_compat_r _ _ _ H1 Hm) as Hp1.
  rewrite Qmult_1_l in Hp1.
  apply (to_pyfloat_Fin _ 53); [| lia].
  rewrite Qabs_pos by (apply rnd64_nonneg, Hp0).
  rewrite pow2_53.
  apply rnd64_le_int; [exact Hp0 | | lia].
  apply Qle_trans with (inject_Z (Z.of_nat n - 1)); [exact Hp1 |].
  rewrite <- Zle_Qle. lia.
Qed.

Lemma pct64_nonempty (values : list Q) (q : pyfloat) :
  values <> [] -> Z.of_nat (length values) <= 2 ^ 53 ->
  pct64 values q =
  Ok (nth (Z.to_nat (nearest_rank_index64 (length values) q))
          (sorted values) 0%Q).
Proof.
  intros Hne Hb. destruct values as [| v l]; [congruence |].
  unfold pct64.
  destruct (clamp_spec q) as [c [-> Hc]].
  rewrite sorted_length.
  set (n := length (v :: l)) in *.
  assert (Hn : (0 < n)%nat) by (unfold n; simpl; lia).
  rewrite (fmul_int64_clamped c q n Hc Hn Hb).
  cbn [bind py_round_f].
  fold (nearest_rank_index64 n q).
  apply py_getitem_ok. rewrite sorted_length.
  apply nearest_rank_index64_range; assumption.
Qed.

Lemma pct64_member (values : list Q) (q : pyfloat) :
  values <> [] -> Z.of_nat (length values) <= 2 ^ 53 ->
  exists v, pct64 values q = Ok v /\ In v values.
Proof.
  intros Hne Hb. rewrite (pct64_nonempty _ q Hne Hb).
  eexists. split; [reflexivity |].
  apply sorted_In, nth_In. rewrite sorted_length.
  assert (Hn : (0 < length values)%nat)
    by (destruct values; [congruence | simpl; lia]).
  pose proof (nearest_rank_index64_range (length values) q Hn Hb). lia.
Qed.

(** ** [statistics.median] and [stats_bucket] in binary64 arithmetic *)

Lemma pow2_succ (n : Z) : (pow2 (n + 1) == 2 * pow2 n)%Q.
Proof. rewrite pow2_plus. rewrite Qmult_comm. reflexivity. Qed.

Lemma fadd64_bounded (a b : Q) (n : Z) :
  (Qabs a <= pow2 n)%Q -> (Qabs b <= pow2 n)%Q -> -1074 <= n -> n + 1 < 1024 ->
  fadd64 a b = Fin (rnd64 (a + b)) /\
  (Qabs (rnd64 (a + b)) <= pow2 (n + 1))%Q.
Proof.
  intros Ha Hb Hmin Hmax.
  assert (Hs : (Qabs (rnd64 (a + b)) <= pow2 (n + 1))%Q).
  { apply rnd64_abs_le_pow2; [| lia].
    pose proof (Qabs_triangle a b). rewrite pow2_succ. lra. }
  split; [| exact Hs].
  unfold fadd64. apply (to_pyfloat_Fin _ (n + 1)); assumption.
Qed.

Lemma fhalf64_bounded (s : Q) (n : Z) :
  (Qabs s <= pow2 (n + 1))%Q -> -1074 <= n -> n < 1024 ->
  fhalf64 (Fin s) = Fin (rnd64 (s / 2)) /\
  (Qabs (rnd64 (s / 2)) <= pow2 n)%Q.
Proof.
  intros Hs Hmin Hmax.
  assert (Hh : (Qabs (rnd64 (s / 2)) <= pow2 n)%Q).
  { apply rnd64_abs_le_pow2; [| exact Hmin].
    rewrite pow2_succ in Hs.
    apply Qabs_Qle_condition in Hs. apply Qabs_Qle_condition.
    assert (E : (s / 2 == s * (1 # 2))%Q) by (unfold Qdiv; reflexivity).
    rewrite E. lra. }
  split; [| exact Hh].
  unfold fhalf64. apply (to_pyfloat_Fin _ n); assumption.
Qed.

Lemma median64_nonempty (values : list Q) :
  values <> [] ->
  (forall v, In v values -> (Qabs v <= pow2 1022)%Q) ->
  median64 values = Ok (Fin (median64_of (sorted values))).
Proof.
  intros Hne Hb. unfold median64, median64_of. cbv zeta.
  assert (Hbs : forall v, In v (sorted values) -> (Qabs v <= pow2 1022)%Q)
    by (intros v Hv; apply Hb, sorted_In, Hv).
  set (s := sorted values) in *.
  assert (Hn : 0 < Z.of_nat (length s)).
  { unfold s. rewrite sorted_length. destruct values; [congruence | simpl; lia]. }
  remember (Z.of_nat (length s)) as n eqn:Hlen.
  destruct (n =? 0) eqn:E0; [apply Z.eqb_eq in E0; lia |].
  destruct (n mod 2 =? 1) eqn:E1.
  - rewrite (py_getitem_ok s (n / 2) 0%Q); [reflexivity |].
    rewrite <- Hlen. split; [apply Z.div_pos; lia | apply Z.div_lt; lia].
  - apply Z.eqb_neq in E1.
    assert (Hev : n mod 2 = 0) by (pose proof (Z.mod_pos_bound n 2); lia).
    assert (Hdiv : n = 2 * (n / 2)) by (pose proof (Z.div_mod n 2); lia).
    rewrite (py_getitem_ok s (n / 2 - 1) 0%Q) by lia.
    rewrite (py_getitem_ok s (n / 2) 0%Q) by lia.
    cbn [bind].
    set (a := nth (Z.to_nat (n / 2 - 1)) s 0%Q).
    set (b := nth (Z.to_nat (n / 2)) s 0%Q).
    assert (Ha : (Qabs a <= pow2 1022)%Q) by (apply Hbs, nth_In; lia).
    assert (Hb' : (Qabs b <= pow2 1022)%Q) by (apply Hbs, nth_In; lia).
    destruct (fadd64_bounded a b 1022 Ha Hb' ltac:(lia) ltac:(lia)) as [-> Hs].
    destruct (fhalf64_bounded (rnd64 (a + b)) 1022 Hs ltac:(lia) ltac:(lia))
      as [-> _].
    reflexivity.
Qed.

Lemma round_ndigits64_4dp (x : Q) : rounded_4dp64 x (round_ndigits64 x 4).
Proof.
  destruct (round_ndigits_4dp x) as (k & E & Hk).
  exists k. unfold round_ndigits64. rewrite E in *. split; [reflexivity | exact Hk].
Qed.

Lemma stats_bucket64_eq (x : Q) (l : list Q) :
  let V := x :: l in
  Z.of_nat (length V) <= 2 ^ 53 ->
  (forall v, In v V -> (Qabs v <= pow2 1022)%Q) ->
  stats_bucket64 V =
  Ok {| Bucket64.p50 := Fin (round_ndigits64 (median64_of (sorted V)) 4);
        Bucket64.p95 :=
          Fin (round_ndigits64
                 (nth (Z.to_nat (nearest_rank_index64 (length V)
                                   (Fin double_0_95)))
                      (sorted V) 0%Q) 4);
        Bucket64.min := Fin (round_ndigits64 (min_from x l) 4);
        Bucket64.max := Fin (round_ndigits64 (max_from x l) 4);
        Bucket64.count := Z.of_nat (length V) |}.
Proof.
  intros V Hlen Hb. unfold stats_bucket64, V.
  rewrite median64_nonempty by (try discriminate; exact Hb).
  rewrite (pct64_nonempty (x :: l) (Fin double_0_95))
    by (try discriminate; exact Hlen).
  reflexivity.
Qed.

(** The values gathered during a run are conversions of accepted amounts:
    doubles between 0 and 2^256, far below the bound asked of the
    collections. *)
Lemma from_wei_gwei64_range (w : Z) (d : Q) :
  from_wei_gwei64 w = Ok d ->
  (0 <= d)%Q /\ (Qabs d <= pow2 256)%Q /\ (Qabs d <= pow2 1022)%Q.
Proof.
  unfold from_wei_gwei64. destruct (wei_ok w) eqn:Hw; [| discriminate].
  intros [= <-]. unfold wei_ok in Hw.
  apply andb_true_iff in Hw. destruct Hw as [H0 H1].
  apply Z.leb_le in H0. apply Z.ltb_lt in H1.
  assert (Hq0 : (0 <= from_wei_gwei w)%Q)
    by (unfold from_wei_gwei, Qle; simpl; lia).
  assert (Hq1 : (from_wei_gwei w <= pow2 256)%Q).
  { rewrite pow2_Z by lia. unfold from_wei_gwei, Qle. simpl. lia. }
  assert (Hr : (Qabs (rnd64 (from_wei_gwei w)) <= pow2 256)%Q).
  { apply rnd64_abs_le_pow2; [| lia]. rewrite Qabs_pos by exact Hq0. exact Hq1. }
  split; [apply rnd64_nonneg, Hq0 |]. split; [exact Hr |].
  apply Qle_trans with (pow2 256); [exact Hr | apply pow2_le; lia].
Qed.

(** The floating-point product decides the index: for the double nearest
    to 0.1 and six values the product is exactly 0.5, which rounds to 0,
    while the exact product lies above 0.5; for 0.7 and 46 values the
    product is 31.499999999999996; for 0.95 and 11 values it is exactly
    9.5, a tie that goes to the even index 10, while the exact product lies
    below 9.5; and 28.5 goes to 28. *)
Example pct64_binary_product :
  pct64 (floats_upto 6) (Fin (rnd64 (1 # 10))) = Ok 0%Q /\
  pct (floats_upto 6) (Fin (rnd64 (1 # 10))) = Ok 1%Q /\
  pct64 (floats_upto 46) (Fin (rnd64 (7 # 10))) = Ok 31%Q /\
  pct64 (floats_upto 11) (Fin double_0_95) = Ok 10%Q /\
  pct (floats_upto 11) (Fin double_0_95) = Ok 9%Q /\
  pct64 (floats_upto 31) (Fin double_0_95) = Ok 28%Q.
Proof. repeat split; vm_compute; reflexivity. Qed.

(** The mean of the two middle values is rounded twice, after the addition
    and after the halving: the median of 105.877785627 and 92.196314373 is
    the double just below 99.03705, shown as 99.037, where the exact mean
    gives 99.0371.  A base fee of 150000 wei is the double just below
    0.00015 Gwei, shown as 0.0001. *)
Example stats_bucket64_binary_mean :
  stats_bucket64 demo_values =
    Ok {| Bucket64.p50 := Fin (rnd64 (990370 # 10000));
          Bucket64.p95 := Fin (rnd64 (1058778 # 10000));
          Bucket64.min := Fin (rnd64 (921963 # 10000));
          Bucket64.max := Fin (rnd64 (1058778 # 10000));
          Bucket64.count := 2 |} /\
  (exists b, stats_bucket demo_values = Ok b /\ p50 b = (990371 # 10000)%Q) /\
  (exists d b, from_wei_gwei64 150000 = Ok d /\
               stats_bucket64 [d] = Ok b /\
               Bucket64.p50 b = Fin (rnd64 (1 # 10000))) /\
  (exists b, stats_bucket [from_wei_gwei 150000] = Ok b /\
             p50 b = (2 # 10000)%Q).
Proof.
  split; [vm_compute; reflexivity |].
  split; [eexists; split; vm_compute; reflexivity |].
  split; [do 2 eexists; repeat split; vm_compute; reflexivity |].
  eexists; split; vm_compute; reflexivity.
Qed.

(** * The claims *)

(** C1.  For a block with base fee [baseFeeWei], [sample_block_fees] returns,
    in transaction order, the Gwei value of [effective_wei] for every
    transaction as the effective-price list and the Gwei value of [tip_wei]
    as the tip list: [min(maxFeePerGas, baseFeeWei + maxPriorityFeePerGas)]
    and [maxPriorityFeePerGas] for a type-2 transaction, [gasPrice] and
    [max(0, gasPrice - baseFeeWei)] otherwise.  The Gwei value is the wei
    amount divided by 10^9, and the sampling loop appends the two lists of
    every visited block, taken at that block's base fee, to the two
    collections. *)
Theorem sample_block_fees_derivation (block : Block) (baseFeeWei : Z) :
  sample_block_fees block baseFeeWei =
    (map (fun tx => from_wei_gwei (effective_wei baseFeeWei tx))
         (transactions block),
     map (fun tx => from_wei_gwei (tip_wei baseFeeWei tx))
         (transactions block)) /\
  (forall w : Z, (from_wei_gwei w == wei_to_gwei w)%Q) /\
  (forall (w3 : Web3) (st : Samples) (n : Z),
      sample_block w3 st n =
      blk <- get_block w3 n true ;;
      Ok {| basefees := basefees st ++ [from_wei_gwei (block_base_fee blk)];
            eff_prices := eff_prices st ++
              map (fun tx => from_wei_gwei (effective_wei (block_base_fee blk) tx))
                  (transactions blk);
            tips := tips st ++
              map (fun tx => from_wei_gwei (tip_wei (block_base_fee blk) tx))
                  (transactions blk);
            sampled_blocks := sampled_blocks st + 1 |}).
Proof.
  split; [apply sample_block_fees_eq |].
  split; [apply wei_to_gwei_eq |].
  intros w3 st n. apply sample_block_eq.
Qed.

(** C2.  For a non-empty list [V] (of fewer than 2^53 + 1 elements, which
    every list in memory is) and any [q], [pct] clamps [q] to [0,1], sorts
    [V] into ascending order (a permutation of [V]) and returns the element
    at index [round(q * (|V| - 1))] of the sorted list, the product being
    the floating-point product of line 70; the value returned is a member
    of [V]. *)
Theorem pct64_nearest_rank (V : list float) (q : pyfloat) :
  V <> [] -> Z.of_nat (length V) <= 2 ^ 53 ->
  (exists c, fmax2 (Fin 0%Q) (fmin2 (Fin 1%Q) q) = Fin c /\
             (c == clamp01 q)%Q /\ (0 <= c <= 1)%Q) /\
  StronglySorted Qle (sorted V) /\
  Permutation (sorted V) V /\
  0 <= nearest_rank_index64 (length V) q < Z.of_nat (length V) /\
  pct64 V q =
    Ok (nth (Z.to_nat (nearest_rank_index64 (length V) q)) (sorted V) 0%Q) /\
  exists v, pct64 V q = Ok v /\ In v V.
Proof.
  intros Hne Hb.
  assert (Hn : (0 < length V)%nat) by (destruct V; [congruence | simpl; lia]).
  split; [| split; [| split; [| split; [| split]]]].
  - destruct (clamp_spec q) as [c [Hc Hq]]. exists c.
    pose proof (clamp01_range q). repeat split; [exact Hc | exact Hq | lra | lra].
  - apply sorted_strongly.
  - apply sorted_perm.
  - apply nearest_rank_index64_range; assumption.
  - apply pct64_nonempty; assumption.
  - apply pct64_member; assumption.
Qed.

Lemma pct64_nearest_rank_witness :
  floats_upto 6 <> [] /\ Z.of_nat (length (floats_upto 6)) <= 2 ^ 53 /\
  nearest_rank_index64 6 (Fin (rnd64 (1 # 10))) = 0 /\
  pct64 (floats_upto 6) (Fin (rnd64 (1 # 10))) = Ok 0%Q.
Proof.
  assert (H : floats_upto 6 <> []) by discriminate.
  assert (Hb : Z.of_nat (length (floats_upto 6)) <= 2 ^ 53)
    by (vm_compute; discriminate).
  split; [exact H |]. split; [exact Hb |]. split; [vm_compute; reflexivity |].
  destruct (pct64_nearest_rank (floats_upto 6) (Fin (rnd64 (1 # 10))) H Hb)
    as (_ & _ & _ & _ & E & _).
  rewrite E. vm_compute. reflexivity.
Defined.

(** C3.  For a resolved [head >= 0] (the override, or else the latest
    block number) and positive [blocks] and [step], the loop of
    [analyze_fees] runs over [walk head startBlock step] with
    [startBlock = max(0, head - blocks + 1)]: the numbers [head],
    [head - step], ... that are at least [startBlock],
    [ceil((head - startBlock + 1) / step)] of them; a run that returns
    reports [headBlock = head], [oldestBlock = startBlock] and
    [sampledBlocks] equal to the number of these blocks, and the run returns
    whenever the fetches of the walk and the chain id succeed.  With
    [blocks = 1] and [step = 1] the walk is [head] alone and
    [startBlock = head]. *)
Theorem walk_visits (w3 : Web3) (t0 t1 : float) (head blocks step : Z)
  (head_override : option Z) :
  resolve_head w3 head_override = Ok head ->
  0 <= head -> 0 < blocks -> 0 < step ->
  let startBlock := Z.max 0 (head - blocks + 1) in
  let visited := walk head startBlock step in
  py_range head (startBlock - 1) (- step) = Ok visited /\
  (forall n, In n visited ->
     startBlock <= n <= head /\ exists i : nat, n = head - Z.of_nat i * step) /\
  Z.of_nat (length visited) = ceil_div (head - startBlock + 1) step /\
  Z.of_nat (length visited) <= ceil_div (head - startBlock + 1) step /\
  (forall r, analyze_fees w3 t0 t1 blocks step head_override = Ok r ->
     headBlock r = head /\ oldestBlock r = startBlock /\
     sampledBlocks r = Z.of_nat (length visited)) /\
  ((forall n, In n visited -> exists blk, get_block w3 n true = Ok blk) ->
   (exists cid, chain_id w3 = Ok cid) ->
   exists r, analyze_fees w3 t0 t1 blocks step head_override = Ok r) /\
  (blocks = 1 -> step = 1 ->
   visited = [head] /\ startBlock = head /\
   forall r, analyze_fees w3 t0 t1 blocks step head_override = Ok r ->
     headBlock r = head /\ oldestBlock r = head /\ sampledBlocks r = 1).
Proof.
  intros Hres Hh Hb Hs startBlock visited.
  assert (Hstart : startBlock <= head) by (unfold startBlock; lia).
  assert (Hrange : py_range head (startBlock - 1) (- step) = Ok visited)
    by (apply py_range_walk, Hs).
  assert (Hlen : Z.of_nat (length visited) =
                 ceil_div (head - startBlock + 1) step)
    by (apply walk_length; assumption).
  assert (Hinv : forall r,
             analyze_fees w3 t0 t1 blocks step head_override = Ok r ->
             headBlock r = head /\ oldestBlock r = startBlock /\
             sampledBlocks r = Z.of_nat (length visited)).
  { intros r Hr. apply analyze_fees_ok_inv in Hr.
    destruct Hr as (h & ns & blks & cid & Hh' & Hns & Hf & _ & ->).
    rewrite Hres in Hh'. injection Hh' as <-.
    fold startBlock in Hns. rewrite Hrange in Hns. injection Hns as <-.
    simpl. repeat split.
    destruct (collect_counts blks) as (-> & _ & _).
    rewrite (fetch_all_length _ _ _ Hf). reflexivity. }
  repeat split.
  - exact Hrange.
  - apply (walk_In head startBlock step n Hs H).
  - apply (walk_In head startBlock step n Hs H).
  - apply (walk_In head startBlock step n Hs H).
  - exact Hlen.
  - lia.
  - apply (Hinv r H).
  - apply (Hinv r H).
  - apply (Hinv r H).
  - intros Hall [cid Hcid]. rewrite analyze_fees_eq, Hres. simpl.
    fold startBlock. rewrite Hrange. simpl.
    destruct (fetch_all_ok w3 visited Hall) as [blks ->]. simpl.
    rewrite Hcid. simpl. eexists. reflexivity.
  - unfold visited. replace startBlock with head by (unfold startBlock; lia).
    subst step. apply walk_single.
  - unfold startBlock. lia.
  - apply (Hinv r H1).
  - destruct (Hinv r H1) as (_ & -> & _). unfold startBlock. lia.
  - destruct (Hinv r H1) as (_ & _ & ->). unfold visited.
    replace startBlock with head by (unfold startBlock; lia).
    subst step. rewrite walk_single. reflexivity.
Qed.

Lemma walk_visits_witness :
  0 <= 10 /\ 0 < 5 /\ 0 < 2 /\
  py_range 10 (Z.max 0 (10 - 5 + 1) - 1) (- (2)) = Ok [10; 8; 6] /\
  exists r, analyze_fees demo_w3 0 1 5 2 (Some 10) = Ok r /\
            sampledBlocks r = 3.
Proof.
  assert (H0 : 0 <= 10) by lia.
  assert (H1 : 0 < 5) by lia.
  assert (H2 : 0 < 2) by lia.
  repeat (split; [assumption |]).
  destruct (walk_visits demo_w3 0 1 10 5 2 (Some 10) eq_refl H0 H1 H2)
    as (Hr & _ & _ & _ & Hinv & Hok & _).
  split; [exact Hr |].
  destruct Hok as [r Hrun].
  - intros n _. exists demo_block. reflexivity.
  - exists 1. reflexivity.
  - exists r. split; [exact Hrun |].
    destruct (Hinv r Hrun) as (_ & _ & ->). reflexivity.
Defined.

(** C4.  [stats_bucket] of the empty collection is the all-zero bucket; for
    a non-empty collection [V] of doubles (none beyond 2^1022 in size, fewer
    than 2^53 + 1 of them) it holds the median of [V] (the middle element of
    the sorted list, or the floating-point mean of the two middle ones),
    [pct V 0.95], the least and the greatest element of [V], each rounded to
    4 decimal places, and the number of elements of [V]. *)
Theorem stats_bucket64_fields (V : list float) :
  Z.of_nat (length V) <= 2 ^ 53 ->
  (forall v, In v V -> (Qabs v <= pow2 1022)%Q) ->
  (V = [] -> stats_bucket64 V = Ok empty_bucket64) /\
  (V <> [] ->
   exists m p lo hi : float,
     median64 V = Ok (Fin m) /\ m = median64_of (sorted V) /\
     pct64 V (Fin double_0_95) = Ok p /\
     p = nth (Z.to_nat (nearest_rank_index64 (length V) (Fin double_0_95)))
             (sorted V) 0%Q /\
     py_min V = Ok lo /\ In lo V /\ (forall y, In y V -> (lo <= y)%Q) /\
     py_max V = Ok hi /\ In hi V /\ (forall y, In y V -> (y <= hi)%Q) /\
     stats_bucket64 V =
       Ok {| Bucket64.p50 := Fin (round_ndigits64 m 4);
             Bucket64.p95 := Fin (round_ndigits64 p 4);
             Bucket64.min := Fin (round_ndigits64 lo 4);
             Bucket64.max := Fin (round_ndigits64 hi 4);
             Bucket64.count := Z.of_nat (length V) |} /\
     rounded_4dp64 m (round_ndigits64 m 4) /\
     rounded_4dp64 p (round_ndigits64 p 4) /\
     rounded_4dp64 lo (round_ndigits64 lo 4) /\
     rounded_4dp64 hi (round_ndigits64 hi 4)).
Proof.
  intros Hlen Hb. split; [intros ->; reflexivity |].
  intros Hne. destruct V as [| x l]; [congruence |].
  set (V := x :: l) in *.
  exists (median64_of (sorted V)),
    (nth (Z.to_nat (nearest_rank_index64 (length V) (Fin double_0_95)))
         (sorted V) 0%Q),
    (min_from x l), (max_from x l).
  destruct (min_from_spec l x) as [Hmin1 Hmin2].
  destruct (max_from_spec l x) as [Hmax1 Hmax2].
  repeat split; try apply round_ndigits64_4dp; try assumption.
  - apply median64_nonempty; assumption.
  - apply pct64_nonempty; assumption.
  - apply stats_bucket64_eq; assumption.
Qed.

Lemma stats_bucket64_fields_witness :
  Z.of_nat (length demo_values) <= 2 ^ 53 /\
  (forall v, In v demo_values -> (Qabs v <= pow2 1022)%Q) /\
  exists m p lo hi : float,
    stats_bucket64 demo_values =
      Ok {| Bucket64.p50 := Fin (round_ndigits64 m 4);
            Bucket64.p95 := Fin (round_ndigits64 p 4);
            Bucket64.min := Fin (round_ndigits64 lo 4);
            Bucket64.max := Fin (round_ndigits64 hi 4);
            Bucket64.count := 2 |} /\
    round_ndigits64 m 4 = rnd64 (990370 # 10000).
Proof.
  assert (Hlen : Z.of_nat (length demo_values) <= 2 ^ 53)
    by (vm_compute; discriminate).
  assert (Hb : forall v, In v demo_values -> (Qabs v <= pow2 1022)%Q)
    by (intros v [<- | [<- | []]]; vm_compute; discriminate).
  split; [exact Hlen |]. split; [exact Hb |].
  destruct (stats_bucket64_fields demo_values Hlen Hb) as [_ H].
  destruct H as (m & p & lo & hi & _ & Hm & _ & _ & _ & _ & _ & _ & _ & _ &
                 E & _); [discriminate |].
  exists m, p, lo, hi. split; [exact E |].
  rewrite Hm. vm_compute. reflexivity.
Defined.

(** C5.  The bucket of any collection [V] has [count = |V|], and its four
    rounded fields satisfy [min <= p50 <= p95 <= max]. *)
Theorem stats_bucket_order (V : list float) :
  exists b : StatBucket,
    stats_bucket V = Ok b /\
    count b = Z.of_nat (length V) /\
    (b_min b <= p50 b)%Q /\ (p50 b <= p95 b)%Q /\ (p95 b <= b_max b)%Q.
Proof.
  exists (bucket_of V). split; [apply stats_bucket_eq |].
  split; [apply bucket_of_count |].
  destruct V as [| x l]; [simpl; repeat split; lra |].
  set (V := x :: l).
  assert (Hne : V <> []) by discriminate.
  assert (Hs : sorted V <> []).
  { intros E. apply (f_equal (@length Q)) in E.
    rewrite sorted_length in E. discriminate. }
  pose proof (sorted_strongly V) as S.
  destruct (median_of_bounds (sorted V) Hs S) as [Hm1 Hm2].
  destruct (min_from_spec l x) as [_ Hmin].
  destruct (max_from_spec l x) as [_ Hmax].
  pose proof (nearest_rank_index_range (length V) (Fin (95 # 100))) as Hr.
  pose proof (p95_index_above_median (length V)) as Hp.
  rewrite sorted_length in Hm2.
  assert (Hlen : (0 < length V)%nat) by (simpl; lia).
  specialize (Hr Hlen). specialize (Hp Hlen).
  unfold bucket_of, V. fold V. cbn [b_min p50 p95 b_max].
  repeat split; apply round_ndigits_mono.
  - apply Qle_trans with (nth 0 (sorted V) 0%Q); [| exact Hm1].
    apply Hmin. apply sorted_In. apply nth_In. rewrite sorted_length. exact Hlen.
  - apply Qle_trans with (nth (Z.to_nat (Z.of_nat (length V) / 2)) (sorted V) 0%Q);
      [exact Hm2 |].
    unfold nearest_rank. apply strongly_sorted_nth; [exact S |].
    rewrite sorted_length. lia.
  - apply Hmax. apply sorted_In. unfold nearest_rank. apply nth_In.
    rewrite sorted_length. unfold V in *. lia.
Qed.

(** C6, as amended.  When the fetch of a block of the walk fails after the
    fetches of all earlier blocks of the walk succeeded, [analyze_fees]
    raises exactly the exception of that fetch; it returns no result. *)
Theorem fetch_failure_aborts (w3 : Web3) (t0 t1 : float)
  (blocks step head : Z) (head_override : option Z)
  (pre post : list Z) (n : Z) (e : exn) :
  resolve_head w3 head_override = Ok head ->
  py_range head (Z.max 0 (head - blocks + 1) - 1) (- step)
    = Ok (pre ++ n :: post) ->
  (forall m, In m pre -> exists blk, get_block w3 m true = Ok blk) ->
  get_block w3 n true = Raise e ->
  analyze_fees w3 t0 t1 blocks step head_override = Raise e /\
  forall r, analyze_fees w3 t0 t1 blocks step head_override <> Ok r.
Proof.
  intros Hres Hrange Hpre Hn.
  assert (E : analyze_fees w3 t0 t1 blocks step head_override = Raise e).
  { rewrite analyze_fees_eq, Hres. simpl. rewrite Hrange. simpl.
    rewrite (fetch_all_fails w3 pre post n e Hpre Hn). reflexivity. }
  split; [exact E |]. intros r. rewrite E. discriminate.
Qed.

Lemma fetch_failure_aborts_witness :
  analyze_fees (timeout_at 9) 0 1 2 1 (Some 10) = Raise (RpcError "timeout").
Proof.
  apply (fetch_failure_aborts (timeout_at 9) 0 1 2 1 10 (Some 10) [10] [] 9
           (RpcError "timeout")).
  - reflexivity.
  - reflexivity.
  - intros m [<- | []]. exists demo_block. reflexivity.
  - reflexivity.
Defined.

(** C6, as stated, does not hold: no reading of the raised value gives the
    number of the failed block, since fetches failing at different blocks
    abort the run with the same exception. *)
Lemma fetch_error_names_no_block : ~ exists block_of, names_failed_block block_of.
Proof.
  intros [block_of H].
  destruct (H (timeout_at 10) 0%Q 1%Q 2 1 10 [] [9] 10 (RpcError "timeout"))
    as (e1 & E1 & B1).
  - reflexivity.
  - intros m [].
  - reflexivity.
  - destruct (H (timeout_at 9) 0%Q 1%Q 2 1 10 [10] [] 9 (RpcError "timeout"))
      as (e2 & E2 & B2).
    + reflexivity.
    + intros m [<- | []]. exists demo_block. reflexivity.
    + reflexivity.
    + vm_compute in E1. vm_compute in E2.
      injection E1 as <-. injection E2 as <-. lia.
Qed.

(** C7.  Two runs with the same explicit head, block count and step, against
    endpoints that answer the block fetches of the walk identically, return
    the same three StatBuckets (and the same sampled-block count), whatever
    the clock readings and the other answers of the endpoints: when the
    first run returns and the second endpoint delivers its chain id, the
    second run returns too. *)
Theorem profile_deterministic (w3 w3' : Web3) (t0 t1 t0' t1' : float)
  (head blocks step : Z) (r : FeeProfile) :
  0 < step ->
  (forall n, In n (walk head (Z.max 0 (head - blocks + 1)) step) ->
             get_block w3 n true = get_block w3' n true) ->
  analyze_fees w3 t0 t1 blocks step (Some head) = Ok r ->
  (exists cid, chain_id w3' = Ok cid) ->
  exists r',
    analyze_fees w3' t0' t1' blocks step (Some head) = Ok r' /\
    baseFeeGwei r' = baseFeeGwei r /\
    effectivePriceGwei r' = effectivePriceGwei r /\
    tipGweiApprox r' = tipGweiApprox r /\
    sampledBlocks r' = sampledBlocks r.
Proof.
  intros Hs Hagree Hrun [cid' Hcid].
  apply analyze_fees_ok_inv in Hrun.
  destruct Hrun as (h & ns & blks & cid & Hh & Hns & Hf & _ & ->).
  simpl in Hh. injection Hh as <-.
  rewrite py_range_walk in Hns by exact Hs. injection Hns as <-.
  rewrite (fetch_all_ext _ _ _ Hagree) in Hf.
  exists (profile_of w3' t0' t1' blocks step head cid' blks).
  split; [| repeat split].
  rewrite analyze_fees_eq. simpl.
  rewrite py_range_walk by exact Hs. simpl.
  rewrite Hf. simpl. rewrite Hcid. reflexivity.
Qed.

Lemma profile_deterministic_witness :
  exists r r',
    analyze_fees demo_w3 0 1 5 2 (Some 10) = Ok r /\
    analyze_fees (timeout_at 7) (1 # 2) 9 5 2 (Some 10) = Ok r' /\
    baseFeeGwei r' = baseFeeGwei r /\
    effectivePriceGwei r' = effectivePriceGwei r /\
    tipGweiApprox r' = tipGweiApprox r.
Proof.
  assert (Hs : 0 < 2) by lia.
  assert (Hrun : analyze_fees demo_w3 0 1 5 2 (Some 10) =
                 Ok (profile_of demo_w3 0 1 5 2 10 1
                       [demo_block; demo_block; demo_block]))
    by reflexivity.
  assert (Hagree : forall n, In n (walk 10 (Z.max 0 (10 - 5 + 1)) 2) ->
             get_block demo_w3 n true = get_block (timeout_at 7) n true).
  { intros n Hn. simpl in Hn.
    destruct Hn as [<- | [<- | [<- | []]]]; reflexivity. }
  assert (Hcid : exists cid, chain_id (timeout_at 7) = Ok cid)
    by (exists 1; reflexivity).
  destruct (profile_deterministic demo_w3 (timeout_at 7) 0 1 (1 # 2) 9
              10 5 2 _ Hs Hagree Hrun Hcid) as (r' & Hr' & B1 & B2 & B3 & _).
  eexists. exists r'.
  split; [exact Hrun |]. split; [exact Hr' |].
  split; [exact B1 |]. split; [exact B2 | exact B3].
Defined.

(** C8.  In the result of a run that returns, the base-fee bucket counts
    exactly [sampledBlocks] values, and the effective-price bucket and the
    tip bucket count the same number of values. *)
Theorem bucket_counts (w3 : Web3) (t0 t1 : float) (blocks step : Z)
  (head_override : option Z) (r : FeeProfile) :
  analyze_fees w3 t0 t1 blocks step head_override = Ok r ->
  count (baseFeeGwei r) = sampledBlocks r /\
  count (effectivePriceGwei r) = count (tipGweiApprox r).
Proof.
  intros Hrun. apply analyze_fees_ok_inv in Hrun.
  destruct Hrun as (h & ns & blks & cid & _ & _ & _ & _ & ->).
  simpl. rewrite !bucket_of_count.
  destruct (collect_counts blks) as (-> & -> & ->). split; reflexivity.
Qed.

Lemma bucket_counts_witness :
  exists r,
    analyze_fees demo_w3 0 1 5 2 None = Ok r /\
    count (baseFeeGwei r) = 3 /\ sampledBlocks r = 3 /\
    count (effectivePriceGwei r) = 6 /\ count (tipGweiApprox r) = 6.
Proof.
  eexists. split; [reflexivity |].
  destruct (bucket_counts demo_w3 0 1 5 2 None _ eq_refl) as [H1 H2].
  repeat split.
Defined.

(** C9.  [pct] returns a value for every list and every [q]: 0.0 for the
    empty list; for a non-empty list the index it computes lies within the
    bounds of the sorted list, so the indexing does not raise. *)
Theorem pct_total (V : list float) (q : pyfloat) :
  pct [] q = Ok 0%Q /\
  exists v : float,
    pct V q = Ok v /\
    ((V = [] /\ v = 0%Q) \/
     (V <> [] /\
      exists idx : Z,
        py_round_f (fmul_int (fmax2 (Fin 0%Q) (fmin2 (Fin 1%Q) q))
                             (Z.of_nat (length (sorted V)) - 1)) = Ok idx /\
        0 <= idx < Z.of_nat (length (sorted V)) /\
        py_getitem (sorted V) idx = Ok v)).
Proof.
  split; [reflexivity |].
  destruct V as [| x l].
  - exists 0%Q. split; [reflexivity |]. left. split; reflexivity.
  - set (V := x :: l).
    assert (Hne : V <> []) by discriminate.
    exists (nearest_rank V q). split; [apply pct_nonempty, Hne |].
    right. split; [exact Hne |].
    destruct (clamp_spec q) as [c [Hc Hq]].
    exists (nearest_rank_index (length V) q).
    rewrite Hc, sorted_length. cbn [fmul_int py_round_f].
    assert (Hr : 0 <= nearest_rank_index (length V) q < Z.of_nat (length V))
      by (apply nearest_rank_index_range; simpl; lia).
    repeat split; try lia.
    + f_equal. unfold nearest_rank_index. apply py_round_comp.
      rewrite Hq. reflexivity.
    + apply py_getitem_ok. rewrite sorted_length. exact Hr.
Qed.

(** C10.  Under the gateway contract that [maxPriorityFeePerGas] is never
    negative, every value [sample_block_fees] puts in the tip list of a
    fetched block is nonnegative (the priority fee itself for a type-2
    transaction, [max(0, gasPrice - baseFee)] otherwise), and the [min]
    field of the tip bucket of a run that returns is nonnegative. *)
Theorem tips_nonnegative (w3 : Web3) (t0 t1 : float) (blocks step : Z)
  (head_override : option Z) :
  (forall n blk tx, get_block w3 n true = Ok blk ->
                    In tx (transactions blk) -> 0 <= priority_fee_of tx) ->
  (forall bf tx, 0 <= priority_fee_of tx ->
     0 <= tip_wei bf tx /\
     (type_of tx = 2 -> tip_wei bf tx = priority_fee_of tx) /\
     (type_of tx <> 2 -> tip_wei bf tx = Z.max 0 (gas_price_of tx - bf))) /\
  (forall n blk bf, get_block w3 n true = Ok blk ->
     Forall (fun t => 0 <= t)%Q (snd (sample_block_fees blk bf))) /\
  (forall r, analyze_fees w3 t0 t1 blocks step head_override = Ok r ->
     (0 <= b_min (tipGweiApprox r))%Q).
Proof.
  intros Hgw. split; [| split].
  - intros bf tx Htx. split; [apply tip_wei_nonneg, Htx |].
    unfold tip_wei. split; intros Ht.
    + rewrite Ht. reflexivity.
    + apply Z.eqb_neq in Ht. rewrite Ht. reflexivity.
  - intros n blk bf Hblk. rewrite sample_block_fees_eq. simpl.
    apply Forall_forall. intros t Ht. apply in_map_iff in Ht.
    destruct Ht as (tx & <- & Htx).
    apply from_wei_gwei_nonneg, tip_wei_nonneg. apply (Hgw n blk tx Hblk Htx).
  - intros r Hrun. apply analyze_fees_ok_inv in Hrun.
    destruct Hrun as (h & ns & blks & cid & _ & _ & Hf & _ & ->).
    simpl. apply bucket_of_min_nonneg. unfold collect.
    apply fold_add_block_tips; [constructor |].
    intros blk tx Hblk Htx.
    destruct (fetch_all_In _ _ _ _ Hf Hblk) as (n & _ & Hn).
    apply (Hgw n blk tx Hn Htx).
Qed.

Lemma tips_nonnegative_witness :
  exists r,
    analyze_fees demo_w3 0 1 5 2 (Some 10) = Ok r /\
    (0 <= b_min (tipGweiApprox r))%Q.
Proof.
  eexists. split; [reflexivity |].
  refine (proj2 (proj2 (tips_nonnegative demo_w3 0 1 5 2 (Some 10) _)) _ eq_refl).
  intros n blk tx Hblk Htx. simpl in Hblk. injection Hblk as <-.
  simpl in Htx. destruct Htx as [<- | [<- | []]]; vm_compute; discriminate.
Defined.

(** * Further properties *)

(** ** Outcomes of [analyze_fees] *)

Lemma fetch_all_ok_iff (w3 : Web3) (ns : list Z) :
  (exists blks, fetch_all w3 ns = Ok blks) <->
  (forall n, In n ns -> exists blk, get_block w3 n true = Ok blk).
Proof.
  split; [| apply fetch_all_ok].
  induction ns as [| n ns IH]; simpl; [intros _ m [] |].
  intros [blks H] m Hm.
  destruct (get_block w3 n true) as [blk |] eqn:E; simpl in H; [| discriminate].
  destruct (fetch_all w3 ns) as [bs |] eqn:E'; simpl in H; [| discriminate].
  destruct Hm as [<- | Hm]; [exists blk; exact E |].
  apply IH; [exists bs; reflexivity | exact Hm].
Qed.

Lemma fetch_all_raise (w3 : Web3) (ns : list Z) (e : exn) :
  fetch_all w3 ns = Raise e ->
  exists pre n post,
    ns = pre ++ n :: post /\
    (forall m, In m pre -> exists blk, get_block w3 m true = Ok blk) /\
    get_block w3 n true = Raise e.
Proof.
  induction ns as [| n ns IH]; simpl; [discriminate |].
  destruct (get_block w3 n true) as [blk | e'] eqn:E; simpl.
  - destruct (fetch_all w3 ns) as [bs | e''] eqn:E'; simpl; [discriminate |].
    intros [= ->]. destruct (IH eq_refl) as (pre & m & post & -> & Hpre & Hm).
    exists (n :: pre), m, post. repeat split; [| exact Hm].
    intros k [<- | Hk]; [exists blk; exact E | apply Hpre, Hk].
  - intros [= ->]. exists [], n, ns. repeat split; [intros m [] | exact E].
Qed.

Lemma demo_block_amounts_ok : block_amounts_ok demo_block.
Proof.
  split; [reflexivity |].
  intros tx [<- | [<- | []]]; split; reflexivity.
Qed.

Lemma demo_w3_amounts_ok : amounts_ok demo_w3.
Proof. intros n blk [= <-]. apply demo_block_amounts_ok. Qed.

Lemma timeout_at_amounts_ok (bad : Z) : amounts_ok (timeout_at bad).
Proof.
  intros n blk H. simpl in H.
  destruct (n =? bad); [discriminate |].
  injection H as <-. apply demo_block_amounts_ok.
Qed.

(** X1.  On an endpoint that keeps the contract on amounts (so that no
    conversion from wei raises), [analyze_fees] returns a result exactly
    when the head resolves, [step] is not 0, every block of the range is
    fetched and the chain id is read; the header fetches play no part.
    When it raises, the exception is that of the head query, or
    [ValueError] for a zero step, or that of the first block fetch that
    fails (no later block matters), or that of the chain-id query: the
    statistics themselves never raise. *)
Theorem analyze_fees_outcome (w3 : Web3) (t0 t1 : float) (blocks step : Z)
  (head_override : option Z) :
  amounts_ok w3 ->
  ((exists r, analyze_fees w3 t0 t1 blocks step head_override = Ok r) <->
   (exists head ns,
      resolve_head w3 head_override = Ok head /\
      py_range head (Z.max 0 (head - blocks + 1) - 1) (- step) = Ok ns /\
      (forall n, In n ns -> exists blk, get_block w3 n true = Ok blk) /\
      exists cid, chain_id w3 = Ok cid)) /\
  (forall e, analyze_fees w3 t0 t1 blocks step head_override = Raise e ->
     (head_override = None /\ block_number w3 = Raise e) \/
     (step = 0 /\ e = ValueError) \/
     (exists head pre n post,
        resolve_head w3 head_override = Ok head /\
        py_range head (Z.max 0 (head - blocks + 1) - 1) (- step)
          = Ok (pre ++ n :: post) /\
        (forall m, In m pre -> exists blk, get_block w3 m true = Ok blk) /\
        get_block w3 n true = Raise e) \/
     chain_id w3 = Raise e).
Proof.
  intros Hamounts. split; [split |].
  - intros [r Hr]. apply analyze_fees_ok_inv in Hr.
    destruct Hr as (head & ns & blks & cid & Hh & Hns & Hf & Hc & _).
    exists head, ns. repeat split; [exact Hh | exact Hns | | exists cid; exact Hc].
    apply fetch_all_ok_iff. exists blks. exact Hf.
  - intros (head & ns & Hh & Hns & Hall & cid & Hc).
    rewrite analyze_fees_eq, Hh. simpl. rewrite Hns. simpl.
    destruct (fetch_all_ok w3 ns Hall) as [blks ->]. simpl.
    rewrite Hc. simpl. eexists. reflexivity.
  - intros e. rewrite analyze_fees_eq.
    destruct (resolve_head w3 head_override) as [head | e0] eqn:Hh; simpl.
    + destruct (py_range head (Z.max 0 (head - blocks + 1) - 1) (- step))
        as [ns | e1] eqn:Hns; simpl.
      * destruct (fetch_all w3 ns) as [blks | e2] eqn:Hf; simpl.
        -- destruct (chain_id w3) as [cid | e3]; simpl; [discriminate |].
           intros [= ->]. right. right. right. reflexivity.
        -- intros [= ->]. right. right. left.
           destruct (fetch_all_raise _ _ _ Hf) as (pre & n & post & -> & Hpre & Hn).
           exists head, pre, n, post. repeat split; assumption.
      * intros [= ->]. right. left. unfold py_range in Hns.
        destruct (- step =? 0) eqn:E; [| discriminate].
        apply Z.eqb_eq in E. injection Hns as <-. split; [lia | reflexivity].
    + intros [= ->]. left. destruct head_override as [h |]; [discriminate |].
      split; [reflexivity | exact Hh].
Qed.

Lemma analyze_fees_outcome_witness :
  amounts_ok (timeout_at 6) /\
  analyze_fees (timeout_at 6) 0 1 5 2 None = Raise (RpcError "timeout") /\
  get_block (timeout_at 6) 6 true = Raise (RpcError "timeout") /\
  ~ exists r, analyze_fees (timeout_at 6) 0 1 5 2 None = Ok r.
Proof.
  pose proof (timeout_at_amounts_ok 6) as Hamounts.
  split; [exact Hamounts |].
  destruct (analyze_fees_outcome (timeout_at 6) 0 1 5 2 None Hamounts)
    as [Hiff Hraise].
  assert (Hrun : analyze_fees (timeout_at 6) 0 1 5 2 None
                 = Raise (RpcError "timeout")) by reflexivity.
  split; [exact Hrun |]. split; [reflexivity |].
  intros Hok. apply Hiff in Hok.
  destruct Hok as (head & ns & Hh & Hns & Hall & _).
  injection Hh as <-. vm_compute in Hns. injection Hns as <-.
  destruct (Hall 6) as [blk Hblk]; [simpl; tauto | discriminate Hblk].
Defined.

Lemma analyze_fees_walk_inv (w3 : Web3) (t0 t1 : Q) (blocks step head : Z)
  (head_override : option Z) (r : FeeProfile) :
  resolve_head w3 head_override = Ok head -> 0 < step ->
  analyze_fees w3 t0 t1 blocks step head_override = Ok r ->
  exists blks cid,
    fetch_all w3 (walk head (Z.max 0 (head - blocks + 1)) step) = Ok blks /\
    chain_id w3 = Ok cid /\
    r = profile_of w3 t0 t1 blocks step head cid blks.
Proof.
  intros Hres Hs Hrun. apply analyze_fees_ok_inv in Hrun.
  destruct Hrun as (h & ns & blks & cid & Hh & Hns & Hf & Hc & ->).
  rewrite Hres in Hh. injection Hh as <-.
  rewrite py_range_walk in Hns by exact Hs. injection Hns as <-.
  exists blks, cid. repeat split; assumption.
Qed.

Lemma span_min (head blocks : Z) :
  head - Z.max 0 (head - blocks + 1) + 1 = Z.min blocks (head + 1).
Proof. lia. Qed.

Lemma ceil_div_bounds (a s : Z) :
  0 < s -> 0 < a -> 1 <= ceil_div a s <= a.
Proof.
  intros Hs Ha. rewrite ceil_div_Z by exact Hs. split.
  - apply Z.div_le_lower_bound; lia.
  - apply Z.div_le_upper_bound; [lia |]. nia.
Qed.

(** X2.  For a resolved [head >= 0] and positive [blocks] and [step], a run
    that returns reports [sampledBlocks = ceil(min(blocks, head + 1) / step)]:
    at least one block, never more than [blocks], and never more than the
    [head + 1] blocks that exist. *)
Theorem sampled_blocks_closed_form (w3 : Web3) (t0 t1 : float)
  (blocks step head : Z) (head_override : option Z) (r : FeeProfile) :
  resolve_head w3 head_override = Ok head ->
  0 <= head -> 0 < blocks -> 0 < step ->
  analyze_fees w3 t0 t1 blocks step head_override = Ok r ->
  sampledBlocks r = ceil_div (Z.min blocks (head + 1)) step /\
  1 <= sampledBlocks r <= blocks /\
  sampledBlocks r <= head + 1 /\
  oldestBlock r = head + 1 - Z.min blocks (head + 1).
Proof.
  intros Hres Hh Hb Hs Hrun.
  destruct (analyze_fees_walk_inv _ _ _ _ _ _ _ _ Hres Hs Hrun)
    as (blks & cid & Hf & _ & ->).
  simpl. destruct (collect_counts blks) as (-> & _ & _).
  rewrite (fetch_all_length _ _ _ Hf).
  rewrite walk_length by lia. rewrite span_min.
  pose proof (ceil_div_bounds (Z.min blocks (head + 1)) step Hs).
  repeat split; lia.
Qed.

Lemma sampled_blocks_closed_form_witness :
  exists r, analyze_fees demo_w3 0 1 256 4 (Some 10) = Ok r /\
            sampledBlocks r = 3 /\ oldestBlock r = 0.
Proof.
  assert (Hrun : analyze_fees demo_w3 0 1 256 4 (Some 10) =
                 Ok (profile_of demo_w3 0 1 256 4 10 1
                       [demo_block; demo_block; demo_block]))
    by reflexivity.
  eexists. split; [exact Hrun |].
  destruct (sampled_blocks_closed_form demo_w3 0 1 256 4 10 (Some 10) _
              eq_refl ltac:(lia) ltac:(lia) ltac:(lia) Hrun)
    as (H1 & _ & _ & H2).
  split; [rewrite H1; reflexivity | rewrite H2; reflexivity].
Defined.

(** ** Shape of the walk *)

Lemma walk_cons (head start_block step : Z) :
  0 < step -> start_block <= head ->
  walk head start_block step = head :: walk (head - step) start_block step.
Proof.
  intros Hs Hh. unfold walk.
  destruct (ceil_div_pos (head - start_block + 1) step Hs) as [Hc Hc0]; [lia |].
  rewrite Hc.
  replace (Z.to_nat (1 + ceil_div (head - start_block + 1 - step) step))
    with (S (Z.to_nat (ceil_div (head - start_block + 1 - step) step))) by lia.
  cbn [seq map]. f_equal; [lia |].
  rewrite <- seq_shift, map_map.
  replace (head - step - start_block + 1) with (head - start_block + 1 - step)
    by lia.
  apply map_ext. intros i. lia.
Qed.

Lemma walk_nil (head start_block step : Z) :
  0 < step -> head < start_block -> walk head start_block step = [].
Proof.
  intros Hs Hh. unfold walk.
  pose proof (ceil_div_nonpos (head - start_block + 1) step Hs).
  replace (Z.to_nat (ceil_div (head - start_block + 1) step)) with 0%nat by lia.
  reflexivity.
Qed.

Lemma walk_In_iff (head start_block step n : Z) :
  0 < step ->
  In n (walk head start_block step) <->
  start_block <= n <= head /\ (head - n) mod step = 0.
Proof.
  intros Hs. split.
  - intros Hin. destruct (walk_In _ _ _ _ Hs Hin) as [Hb [i ->]].
    split; [exact Hb |].
    replace (head - (head - Z.of_nat i * step)) with (Z.of_nat i * step) by lia.
    apply Z.mod_mul. lia.
  - intros [[Hlo Hhi] Hmod].
    apply Z.mod_divide in Hmod; [| lia]. destruct Hmod as [k Hk].
    assert (Hk0 : 0 <= k) by nia.
    unfold walk. apply in_map_iff. exists (Z.to_nat k). split; [lia |].
    apply in_seq. split; [lia |]. simpl.
    assert (Hlt : k + 1 <= ceil_div (head - start_block + 1) step); [| lia].
    rewrite ceil_div_Z by exact Hs.
    apply Z.div_le_lower_bound; [exact Hs | nia].
Qed.

Lemma walk_descending (head start_block step : Z) :
  0 < step ->
  StronglySorted (fun a b => b < a) (walk head start_block step).
Proof.
  intros Hs. unfold walk.
  generalize (Z.to_nat (ceil_div (head - start_block + 1) step)). intros k.
  assert (G : forall o, StronglySorted (fun a b => b < a)
                (map (fun i => head - Z.of_nat i * step) (seq o k))).
  { induction k as [| k IH]; intros o; simpl; constructor.
    - apply IH.
    - apply Forall_forall. intros x Hx. apply in_map_iff in Hx.
      destruct Hx as (i & <- & Hi). apply in_seq in Hi. nia. }
  apply G.
Qed.

Lemma descending_NoDup (l : list Z) :
  StronglySorted (fun a b => b < a) l -> NoDup l.
Proof.
  induction 1 as [| x l S IH F]; constructor; [| exact IH].
  intros Hin. rewrite Forall_forall in F. specialize (F x Hin). lia.
Qed.

(** X3.  For [head >= 0] and positive [blocks] and [step], the block numbers
    the loop of [analyze_fees] runs over start with [head], are strictly
    decreasing (so no block is fetched twice) and are exactly the numbers
    between [startBlock] and [head] at a multiple of [step] below [head]; in
    particular the block reported as [oldestBlock] is itself sampled only
    when [step] divides [head - startBlock]. *)
Theorem walk_shape (head blocks step : Z) (ns : list Z) :
  0 <= head -> 0 < blocks -> 0 < step ->
  let start_block := Z.max 0 (head - blocks + 1) in
  py_range head (start_block - 1) (- step) = Ok ns ->
  (exists rest, ns = head :: rest) /\
  StronglySorted (fun a b => b < a) ns /\
  NoDup ns /\
  (forall n, In n ns <->
             start_block <= n <= head /\ (head - n) mod step = 0) /\
  (In start_block ns <-> (head - start_block) mod step = 0).
Proof.
  intros Hh Hb Hs start_block Hns.
  rewrite py_range_walk in Hns by exact Hs. injection Hns as <-.
  assert (Hstart : start_block <= head) by (unfold start_block; lia).
  pose proof (walk_descending head start_block step Hs) as D.
  split; [eexists; apply walk_cons; assumption |].
  split; [exact D |].
  split; [apply descending_NoDup, D |].
  split; [intros n; apply walk_In_iff, Hs |].
  rewrite walk_In_iff by exact Hs. split; [intros [_ H]; exact H |].
  intros H. split; [lia | exact H].
Qed.

Lemma walk_shape_witness :
  py_range 10 (Z.max 0 (10 - 8 + 1) - 1) (- (3)) = Ok [10; 7; 4] /\
  ~ In (Z.max 0 (10 - 8 + 1)) [10; 7; 4].
Proof.
  assert (Hns : py_range 10 (Z.max 0 (10 - 8 + 1) - 1) (- (3)) = Ok [10; 7; 4])
    by reflexivity.
  split; [exact Hns |].
  destruct (walk_shape 10 8 3 [10; 7; 4] ltac:(lia) ltac:(lia) ltac:(lia) Hns)
    as (_ & _ & _ & _ & Hold).
  intros Hin. apply Hold in Hin. vm_compute in Hin. discriminate.
Defined.

(** ** Runs that sample nothing *)

Lemma py_range_empty (head blocks step : Z) :
  (0 < step /\ (head < 0 \/ blocks <= 0)) \/
  (step < 0 /\ -1 <= head /\ 0 <= blocks) ->
  py_range head (Z.max 0 (head - blocks + 1) - 1) (- step) = Ok [].
Proof.
  intros [[Hs Hc] | (Hs & Hh & Hb)].
  - rewrite py_range_walk by exact Hs. f_equal. apply walk_nil; lia.
  - unfold py_range.
    destruct (- step =? 0) eqn:E; [apply Z.eqb_eq in E; lia |]. f_equal.
    destruct (Z.to_nat (Z.abs (Z.max 0 (head - blocks + 1) - 1 - head)));
      [reflexivity |].
    cbn [range_from].
    destruct (0 <? - step) eqn:E1; [| apply Z.ltb_ge in E1; lia].
    destruct (head <? Z.max 0 (head - blocks + 1) - 1) eqn:E2;
      [apply Z.ltb_lt in E2; lia | reflexivity].
Qed.

(** X4.  [analyze_fees] does not check its arguments.  With a positive step
    and a negative head or a non-positive block count, or with a negative
    step (head at least -1, block count not negative), the range is empty:
    no block is fetched, so block fetches that would fail do no harm, and
    once the chain id is read the run returns the empty profile, with
    [sampledBlocks = 0], three all-zero buckets and [avgBlockTimeSec = 0]. *)
Theorem empty_profile (w3 : Web3) (t0 t1 : float) (blocks step head cid : Z)
  (head_override : option Z) :
  resolve_head w3 head_override = Ok head ->
  chain_id w3 = Ok cid ->
  (0 < step /\ (head < 0 \/ blocks <= 0)) \/
  (step < 0 /\ -1 <= head /\ 0 <= blocks) ->
  exists r,
    analyze_fees w3 t0 t1 blocks step head_override = Ok r /\
    sampledBlocks r = 0 /\
    stats_bucket [] = Ok (baseFeeGwei r) /\
    stats_bucket [] = Ok (effectivePriceGwei r) /\
    stats_bucket [] = Ok (tipGweiApprox r) /\
    (avgBlockTimeSec r == 0)%Q /\
    headBlock r = head /\ chainId r = cid.
Proof.
  intros Hres Hc Hcase.
  exists (profile_of w3 t0 t1 blocks step head cid []).
  split; [| repeat split].
  rewrite analyze_fees_eq, Hres. simpl.
  rewrite (py_range_empty _ _ _ Hcase). simpl. rewrite Hc. reflexivity.
Qed.

Lemma empty_profile_witness :
  exists r,
    analyze_fees (timeout_at (-5)) 0 1 8 1 (Some (-5)) = Ok r /\
    sampledBlocks r = 0 /\ count (baseFeeGwei r) = 0.
Proof.
  destruct (empty_profile (timeout_at (-5)) 0 1 8 1 (-5) 1 (Some (-5))
              eq_refl eq_refl ltac:(left; lia))
    as (r & Hr & Hs & Hb & _).
  exists r. split; [exact Hr |]. split; [exact Hs |].
  injection Hb as <-. reflexivity.
Defined.

(** ** The average block time *)

Lemma round_ndigits_0 (n : nat) : (round_ndigits 0 n == 0)%Q.
Proof. apply (round_ndigits_Z 0 n). Qed.

Lemma round_ndigits_comp (x y : Q) (n : nat) :
  (x == y)%Q -> round_ndigits x n = round_ndigits y n.
Proof.
  intros E. unfold round_ndigits. f_equal. apply py_round_comp.
  rewrite E. reflexivity.
Qed.

Lemma avg_block_time_nonneg (w3 : Web3) (head start_block : Z) :
  (0 <= try_except (avg_block_time_of w3 head start_block) 0)%Q.
Proof.
  unfold avg_block_time_of.
  destruct (get_block w3 head false) as [nb |]; simpl; [| lra].
  destruct (get_block w3 start_block false) as [ob |]; simpl; [| lra].
  destruct (block_timestamp nb) as [tn |]; simpl; [| lra].
  destruct (block_timestamp ob) as [tk |]; simpl; [| lra].
  match goal with |- context [Qltb 0 ?r] => case_Qltb 0%Q r end; lra.
Qed.

Lemma avg_block_time_same_block (w3 : Web3) (head : Z) :
  (try_except (avg_block_time_of w3 head head) 0 == 0)%Q.
Proof.
  unfold avg_block_time_of.
  destruct (get_block w3 head false) as [nb |]; simpl; [| reflexivity].
  destruct (block_timestamp nb) as [tn |]; simpl; [| reflexivity].
  replace (tn - tn) with 0 by lia. reflexivity.
Qed.

(** X5.  In every returned profile [avgBlockTimeSec] is nonnegative, also
    when the timestamps run backwards.  It is 0 when the header fetch of the
    head or of the oldest block fails or delivers no timestamp (the failure
    is swallowed, the run still returns), when the newest timestamp is not
    later than the oldest, and when head and oldest block coincide. *)
Theorem avg_block_time_facts (w3 : Web3) (t0 t1 : float)
  (blocks step head : Z) (head_override : option Z) (r : FeeProfile) :
  resolve_head w3 head_override = Ok head ->
  analyze_fees w3 t0 t1 blocks step head_override = Ok r ->
  let start_block := Z.max 0 (head - blocks + 1) in
  (0 <= avgBlockTimeSec r)%Q /\
  ((exists e, get_block w3 head false = Raise e) \/
   (exists e, get_block w3 start_block false = Raise e) ->
   (avgBlockTimeSec r == 0)%Q) /\
  (forall nb ob,
     get_block w3 head false = Ok nb ->
     get_block w3 start_block false = Ok ob ->
     (timestamp nb = None \/ timestamp ob = None \/
      exists tn tk, timestamp nb = Some tn /\ timestamp ob = Some tk /\ tn <= tk) ->
     (avgBlockTimeSec r == 0)%Q) /\
  (start_block = head -> (avgBlockTimeSec r == 0)%Q).
Proof.
  intros Hres Hrun start_block. apply analyze_fees_ok_inv in Hrun.
  destruct Hrun as (h & ns & blks & cid & Hh & _ & _ & _ & ->).
  rewrite Hres in Hh. injection Hh as <-.
  cbn [avgBlockTimeSec profile_of]. fold start_block.
  set (a := try_except (avg_block_time_of w3 head start_block) 0%Q).
  assert (Hzero : (a == 0)%Q ->
            (round_ndigits (if sampled_blocks (collect blks) =? 0
                            then 0%Q else a) 3 == 0)%Q).
  { intros E. destruct (sampled_blocks (collect blks) =? 0);
      [| rewrite (round_ndigits_comp _ _ 3 E)]; apply round_ndigits_0. }
  split; [| split; [| split]].
  - pose proof (round_ndigits_0 3) as Z0.
    apply Qle_trans with (round_ndigits 0 3); [lra |].
    apply round_ndigits_mono.
    destruct (sampled_blocks (collect blks) =? 0); [lra |].
    apply avg_block_time_nonneg.
  - intros Hfail. apply Hzero. unfold a, avg_block_time_of.
    destruct Hfail as [[e He] | [e He]].
    + rewrite He. reflexivity.
    + rewrite He. destruct (get_block w3 head false); reflexivity.
  - intros nb ob Hn Ho Hts. apply Hzero. unfold a, avg_block_time_of.
    rewrite Hn, Ho. cbn [bind]. unfold block_timestamp.
    destruct Hts as [-> | [-> | (tn & tk & -> & -> & Hle)]];
      [reflexivity | destruct (timestamp nb); reflexivity |].
    cbn [bind try_except].
    match goal with |- context [Qltb 0 ?q] => case_Qltb 0%Q q end;
      [| reflexivity].
    exfalso. revert E. unfold Qdiv. intros E.
    assert (Hd : (inject_Z (tn - tk) <= 0)%Q) by (rewrite <- (Zle_Qle _ 0); lia).
    assert (Hs : (0 < / inject_Z (Z.max 1 (head - start_block)))%Q).
    { apply Qinv_lt_0_compat. rewrite <- (Zlt_Qlt 0). lia. }
    pose proof (Qmult_le_compat_r _ _ _ Hd (Qlt_le_weak _ _ Hs)) as M. lra.
  - intros E. apply Hzero. unfold a. rewrite E.
    apply avg_block_time_same_block.
Qed.

Lemma avg_block_time_facts_witness :
  exists r,
    analyze_fees headerless_w3 0 1 5 2 (Some 10) = Ok r /\
    sampledBlocks r = 3 /\ (avgBlockTimeSec r == 0)%Q.
Proof.
  assert (Hrun : analyze_fees headerless_w3 0 1 5 2 (Some 10) =
                 Ok (profile_of headerless_w3 0 1 5 2 10 1
                       [demo_block; demo_block; demo_block]))
    by reflexivity.
  eexists. split; [exact Hrun |]. split; [reflexivity |].
  destruct (avg_block_time_facts headerless_w3 0 1 5 2 10 (Some 10) _
              eq_refl Hrun) as (_ & Hfail & _).
  apply Hfail. left. exists (RpcError "timeout"). reflexivity.
Defined.

(** A chain with a block every 12 seconds. *)
Example avg_block_time_regular_chain :
  exists r,
    analyze_fees regular_w3 0 1 5 2 (Some 10) = Ok r /\
    (avgBlockTimeSec r == 12)%Q.
Proof. eexists. split; reflexivity. Qed.

(** ** Samples per transaction *)

Lemma from_wei_gwei_le (a b : Z) :
  (from_wei_gwei a <= from_wei_gwei b)%Q <-> a <= b.
Proof. unfold from_wei_gwei, Qle. simpl. lia. Qed.

Lemma fold_add_block_tx_counts (blks : list Block) (st : Samples) :
  let st' := fold_left add_block blks st in
  length (eff_prices st') =
    (length (eff_prices st) + length (concat (map transactions blks)))%nat /\
  length (tips st') =
    (length (tips st) + length (concat (map transactions blks)))%nat.
Proof.
  revert st. induction blks as [| blk blks IH]; intros st; simpl.
  - split; lia.
  - destruct (IH (add_block st blk)) as [H1 H2]. simpl in H1, H2.
    rewrite !length_app, !length_map in *. split; lia.
Qed.

(** X6.  In a returned profile the effective-price bucket and the tip bucket
    each count one value per transaction of the fetched blocks, and the
    base-fee bucket one value per block.  Blocks without transactions
    contribute nothing: when no fetched block holds a transaction, both
    price buckets are the all-zero bucket although blocks were sampled. *)
Theorem sample_counts (w3 : Web3) (t0 t1 : float) (blocks step : Z)
  (head_override : option Z) (r : FeeProfile) :
  analyze_fees w3 t0 t1 blocks step head_override = Ok r ->
  exists head ns blks,
    resolve_head w3 head_override = Ok head /\
    py_range head (Z.max 0 (head - blocks + 1) - 1) (- step) = Ok ns /\
    fetch_all w3 ns = Ok blks /\
    count (baseFeeGwei r) = Z.of_nat (length ns) /\
    count (effectivePriceGwei r) =
      Z.of_nat (length (concat (map transactions blks))) /\
    count (tipGweiApprox r) =
      Z.of_nat (length (concat (map transactions blks))) /\
    ((forall blk, In blk blks -> transactions blk = []) ->
     stats_bucket [] = Ok (effectivePriceGwei r) /\
     stats_bucket [] = Ok (tipGweiApprox r)).
Proof.
  intros Hrun. apply analyze_fees_ok_inv in Hrun.
  destruct Hrun as (head & ns & blks & cid & Hh & Hns & Hf & _ & ->).
  exists head, ns, blks. repeat (split; [assumption |]).
  cbn [baseFeeGwei effectivePriceGwei tipGweiApprox profile_of].
  rewrite !bucket_of_count.
  destruct (collect_counts blks) as (_ & Hb & _).
  destruct (fold_add_block_tx_counts blks no_samples) as [He Ht].
  fold (collect blks) in He, Ht. simpl in He, Ht.
  rewrite Hb, He, Ht, (fetch_all_length _ _ _ Hf).
  repeat split.
  - assert (Hnil : concat (map transactions blks) = []).
    { clear -H. induction blks as [| b bs IH]; [reflexivity |]. simpl.
      rewrite (H b (or_introl eq_refl)). simpl.
      apply IH. intros blk Hb. apply H. right. exact Hb. }
    rewrite Hnil in He. destruct (eff_prices (collect blks));
      [reflexivity | discriminate].
  - assert (Hnil : concat (map transactions blks) = []).
    { clear -H. induction blks as [| b bs IH]; [reflexivity |]. simpl.
      rewrite (H b (or_introl eq_refl)). simpl.
      apply IH. intros blk Hb. apply H. right. exact Hb. }
    rewrite Hnil in Ht. destruct (tips (collect blks));
      [reflexivity | discriminate].
Qed.

Lemma sample_counts_witness :
  exists r,
    analyze_fees demo_w3 0 1 5 2 (Some 10) = Ok r /\
    count (baseFeeGwei r) = 3 /\ count (effectivePriceGwei r) = 6.
Proof.
  assert (Hrun : analyze_fees demo_w3 0 1 5 2 (Some 10) =
                 Ok (profile_of demo_w3 0 1 5 2 10 1
                       [demo_block; demo_block; demo_block]))
    by reflexivity.
  eexists. split; [exact Hrun |].
  destruct (sample_counts demo_w3 0 1 5 2 (Some 10) _ Hrun)
    as (head & ns & blks & Hh & Hns & Hf & Hb & He & _).
  injection Hh as <-. vm_compute in Hns. injection Hns as <-.
  vm_compute in Hf. injection Hf as <-.
  split; [rewrite Hb | rewrite He]; reflexivity.
Defined.

Lemma sample_nth (block : Block) (bf : Z) (i : nat) (tx : Tx) :
  nth_error (transactions block) i = Some tx ->
  nth_error (fst (sample_block_fees block bf)) i
    = Some (from_wei_gwei (effective_wei bf tx)) /\
  nth_error (snd (sample_block_fees block bf)) i
    = Some (from_wei_gwei (tip_wei bf tx)).
Proof.
  intros H. rewrite sample_block_fees_eq. simpl.
  rewrite !nth_error_map, H. split; reflexivity.
Qed.

(** X7.  For every transaction of a block, the two samples are the Gwei
    values of [effective_wei] and [tip_wei], and in wei the effective price
    never exceeds the base fee plus the tip.  The two are equal exactly
    when the transaction is not cut short: a type-2 transaction whose fee
    cap covers base fee plus priority fee, any other transaction whose gas
    price covers the base fee.  The effective-price sample is at most the
    Gwei value of base fee plus tip. *)
Theorem effective_price_decomposition (block : Block) (bf : Z)
  (i : nat) (tx : Tx) (e t : float) :
  nth_error (transactions block) i = Some tx ->
  nth_error (fst (sample_block_fees block bf)) i = Some e ->
  nth_error (snd (sample_block_fees block bf)) i = Some t ->
  e = from_wei_gwei (effective_wei bf tx) /\
  t = from_wei_gwei (tip_wei bf tx) /\
  effective_wei bf tx <= bf + tip_wei bf tx /\
  (effective_wei bf tx = bf + tip_wei bf tx <->
   (type_of tx = 2 /\ bf + priority_fee_of tx <= max_fee_of tx) \/
   (type_of tx <> 2 /\ bf <= gas_price_of tx)) /\
  (e <= from_wei_gwei (bf + tip_wei bf tx))%Q.
Proof.
  intros Htx He Ht. destruct (sample_nth block bf i tx Htx) as [He' Ht'].
  rewrite He' in He. rewrite Ht' in Ht. injection He as <-. injection Ht as <-.
  split; [reflexivity |]. split; [reflexivity |].
  rewrite from_wei_gwei_le.
  unfold effective_wei, tip_wei.
  destruct (type_of tx =? 2) eqn:E;
    [apply Z.eqb_eq in E | apply Z.eqb_neq in E]; lia.
Qed.

Lemma effective_price_decomposition_witness :
  effective_wei 80000000000 demo_type2 = 80000000000 + 5000000000 /\
  effective_wei 80000000000 demo_legacy <= 80000000000 + 0 /\
  nth_error (fst (sample_block_fees demo_block 80000000000)) 0
    = Some (from_wei_gwei 85000000000).
Proof.
  destruct (effective_price_decomposition demo_block 80000000000 0 demo_type2
              _ _ eq_refl eq_refl eq_refl) as (_ & _ & _ & Heq & _).
  destruct (effective_price_decomposition demo_block 80000000000 1 demo_legacy
              _ _ eq_refl eq_refl eq_refl) as (_ & _ & Hle & _).
  split; [| split; [exact Hle | reflexivity]].
  apply Heq. left. split; [reflexivity | vm_compute; discriminate].
Defined.

(** X8.  When the base fee is not negative, a type-2 transaction's priority
    fee does not exceed its fee cap, and any other transaction's gas price
    is not negative, the tip sample of every transaction is at most its
    effective-price sample. *)
Theorem tip_at_most_effective_price (block : Block) (bf : Z) :
  0 <= bf ->
  (forall tx, In tx (transactions block) ->
     (type_of tx = 2 -> priority_fee_of tx <= max_fee_of tx) /\
     (type_of tx <> 2 -> 0 <= gas_price_of tx)) ->
  Forall2 Qle (snd (sample_block_fees block bf))
              (fst (sample_block_fees block bf)).
Proof.
  intros Hbf Hvalid. rewrite sample_block_fees_eq. simpl.
  induction (transactions block) as [| tx txs IH]; simpl; constructor.
  - destruct (Hvalid tx (or_introl eq_refl)) as [H2 H0].
    apply from_wei_gwei_le. unfold effective_wei, tip_wei.
    destruct (type_of tx =? 2) eqn:E;
      [apply Z.eqb_eq in E | apply Z.eqb_neq in E]; lia.
  - apply IH. intros tx' Hin. apply Hvalid. right. exact Hin.
Qed.

Lemma tip_at_most_effective_price_witness :
  Forall2 Qle (snd (sample_block_fees demo_block 80000000000))
              (fst (sample_block_fees demo_block 80000000000)).
Proof.
  apply tip_at_most_effective_price; [lia |].
  intros tx [<- | [<- | []]]; split; intros H; vm_compute; discriminate.
Defined.

(** X9.  On a block whose base fee is 0 (a chain without a fee market: the
    block carries neither base-fee field), and under the same conditions on
    the transactions, the tip list of the block equals its effective-price
    list. *)
Theorem no_base_fee_tips_are_prices (block : Block) :
  baseFeePerGas block = None -> base_fee_per_gas block = None ->
  (forall tx, In tx (transactions block) ->
     (type_of tx = 2 -> priority_fee_of tx <= max_fee_of tx) /\
     (type_of tx <> 2 -> 0 <= gas_price_of tx)) ->
  block_base_fee block = 0 /\
  snd (sample_block_fees block (block_base_fee block)) =
  fst (sample_block_fees block (block_base_fee block)).
Proof.
  intros H1 H2 Hvalid.
  assert (E0 : block_base_fee block = 0)
    by (unfold block_base_fee; rewrite H1, H2; reflexivity).
  split; [exact E0 |]. rewrite E0, sample_block_fees_eq. simpl.
  apply map_ext_in. intros tx Hin.
  destruct (Hvalid tx Hin) as [Hv2 Hv0]. f_equal.
  unfold effective_wei, tip_wei.
  destruct (type_of tx =? 2) eqn:E;
    [apply Z.eqb_eq in E | apply Z.eqb_neq in E]; lia.
Qed.

Lemma no_base_fee_tips_are_prices_witness :
  snd (sample_block_fees legacy_block 0) = fst (sample_block_fees legacy_block 0).
Proof.
  refine (proj2 (no_base_fee_tips_are_prices legacy_block eq_refl eq_refl _)).
  intros tx [<- | [<- | []]]; split; intros H; vm_compute; discriminate.
Defined.

(** ** The percentile as a function of [q] *)

Lemma clamp01_mono (x1 x2 : Q) :
  (x1 <= x2)%Q -> (clamp01 (Fin x1) <= clamp01 (Fin x2))%Q.
Proof.
  intros H. unfold clamp01.
  case_Qltb x1 0%Q; case_Qltb x2 0%Q; try lra;
    case_Qltb 1%Q x2; try lra; case_Qltb 1%Q x1; lra.
Qed.

Lemma nearest_rank_index_mono (n : nat) (q1 q2 : pyfloat) :
  (0 < n)%nat -> (clamp01 q1 <= clamp01 q2)%Q ->
  nearest_rank_index n q1 <= nearest_rank_index n q2.
Proof.
  intros Hn H. unfold nearest_rank_index. apply py_round_mono.
  apply Qmult_le_compat_r; [exact H |]. rewrite <- (Zle_Qle 0). lia.
Qed.

Lemma nearest_rank_index_low (n : nat) (q : pyfloat) :
  (clamp01 q == 0)%Q -> nearest_rank_index n q = 0.
Proof.
  intros E. unfold nearest_rank_index.
  rewrite <- (py_round_Z 0). apply py_round_comp. rewrite E.
  change (inject_Z 0) with 0%Q. ring.
Qed.

Lemma nearest_rank_index_high (n : nat) (q : pyfloat) :
  (clamp01 q == 1)%Q -> nearest_rank_index n q = Z.of_nat n - 1.
Proof.
  intros E. unfold nearest_rank_index.
  rewrite <- (py_round_Z (Z.of_nat n - 1)) at 2. apply py_round_comp.
  rewrite E. ring.
Qed.

Lemma pct_eq_of_clamp (V : list Q) (q1 q2 : pyfloat) :
  (clamp01 q1 == clamp01 q2)%Q -> pct V q1 = pct V q2.
Proof.
  intros E. destruct V as [| x l]; [reflexivity |].
  rewrite !pct_nonempty by discriminate. do 2 f_equal.
  unfold nearest_rank_index. f_equal. apply py_round_comp.
  rewrite E. reflexivity.
Qed.

(** X10.  [pct] is monotone in [q]: for [q1 <= q2] it returns values
    [v1 <= v2] of the same list. *)
Theorem pct_monotone (V : list float) (x1 x2 : float) :
  (x1 <= x2)%Q ->
  exists v1 v2,
    pct V (Fin x1) = Ok v1 /\ pct V (Fin x2) = Ok v2 /\ (v1 <= v2)%Q.
Proof.
  intros H. destruct V as [| x l].
  - exists 0%Q, 0%Q. repeat split. lra.
  - set (V := x :: l).
    rewrite !(pct_nonempty V) by discriminate.
    do 2 eexists. split; [reflexivity |]. split; [reflexivity |].
    pose proof (nearest_rank_index_range (length V) (Fin x1)) as R1.
    pose proof (nearest_rank_index_range (length V) (Fin x2)) as R2.
    pose proof (nearest_rank_index_mono (length V) (Fin x1) (Fin x2)) as M.
    assert (Hlen : (0 < length V)%nat) by (simpl; lia).
    specialize (R1 Hlen). specialize (R2 Hlen).
    specialize (M Hlen (clamp01_mono _ _ H)).
    apply strongly_sorted_nth; [apply sorted_strongly |].
    rewrite sorted_length. lia.
Qed.

Lemma pct_monotone_witness :
  exists v1 v2,
    pct [3; 1; 2; 5]%Q (Fin (1 # 4)) = Ok v1 /\
    pct [3; 1; 2; 5]%Q (Fin (3 # 4)) = Ok v2 /\ (v1 <= v2)%Q.
Proof.
  apply pct_monotone. unfold Qle. simpl. lia.
Defined.

(** X11.  At the ends of the scale [pct] returns the extremes of a non-empty
    list: the least element for every [q <= 0] and for minus infinity, the
    greatest element for every [q >= 1], for plus infinity and for NaN. *)
Theorem pct_extremes (x : float) (l : list float) :
  let V := x :: l in
  exists lo hi vlo vhi : float,
    py_min V = Ok lo /\ py_max V = Ok hi /\
    (vlo == lo)%Q /\ (vhi == hi)%Q /\
    pct V NegInf = Ok vlo /\
    (forall y, (y <= 0)%Q -> pct V (Fin y) = Ok vlo) /\
    pct V PosInf = Ok vhi /\
    pct V NaN = Ok vhi /\
    (forall y, (1 <= y)%Q -> pct V (Fin y) = Ok vhi).
Proof.
  intros V.
  assert (Hne : V <> []) by discriminate.
  assert (Hlen : (0 < length V)%nat) by (simpl; lia).
  pose proof (sorted_strongly V) as S.
  destruct (min_from_spec l x) as [Hmin1 Hmin2].
  destruct (max_from_spec l x) as [Hmax1 Hmax2].
  exists (min_from x l), (max_from x l),
    (nth 0 (sorted V) 0%Q), (nth (length V - 1) (sorted V) 0%Q).
  assert (Hin0 : In (nth 0 (sorted V) 0%Q) V)
    by (apply sorted_In, nth_In; rewrite sorted_length; exact Hlen).
  assert (Hin1 : In (nth (length V - 1) (sorted V) 0%Q) V)
    by (apply sorted_In, nth_In; rewrite sorted_length; lia).
  assert (Hlow : forall q, (clamp01 q == 0)%Q ->
                   pct V q = Ok (nth 0 (sorted V) 0%Q)).
  { intros q E. rewrite pct_nonempty by exact Hne.
    rewrite (nearest_rank_index_low _ _ E). reflexivity. }
  assert (Hhigh : forall q, (clamp01 q == 1)%Q ->
                    pct V q = Ok (nth (length V - 1) (sorted V) 0%Q)).
  { intros q E. rewrite pct_nonempty by exact Hne.
    rewrite (nearest_rank_index_high _ _ E). do 2 f_equal. lia. }
  split; [reflexivity |]. split; [reflexivity |].
  split; [| split; [| split; [| split; [| split; [| split]]]]].
  - apply Qle_antisym; [| apply Hmin2, Hin0].
    apply sorted_In in Hmin1.
    destruct (In_nth _ _ 0%Q Hmin1) as (i & Hi & <-).
    apply strongly_sorted_nth; [exact S | lia].
  - apply Qle_antisym; [apply Hmax2, Hin1 |].
    apply sorted_In in Hmax1.
    destruct (In_nth _ _ 0%Q Hmax1) as (i & Hi & <-).
    apply strongly_sorted_nth; [exact S |].
    rewrite sorted_length in Hi. rewrite sorted_length.
    unfold V in *. lia.
  - apply Hlow. reflexivity.
  - intros y Hy. apply Hlow. unfold clamp01.
    case_Qltb y 0%Q; [reflexivity |]. case_Qltb 1%Q y; lra.
  - apply Hhigh. reflexivity.
  - apply Hhigh. reflexivity.
  - intros y Hy. apply Hhigh. unfold clamp01.
    case_Qltb y 0%Q; [lra |]. case_Qltb 1%Q y; [reflexivity | lra].
Qed.

(** ** Order statistics depend on the values only *)

Lemma count_lt_perm (v : Q) (l l' : list Q) :
  Permutation l l' -> count_lt v l = count_lt v l'.
Proof.
  unfold count_lt. induction 1 as [| x l l' P IH | x y l | l l' l'' P1 IH1 P2 IH2];
    simpl.
  - reflexivity.
  - destruct (Qltb x v); simpl; lia.
  - destruct (Qltb x v), (Qltb y v); reflexivity.
  - lia.
Qed.

Lemma count_le_perm (v : Q) (l l' : list Q) :
  Permutation l l' -> count_le v l = count_le v l'.
Proof.
  unfold count_le. induction 1 as [| x l l' P IH | x y l | l l' l'' P1 IH1 P2 IH2];
    simpl.
  - reflexivity.
  - destruct (Qle_bool x v); simpl; lia.
  - destruct (Qle_bool x v), (Qle_bool y v); reflexivity.
  - lia.
Qed.

Lemma count_lt_none (v : Q) (l : list Q) :
  Forall (fun x => v <= x)%Q l -> count_lt v l = 0%nat.
Proof.
  unfold count_lt. induction 1 as [| x l H F IH]; simpl; [reflexivity |].
  case_Qltb x v; [lra | exact IH].
Qed.

Lemma count_sorted_nth (s : list Q) (i : nat) :
  StronglySorted Qle s -> (i < length s)%nat ->
  (count_lt (nth i s 0%Q) s <= i)%nat /\ (i < count_le (nth i s 0%Q) s)%nat.
Proof.
  intros S. revert i. induction S as [| a s S IH F]; intros i Hi; simpl in Hi.
  - lia.
  - destruct i as [| j]; cbn [nth].
    + unfold count_lt, count_le. simpl.
      case_Qltb a a; [lra |].
      fold (count_lt a s). rewrite (count_lt_none a s F).
      destruct (Qle_bool a a) eqn:E'; [simpl; lia |].
      apply Qle_bool_false in E'. lra.
    + assert (Hj : (j < length s)%nat) by lia.
      destruct (IH j Hj) as [H1 H2].
      assert (Ha : (a <= nth j s 0)%Q).
      { rewrite Forall_forall in F. apply F, nth_In, Hj. }
      unfold count_lt, count_le in *. simpl.
      destruct (Qltb a (nth j s 0%Q)); simpl;
        (destruct (Qle_bool a (nth j s 0%Q)) eqn:E';
         [simpl; lia | apply Qle_bool_false in E'; lra]).
Qed.

Lemma count_le_lt (v w : Q) (l : list Q) :
  (v < w)%Q -> (count_le v l <= count_lt w l)%nat.
Proof.
  intros H. unfold count_le, count_lt.
  induction l as [| x l IH]; simpl; [lia |].
  destruct (Qle_bool x v) eqn:E; simpl.
  - apply Qle_bool_iff in E. case_Qltb x w; [simpl; lia | lra].
  - destruct (Qltb x w); simpl; lia.
Qed.

Lemma count_pointwise (v w : Q) (A B : list Q) :
  Forall2 Qle A B -> (w < v)%Q -> (count_le w B <= count_lt v A)%nat.
Proof.
  intros F H. unfold count_le, count_lt.
  induction F as [| a b A B Hab F IH]; simpl; [lia |].
  destruct (Qle_bool b w) eqn:E; simpl.
  - apply Qle_bool_iff in E. case_Qltb a v; [simpl; lia | lra].
  - destruct (Qltb a v); simpl; lia.
Qed.

(** Where the values of [A] lie pointwise below those of [B], so do the
    sorted lists, position by position. *)
Lemma sorted_pointwise (A B : list Q) (i : nat) :
  Forall2 Qle A B -> (i < length A)%nat ->
  (nth i (sorted A) 0 <= nth i (sorted B) 0)%Q.
Proof.
  intros F Hi.
  assert (HlenB : length B = length A) by (symmetry; apply (Forall2_length F)).
  destruct (Qlt_le_dec (nth i (sorted B) 0%Q) (nth i (sorted A) 0%Q))
    as [L | G]; [exfalso | exact G].
  destruct (count_sorted_nth (sorted A) i (sorted_strongly A)) as [HA _];
    [rewrite sorted_length; exact Hi |].
  destruct (count_sorted_nth (sorted B) i (sorted_strongly B)) as [_ HB];
    [rewrite sorted_length; lia |].
  rewrite (count_lt_perm _ _ _ (sorted_perm A)) in HA.
  rewrite (count_le_perm _ _ _ (sorted_perm B)) in HB.
  pose proof (count_pointwise _ _ A B F L). lia.
Qed.

Lemma Forall2_Qle_refl_perm (A : list Q) : Forall2 Qle A A.
Proof. induction A; constructor; [apply Qle_refl | assumption]. Qed.

(** Two arrangements of the same values have sorted lists that agree
    position by position. *)
Lemma sorted_perm_nth (V V' : list Q) (i : nat) :
  Permutation V V' -> (i < length V)%nat ->
  (nth i (sorted V) 0 == nth i (sorted V') 0)%Q.
Proof.
  intros P Hi.
  assert (Hlen : length V' = length V) by (symmetry; apply Permutation_length, P).
  destruct (count_sorted_nth (sorted V) i (sorted_strongly V)) as [H1 H2];
    [rewrite sorted_length; exact Hi |].
  destruct (count_sorted_nth (sorted V') i (sorted_strongly V')) as [H3 H4];
    [rewrite sorted_length; lia |].
  rewrite (count_lt_perm _ _ _ (sorted_perm V)) in H1.
  rewrite (count_le_perm _ _ _ (sorted_perm V)) in H2.
  rewrite (count_lt_perm _ _ _ (sorted_perm V')),
          <- (count_lt_perm _ _ _ P) in H3.
  rewrite (count_le_perm _ _ _ (sorted_perm V')),
          <- (count_le_perm _ _ _ P) in H4.
  set (v := nth i (sorted V) 0%Q) in *. set (w := nth i (sorted V') 0%Q) in *.
  destruct (Qlt_le_dec v w) as [L | G].
  - pose proof (count_le_lt v w V L). lia.
  - destruct (Qlt_le_dec w v) as [L' | G'].
    + pose proof (count_le_lt w v V L'). lia.
    + lra.
Qed.

Lemma median_of_pointwise (s s' : list Q) :
  length s = length s' -> s <> [] ->
  (forall i, (i < length s)%nat -> (nth i s 0 <= nth i s' 0)%Q) ->
  (median_of s <= median_of s')%Q.
Proof.
  intros Hlen Hne H. unfold median_of. rewrite <- Hlen.
  assert (Hn : 0 < Z.of_nat (length s))
    by (destruct s; [congruence | simpl; lia]).
  remember (Z.of_nat (length s)) as n eqn:En.
  assert (Hh : 0 <= n / 2 < n)
    by (split; [apply Z.div_pos; lia | apply Z.div_lt; lia]).
  destruct (n mod 2 =? 1) eqn:E1.
  - apply H. lia.
  - apply Z.eqb_neq in E1.
    assert (Hdiv : n = 2 * (n / 2))
      by (pose proof (Z.div_mod n 2); pose proof (Z.mod_pos_bound n 2); lia).
    assert (A : (nth (Z.to_nat (n / 2 - 1)) s 0 <= nth (Z.to_nat (n / 2 - 1)) s' 0)%Q)
      by (apply H; lia).
    assert (B : (nth (Z.to_nat (n / 2)) s 0 <= nth (Z.to_nat (n / 2)) s' 0)%Q)
      by (apply H; lia).
    unfold Qdiv. apply Qmult_le_compat_r; [lra |].
    apply Qinv_le_0_compat. lra.
Qed.

Lemma Forall2_In_r (A B : list Q) (b : Q) :
  Forall2 Qle A B -> In b B -> exists a, In a A /\ (a <= b)%Q.
Proof.
  induction 1 as [| a0 b0 A B H F IH]; intros Hin; [destruct Hin |].
  destruct Hin as [<- | Hin].
  - exists a0. split; [left; reflexivity | exact H].
  - destruct (IH Hin) as (a & Ha & Hle). exists a. split; [right |]; assumption.
Qed.

Lemma Forall2_In_l (A B : list Q) (a : Q) :
  Forall2 Qle A B -> In a A -> exists b, In b B /\ (a <= b)%Q.
Proof.
  induction 1 as [| a0 b0 A B H F IH]; intros Hin; [destruct Hin |].
  destruct Hin as [<- | Hin].
  - exists b0. split; [left; reflexivity | exact H].
  - destruct (IH Hin) as (b & Hb & Hle). exists b. split; [right |]; assumption.
Qed.

Lemma bucket_of_pointwise (A B : list Q) :
  Forall2 Qle A B ->
  (b_min (bucket_of A) <= b_min (bucket_of B))%Q /\
  (p50 (bucket_of A) <= p50 (bucket_of B))%Q /\
  (p95 (bucket_of A) <= p95 (bucket_of B))%Q /\
  (b_max (bucket_of A) <= b_max (bucket_of B))%Q.
Proof.
  intros F. pose proof (Forall2_length F) as Hlen.
  destruct A as [| x l], B as [| y l']; try discriminate.
  - simpl. repeat split; lra.
  - cbn [bucket_of b_min p50 p95 b_max].
    destruct (min_from_spec l x) as [_ HminA].
    destruct (min_from_spec l' y) as [HminB _].
    destruct (max_from_spec l x) as [HmaxA _].
    destruct (max_from_spec l' y) as [_ HmaxB].
    repeat split; apply round_ndigits_mono.
    + destruct (Forall2_In_r _ _ _ F HminB) as (a & Ha & Hle).
      apply Qle_trans with a; [apply HminA, Ha | exact Hle].
    + apply median_of_pointwise.
      * rewrite !sorted_length. exact Hlen.
      * intros E. apply (f_equal (@length Q)) in E.
        rewrite sorted_length in E. discriminate.
      * intros i Hi. rewrite sorted_length in Hi.
        apply sorted_pointwise; assumption.
    + unfold nearest_rank. rewrite <- Hlen.
      apply sorted_pointwise; [exact F |].
      pose proof (nearest_rank_index_range (length (x :: l)) (Fin (95 # 100))).
      simpl length in *. lia.
    + destruct (Forall2_In_l _ _ _ F HmaxA) as (b & Hb & Hle).
      apply Qle_trans with b; [exact Hle | apply HmaxB, Hb].
Qed.

Lemma Forall2_Qle_of_perm_sorted (V V' : list Q) :
  Permutation V V' ->
  forall i, (i < length V)%nat ->
            (nth i (sorted V) 0 <= nth i (sorted V') 0)%Q.
Proof.
  intros P i Hi. pose proof (sorted_perm_nth V V' i P Hi). lra.
Qed.

Lemma sorted_nonempty (W : list Q) : W <> [] -> sorted W <> [].
Proof.
  intros HW E. apply (f_equal (@length Q)) in E.
  rewrite sorted_length in E. destruct W; [congruence | discriminate].
Qed.

Lemma median_of_sorted_le (V V' : list Q) :
  Permutation V V' -> V <> [] ->
  (median_of (sorted V) <= median_of (sorted V'))%Q.
Proof.
  intros P Hne. apply median_of_pointwise.
  - rewrite !sorted_length. apply Permutation_length, P.
  - apply sorted_nonempty, Hne.
  - intros i Hi. rewrite sorted_length in Hi.
    apply Forall2_Qle_of_perm_sorted; assumption.
Qed.

Lemma median_of_sorted_perm (V V' : list Q) :
  Permutation V V' -> V <> [] ->
  (median_of (sorted V) == median_of (sorted V'))%Q.
Proof.
  intros P Hne. apply Qle_antisym.
  - apply median_of_sorted_le; assumption.
  - apply median_of_sorted_le; [apply Permutation_sym, P |].
    intros ->. apply Permutation_sym, Permutation_nil in P. congruence.
Qed.

Lemma bucket_of_perm (V V' : list Q) :
  Permutation V V' -> bucket_of V = bucket_of V'.
Proof.
  intros P. pose proof (Permutation_length P) as Hlen.
  destruct V as [| x l], V' as [| y l']; try discriminate; [reflexivity |].
  set (V := x :: l) in *. set (V' := y :: l') in *.
  assert (Hmed : (median_of (sorted V) == median_of (sorted V'))%Q)
    by (apply median_of_sorted_perm; [exact P | discriminate]).
  assert (Hrank : (nearest_rank V (Fin (95 # 100))
                   == nearest_rank V' (Fin (95 # 100)))%Q).
  { unfold nearest_rank. rewrite <- Hlen. apply sorted_perm_nth; [exact P |].
    pose proof (nearest_rank_index_range (length V) (Fin (95 # 100))).
    unfold V in *. simpl length in *. lia. }
  destruct (min_from_spec l x) as [Hm1 Hm2].
  destruct (min_from_spec l' y) as [Hm1' Hm2'].
  destruct (max_from_spec l x) as [HM1 HM2].
  destruct (max_from_spec l' y) as [HM1' HM2'].
  assert (Hmin : (min_from x l == min_from y l')%Q).
  { apply Qle_antisym.
    - apply Hm2. apply (Permutation_in _ (Permutation_sym P)), Hm1'.
    - apply Hm2'. apply (Permutation_in _ P), Hm1. }
  assert (Hmax : (max_from x l == max_from y l')%Q).
  { apply Qle_antisym.
    - apply HM2'. apply (Permutation_in _ P), HM1.
    - apply HM2. apply (Permutation_in _ (Permutation_sym P)), HM1'. }
  unfold bucket_of, V, V'. fold V V'.
  rewrite (round_ndigits_comp _ _ 4 Hmed), (round_ndigits_comp _ _ 4 Hrank),
    (round_ndigits_comp _ _ 4 Hmin), (round_ndigits_comp _ _ 4 Hmax), Hlen.
  reflexivity.
Qed.

(** X12.  The statistics depend on the values only, not on the order in
    which they were gathered: for two arrangements of the same values
    [stats_bucket] returns the same bucket, and [pct] and [median] return
    equal values. *)
Theorem statistics_order_independent (V V' : list float) (q : pyfloat) :
  Permutation V V' ->
  stats_bucket V = stats_bucket V' /\
  (exists v v', pct V q = Ok v /\ pct V' q = Ok v' /\ (v == v')%Q) /\
  (V <> [] ->
   exists m m', median V = Ok m /\ median V' = Ok m' /\ (m == m')%Q).
Proof.
  intros P. pose proof (Permutation_length P) as Hlen.
  split; [rewrite !stats_bucket_eq; f_equal; apply bucket_of_perm, P |].
  split.
  - destruct V as [| x l], V' as [| y l']; try discriminate.
    + exists 0%Q, 0%Q. repeat split.
    + rewrite !pct_nonempty by discriminate.
      do 2 eexists. split; [reflexivity |]. split; [reflexivity |].
      rewrite <- Hlen. apply sorted_perm_nth; [exact P |].
      pose proof (nearest_rank_index_range (length (x :: l)) q).
      simpl length in *. lia.
  - intros Hne.
    assert (Hne' : V' <> []).
    { intros ->. apply Permutation_sym, Permutation_nil in P. congruence. }
    rewrite !median_nonempty by assumption.
    do 2 eexists. split; [reflexivity |]. split; [reflexivity |].
    apply median_of_sorted_perm; assumption.
Qed.

Lemma statistics_order_independent_witness :
  stats_bucket [3; 1; 2; 5]%Q = stats_bucket [5; 2; 1; 3]%Q.
Proof.
  apply (statistics_order_independent [3; 1; 2; 5]%Q [5; 2; 1; 3]%Q NaN).
  apply Permutation_trans with [5; 3; 1; 2]%Q.
  - apply Permutation_sym.
    apply (Permutation_cons_app [3; 1; 2]%Q [] (5%Q)). apply Permutation_refl.
  - apply perm_skip.
    apply Permutation_trans with [2; 3; 1]%Q.
    + apply Permutation_sym.
      apply (Permutation_cons_app [3; 1]%Q [] (2%Q)). apply Permutation_refl.
    + apply perm_skip. apply perm_swap.
Defined.

Lemma tip_le_effective (bf : Z) (tx : Tx) :
  0 <= bf ->
  (type_of tx = 2 -> priority_fee_of tx <= max_fee_of tx) ->
  (type_of tx <> 2 -> 0 <= gas_price_of tx) ->
  tip_wei bf tx <= effective_wei bf tx.
Proof.
  intros Hbf H2 H0. unfold effective_wei, tip_wei.
  destruct (type_of tx =? 2) eqn:E;
    [apply Z.eqb_eq in E | apply Z.eqb_neq in E]; lia.
Qed.

Lemma fold_add_block_pointwise (blks : list Block) (st : Samples) :
  Forall2 Qle (tips st) (eff_prices st) ->
  (forall blk, In blk blks ->
     0 <= block_base_fee blk /\
     forall tx, In tx (transactions blk) ->
       (type_of tx = 2 -> priority_fee_of tx <= max_fee_of tx) /\
       (type_of tx <> 2 -> 0 <= gas_price_of tx)) ->
  Forall2 Qle (tips (fold_left add_block blks st))
              (eff_prices (fold_left add_block blks st)).
Proof.
  revert st. induction blks as [| blk blks IH]; intros st Hst H; simpl.
  - exact Hst.
  - apply IH; [| intros b Hb; apply H; right; exact Hb].
    simpl. apply Forall2_app; [exact Hst |].
    destruct (H blk (or_introl eq_refl)) as [Hbf Htx].
    clear -Hbf Htx. induction (transactions blk) as [| tx txs IHt]; simpl;
      constructor.
    + destruct (Htx tx (or_introl eq_refl)) as [H2 H0].
      apply from_wei_gwei_le, tip_le_effective; assumption.
    + apply IHt. intros tx' Hin. apply Htx. right. exact Hin.
Qed.

(** X13.  When every fetched block has a base fee that is not negative,
    every type-2 transaction a priority fee within its fee cap and every
    other transaction a gas price that is not negative, each statistic of
    the tip bucket of a returned profile is at most the same statistic of the
    effective-price bucket. *)
Theorem tip_bucket_below_price_bucket (w3 : Web3) (t0 t1 : float)
  (blocks step : Z) (head_override : option Z) (r : FeeProfile) :
  (forall n blk, get_block w3 n true = Ok blk ->
     0 <= block_base_fee blk /\
     forall tx, In tx (transactions blk) ->
       (type_of tx = 2 -> priority_fee_of tx <= max_fee_of tx) /\
       (type_of tx <> 2 -> 0 <= gas_price_of tx)) ->
  analyze_fees w3 t0 t1 blocks step head_override = Ok r ->
  (b_min (tipGweiApprox r) <= b_min (effectivePriceGwei r))%Q /\
  (p50 (tipGweiApprox r) <= p50 (effectivePriceGwei r))%Q /\
  (p95 (tipGweiApprox r) <= p95 (effectivePriceGwei r))%Q /\
  (b_max (tipGweiApprox r) <= b_max (effectivePriceGwei r))%Q.
Proof.
  intros Hgw Hrun. apply analyze_fees_ok_inv in Hrun.
  destruct Hrun as (head & ns & blks & cid & _ & _ & Hf & _ & ->).
  cbn [tipGweiApprox effectivePriceGwei profile_of].
  apply bucket_of_pointwise. unfold collect.
  apply fold_add_block_pointwise; [constructor |].
  intros blk Hblk. destruct (fetch_all_In _ _ _ _ Hf Hblk) as (n & _ & Hn).
  apply (Hgw n blk Hn).
Qed.

Lemma tip_bucket_below_price_bucket_witness :
  exists r,
    analyze_fees demo_w3 0 1 5 2 (Some 10) = Ok r /\
    (p95 (tipGweiApprox r) <= p95 (effectivePriceGwei r))%Q.
Proof.
  assert (Hrun : analyze_fees demo_w3 0 1 5 2 (Some 10) =
                 Ok (profile_of demo_w3 0 1 5 2 10 1
                       [demo_block; demo_block; demo_block]))
    by reflexivity.
  eexists. split; [exact Hrun |].
  refine (proj1 (proj2 (proj2
    (tip_bucket_below_price_bucket demo_w3 0 1 5 2 (Some 10) _ _ Hrun)))).
  intros n blk Hblk. simpl in Hblk. injection Hblk as <-.
  split; [vm_compute; discriminate |].
  intros tx [<- | [<- | []]]; split; intros H; vm_compute; discriminate.
Defined.

(** ** Network names *)

Lemma str_of_int_parse (z : Z) :
  option_map Z.of_int (NilZero.int_of_string (str_of_int z)) = Some z.
Proof.
  unfold str_of_int. rewrite NilZero.isi.
  - simpl. f_equal. apply DecimalZ.of_to.
  - destruct z; simpl; try discriminate.
    intros [= H]. apply (DecimalPos.Unsigned.to_uint_nonnil _ H).
  - destruct z; simpl; try discriminate.
    intros [= H]. apply (DecimalPos.Unsigned.to_uint_nonnil _ H).
Qed.

Lemma str_of_int_inj (a b : Z) : str_of_int a = str_of_int b -> a = b.
Proof.
  intros H. pose proof (str_of_int_parse a) as Ha.
  rewrite H, str_of_int_parse in Ha. congruence.
Qed.

Lemma string_app_inv_head (p s1 s2 : string) :
  (p ++ s1 = p ++ s2)%string -> s1 = s2.
Proof.
  induction p as [| c p IH]; simpl; [auto |].
  intros [= H]. apply IH, H.
Qed.

Lemma string_length_app (s t : string) :
  String.length (s ++ t) = (String.length s + String.length t)%nat.
Proof. induction s as [| c s IH]; simpl; [reflexivity | rewrite IH; reflexivity]. Qed.

Lemma string_app_inv_tail (s1 s2 t : string) :
  (s1 ++ t = s2 ++ t)%string -> s1 = s2.
Proof.
  revert s2. induction s1 as [| c s1 IH]; intros [| c2 s2] H; simpl in H.
  - reflexivity.
  - apply (f_equal String.length) in H. simpl in H.
    rewrite string_length_app in H. lia.
  - apply (f_equal String.length) in H. simpl in H.
    rewrite string_length_app in H. lia.
  - injection H as -> H. f_equal. apply IH, H.
Qed.

Lemma dict_get_known {V : Type} (d : list (Z * V)) (k : Z) (v default : V) :
  NoDup (map fst d) -> In (k, v) d -> dict_get d k default = v.
Proof.
  induction d as [| [k' v'] d IH]; simpl; intros ND Hin; [destruct Hin |].
  inversion ND as [| ? ? Hnot ND']; subst.
  destruct Hin as [[= -> ->] | Hin].
  - rewrite Z.eqb_refl. reflexivity.
  - destruct (Z.eqb_spec k' k) as [-> | _]; [| apply IH; assumption].
    exfalso. apply Hnot. apply (in_map fst) in Hin. exact Hin.
Qed.

Lemma dict_get_unknown {V : Type} (d : list (Z * V)) (k : Z) (default : V) :
  ~ In k (map fst d) -> dict_get d k default = default.
Proof.
  induction d as [| [k' v'] d IH]; simpl; intros Hnot; [reflexivity |].
  destruct (Z.eqb_spec k' k) as [-> | _]; [exfalso; apply Hnot; left; reflexivity |].
  apply IH. intros Hin. apply Hnot. right. exact Hin.
Qed.

Lemma NETWORKS_NoDup : NoDup (map fst NETWORKS).
Proof.
  simpl. repeat constructor; simpl; intros H;
    repeat (destruct H as [H | H]; [discriminate |]); exact H.
Qed.

Lemma NETWORKS_names_distinct (a b : Z) (name : string) :
  In (a, name) NETWORKS -> In (b, name) NETWORKS -> a = b.
Proof.
  simpl. intros Ha Hb.
  repeat (destruct Ha as [Ha | Ha]; [| try contradiction]);
    repeat (destruct Hb as [Hb | Hb]; [| try contradiction]);
    congruence.
Qed.

(** No table name starts with the letter of ["Unknown"]. *)
Lemma NETWORKS_names_known (cid : Z) (name : string) :
  In (cid, name) NETWORKS ->
  exists c s, name = String c s /\ c <> Ascii.ascii_of_nat 85.
Proof.
  simpl. intros H.
  repeat (destruct H as [H | H]; [injection H as <- <-; do 2 eexists;
                                   split; [reflexivity | discriminate] |]).
  destruct H.
Qed.

Lemma network_name_dec (cid : Z) :
  (exists name, In (cid, name) NETWORKS /\ network_name cid = name) \/
  (~ In cid (map fst NETWORKS) /\
   network_name cid = ("Unknown (chain ID " ++ str_of_int cid ++ ")")%string).
Proof.
  destruct (in_dec Z.eq_dec cid (map fst NETWORKS)) as [Hin | Hnot].
  - left. apply in_map_iff in Hin. destruct Hin as ([k name] & Hk & Hin).
    simpl in Hk. subst k. exists name. split; [exact Hin |].
    apply dict_get_known; [apply NETWORKS_NoDup | exact Hin].
  - right. split; [exact Hnot |]. apply dict_get_unknown, Hnot.
Qed.

(** X14.  [network_name] returns the table's name for each of the seven
    listed chain ids and ["Unknown (chain ID <id>)"], with the id in decimal,
    for every other id; no two chain ids share a name. *)
Theorem network_name_lookup :
  (forall cid name, In (cid, name) NETWORKS -> network_name cid = name) /\
  (forall cid, ~ In cid (map fst NETWORKS) ->
     network_name cid =
       ("Unknown (chain ID " ++ str_of_int cid ++ ")")%string /\
     option_map Z.of_int (NilZero.int_of_string (str_of_int cid)) = Some cid) /\
  (forall a b, network_name a = network_name b -> a = b).
Proof.
  split; [| split].
  - intros cid name Hin.
    apply dict_get_known; [apply NETWORKS_NoDup | exact Hin].
  - intros cid Hnot. split; [apply dict_get_unknown, Hnot |].
    apply str_of_int_parse.
  - intros a b H.
    destruct (network_name_dec a) as [(na & Ha & Ea) | [_ Ea]];
      destruct (network_name_dec b) as [(nb & Hb & Eb) | [_ Eb]];
      rewrite Ea, Eb in H.
    + rewrite <- H in Hb. apply (NETWORKS_names_distinct a b na Ha Hb).
    + apply NETWORKS_names_known in Ha. destruct Ha as (c & s & E & Hc).
      rewrite E in H. simpl in H. injection H as Hu _. exfalso. apply Hc, Hu.
    + apply NETWORKS_names_known in Hb. destruct Hb as (c & s & E & Hc).
      rewrite E in H. simpl in H. injection H as Hu _. exfalso.
      apply Hc. symmetry. exact Hu.
    + apply string_app_inv_head, string_app_inv_tail in H.
      apply str_of_int_inj, H.
Qed.

(** ** The requests of a run *)

Lemma snd_io_bind {A B : Type} (m : io A) (k : A -> io B) :
  snd (io_bind m k) = bind (snd m) (fun a => snd (k a)).
Proof.
  destruct m as [l [a | e]]; simpl; [| reflexivity].
  destruct (k a); reflexivity.
Qed.

Lemma fst_io_bind {A B : Type} (m : io A) (k : A -> io B) :
  fst (io_bind m k) =
  fst m ++ match snd m with Ok a => fst (k a) | Raise _ => [] end.
Proof.
  destruct m as [l [a | e]]; simpl; [| rewrite app_nil_r; reflexivity].
  destruct (k a); reflexivity.
Qed.

Lemma sample_block_io_snd (w3 : Web3) (st : Samples) (n : Z) :
  snd (sample_block_io w3 st n) = sample_block w3 st n.
Proof.
  unfold sample_block_io, sample_block. rewrite snd_io_bind. simpl.
  destruct (get_block w3 n true) as [blk | e]; simpl; [| reflexivity].
  destruct (sample_block_fees blk (block_base_fee blk)); reflexivity.
Qed.

Lemma sample_block_io_fst (w3 : Web3) (st : Samples) (n : Z) :
  fst (sample_block_io w3 st n) = [CallGetBlock n true].
Proof.
  unfold sample_block_io. rewrite fst_io_bind. simpl.
  destruct (get_block w3 n true) as [blk | e]; simpl; [| reflexivity].
  destruct (sample_block_fees blk (block_base_fee blk)); reflexivity.
Qed.

Lemma for_each_io_snd (w3 : Web3) (ns : list Z) (st : Samples) :
  snd (for_each_io (sample_block_io w3) ns st) =
  for_each (sample_block w3) ns st.
Proof.
  revert st. induction ns as [| n ns IH]; intros st; simpl; [reflexivity |].
  rewrite snd_io_bind, sample_block_io_snd.
  destruct (sample_block w3 st n); simpl; [apply IH | reflexivity].
Qed.

Lemma for_each_io_fst (w3 : Web3) (ns : list Z) (st : Samples) :
  fst (for_each_io (sample_block_io w3) ns st) =
  map (fun n => CallGetBlock n true) (attempted w3 ns).
Proof.
  revert st. induction ns as [| n ns IH]; intros st; simpl; [reflexivity |].
  rewrite fst_io_bind, sample_block_io_fst, sample_block_io_snd,
    sample_block_eq. simpl. f_equal.
  destruct (get_block w3 n true) as [blk | e]; simpl; [apply IH | reflexivity].
Qed.

Lemma avg_block_time_io_snd (w3 : Web3) (head start_block : Z) :
  snd (avg_block_time_io w3 head start_block) =
  avg_block_time_of w3 head start_block.
Proof.
  unfold avg_block_time_io, avg_block_time_of.
  rewrite snd_io_bind. unfold rpc_get_block at 1. cbn [snd].
  destruct (get_block w3 head false) as [nb |]; cbn [bind]; [| reflexivity].
  rewrite snd_io_bind. unfold rpc_get_block at 1. cbn [snd].
  destruct (get_block w3 start_block false) as [ob |]; cbn [bind];
    [| reflexivity].
  rewrite snd_io_bind. unfold io_lift at 1. cbn [snd].
  destruct (block_timestamp nb); cbn [bind]; [| reflexivity].
  rewrite snd_io_bind. unfold io_lift at 1. cbn [snd].
  destruct (block_timestamp ob); reflexivity.
Qed.

Lemma avg_block_time_io_fst (w3 : Web3) (head start_block : Z) :
  fst (avg_block_time_io w3 head start_block) =
  CallGetBlock head false ::
  match get_block w3 head false with
  | Ok _ => [CallGetBlock start_block false]
  | Raise _ => []
  end.
Proof.
  unfold avg_block_time_io.
  rewrite fst_io_bind. unfold rpc_get_block at 1 2. cbn [fst snd app]. f_equal.
  destruct (get_block w3 head false) as [nb |]; [| reflexivity].
  rewrite fst_io_bind. unfold rpc_get_block at 1 2. cbn [fst snd app]. f_equal.
  destruct (get_block w3 start_block false) as [ob |]; [| reflexivity].
  rewrite fst_io_bind. unfold io_lift at 1 2. cbn [fst snd app].
  destruct (block_timestamp nb); [| reflexivity].
  rewrite fst_io_bind. unfold io_lift at 1 2. cbn [fst snd app].
  destruct (block_timestamp ob); reflexivity.
Qed.

(** The recorded run returns what [analyze_fees] returns. *)
Lemma analyze_fees_io_snd (w3 : Web3) (t0 t1 : Q) (blocks step : Z)
  (head_override : option Z) :
  snd (analyze_fees_io w3 t0 t1 blocks step head_override) =
  analyze_fees w3 t0 t1 blocks step head_override.
Proof.
  unfold analyze_fees_io, analyze_fees.
  rewrite snd_io_bind.
  destruct head_override as [head |];
    [cbn [snd io_ret bind]
    | unfold rpc_block_number at 1; cbn [snd];
      destruct (block_number w3) as [head | e]; cbn [bind]; [| reflexivity]].
  all: rewrite snd_io_bind; unfold io_lift at 1; cbn [snd].
  all: destruct (py_range head (Z.max 0 (head - blocks + 1) - 1) (- step))
         as [ns | e]; cbn [bind]; [| reflexivity].
  all: rewrite snd_io_bind, for_each_io_snd.
  all: destruct (for_each (sample_block w3) ns _) as [st | e]; cbn [bind];
         [| reflexivity].
  all: rewrite snd_io_bind.
  all: destruct (sampled_blocks st =? 0);
         [cbn [snd io_ret bind]
         | unfold io_try at 1; cbn [snd bind]; rewrite avg_block_time_io_snd].
  all: rewrite snd_io_bind; unfold rpc_chain_id at 1; cbn [snd].
  all: destruct (chain_id w3) as [cid | e]; cbn [bind]; [| reflexivity].
  all: rewrite !stats_bucket_eq; reflexivity.
Qed.

Lemma attempted_prefix (w3 : Web3) (ns : list Z) :
  exists post, ns = attempted w3 ns ++ post.
Proof.
  induction ns as [| n ns [post IH]]; simpl; [exists []; reflexivity |].
  destruct (get_block w3 n true).
  - exists post. simpl. f_equal. exact IH.
  - exists ns. reflexivity.
Qed.

Lemma attempted_ok (w3 : Web3) (ns : list Z) (blks : list Block) :
  fetch_all w3 ns = Ok blks -> attempted w3 ns = ns.
Proof.
  revert blks. induction ns as [| n ns IH]; intros blks; simpl; [reflexivity |].
  destruct (get_block w3 n true); simpl; [| discriminate].
  destruct (fetch_all w3 ns) as [bs |]; simpl; [| discriminate].
  intros _. f_equal. apply (IH bs). reflexivity.
Qed.

Lemma attempted_raise (w3 : Web3) (ns : list Z) (e : exn) :
  fetch_all w3 ns = Raise e ->
  exists pre n, attempted w3 ns = pre ++ [n] /\ get_block w3 n true = Raise e.
Proof.
  induction ns as [| n ns IH]; simpl; [discriminate |].
  destruct (get_block w3 n true) as [blk | e'] eqn:E; simpl.
  - destruct (fetch_all w3 ns) as [bs | e'']; simpl; [discriminate |].
    intros [= ->]. destruct (IH eq_refl) as (pre & m & -> & Hm).
    exists (n :: pre), m. split; [reflexivity | exact Hm].
  - intros [= ->]. exists [], n. split; [reflexivity | exact E].
Qed.

Lemma full_fetches_app (l1 l2 : list rpc_call) :
  full_fetches (l1 ++ l2) = full_fetches l1 ++ full_fetches l2.
Proof.
  induction l1 as [| c l1 IH]; simpl; [reflexivity |].
  destruct c as [| | | n [|]]; simpl; rewrite IH; reflexivity.
Qed.

Lemma full_fetches_map (ns : list Z) :
  full_fetches (map (fun n => CallGetBlock n true) ns) = ns.
Proof. induction ns as [| n ns IH]; simpl; [| rewrite IH]; reflexivity. Qed.

(** The requests of a run, in order. *)
Lemma analyze_fees_io_fst (w3 : Web3) (t0 t1 : Q) (blocks step : Z)
  (head_override : option Z) :
  fst (analyze_fees_io w3 t0 t1 blocks step head_override) =
  match head_override with Some _ => [] | None => [CallBlockNumber] end ++
  match resolve_head w3 head_override with
  | Raise _ => []
  | Ok head =>
      let start_block := Z.max 0 (head - blocks + 1) in
      match py_range head (start_block - 1) (- step) with
      | Raise _ => []
      | Ok ns =>
          map (fun n => CallGetBlock n true) (attempted w3 ns) ++
          match fetch_all w3 ns with
          | Raise _ => []
          | Ok blks =>
              (if sampled_blocks (collect blks) =? 0 then []
               else CallGetBlock head false ::
                    match get_block w3 head false with
                    | Ok _ => [CallGetBlock start_block false]
                    | Raise _ => []
                    end) ++ [CallChainId]
          end
      end
  end.
Proof.
  unfold analyze_fees_io, resolve_head.
  rewrite fst_io_bind.
  destruct head_override as [head |];
    [cbn [fst snd io_ret app]
    | unfold rpc_block_number at 1 2; cbn [fst snd]; f_equal;
      destruct (block_number w3) as [head | e]; [| reflexivity]].
  all: rewrite fst_io_bind; unfold io_lift at 1 2; cbn [fst snd app].
  all: destruct (py_range head (Z.max 0 (head - blocks + 1) - 1) (- step))
         as [ns | e]; [| reflexivity].
  all: rewrite fst_io_bind, for_each_io_fst, for_each_io_snd, for_each_eq.
  all: cbv zeta; f_equal.
  all: destruct (fetch_all w3 ns) as [blks | e]; cbn [bind]; [| reflexivity].
  all: fold no_samples; fold (collect blks).
  all: rewrite fst_io_bind.
  all: destruct (sampled_blocks (collect blks) =? 0);
         [cbn [fst snd io_ret app]
         | unfold io_try at 1 2; cbn [fst snd]; rewrite avg_block_time_io_fst;
           f_equal].
  all: rewrite fst_io_bind; unfold rpc_chain_id at 1 2; cbn [fst snd].
  all: destruct (chain_id w3) as [cid | e]; [| reflexivity].
  all: rewrite !fst_io_bind; unfold io_lift; cbn [fst snd app];
       rewrite !stats_bucket_eq; cbn [fst snd app io_ret];
       rewrite ?app_nil_r; reflexivity.
Qed.

Lemma In_full_fetches (calls : list rpc_call) (n : Z) :
  In (CallGetBlock n true) calls <-> In n (full_fetches calls).
Proof.
  induction calls as [| c calls IH]; simpl; [tauto |].
  destruct c as [| | | m [|]]; simpl; rewrite <- IH.
  - split; [intros [H | H]; [discriminate H | exact H] | auto].
  - split; [intros [H | H]; [discriminate H | exact H] | auto].
  - split; [intros [H | H]; [discriminate H | exact H] | auto].
  - split; intros [H | H]; auto.
    + injection H as ->. left. reflexivity.
    + subst m. left. reflexivity.
  - split; [intros [H | H]; [discriminate H | exact H] | auto].
Qed.

Lemma attempted_In (w3 : Web3) (ns : list Z) (n : Z) :
  In n (attempted w3 ns) -> In n ns.
Proof.
  destruct (attempted_prefix w3 ns) as [post E]. intros H.
  rewrite E. apply in_or_app. left. exact H.
Qed.

Lemma attempted_NoDup (w3 : Web3) (ns : list Z) :
  NoDup ns -> NoDup (attempted w3 ns).
Proof.
  destruct (attempted_prefix w3 ns) as [post E]. intros H.
  rewrite E in H. apply NoDup_app_remove_r in H. exact H.
Qed.

Lemma attempted_length (w3 : Web3) (ns : list Z) :
  (length (attempted w3 ns) <= length ns)%nat.
Proof.
  destruct (attempted_prefix w3 ns) as [post E].
  rewrite E at 2. rewrite length_app. lia.
Qed.

(** X15.  The requests of a run of [analyze_fees] with a positive step: the
    recorded run returns what [analyze_fees] returns; the blocks requested
    with full transactions are blocks of the walk (between [startBlock] and
    [head], at a multiple of [step] below [head]), each requested once, and
    as many as [sampledBlocks] when the run returns; a header is requested
    only for [head] and [startBlock]; the endpoint is never asked whether it
    is connected; and there are at most four requests beyond the blocks of
    the walk. *)
Theorem rpc_request_discipline (w3 : Web3) (t0 t1 : float)
  (blocks step head : Z) (head_override : option Z) :
  resolve_head w3 head_override = Ok head -> 0 < step ->
  let start_block := Z.max 0 (head - blocks + 1) in
  let calls := fst (analyze_fees_io w3 t0 t1 blocks step head_override) in
  snd (analyze_fees_io w3 t0 t1 blocks step head_override) =
    analyze_fees w3 t0 t1 blocks step head_override /\
  (forall n, In (CallGetBlock n true) calls ->
     start_block <= n <= head /\ (head - n) mod step = 0) /\
  NoDup (full_fetches calls) /\
  (forall n, In (CallGetBlock n false) calls -> n = head \/ n = start_block) /\
  ~ In CallIsConnected calls /\
  (length calls <= length (walk head start_block step) + 4)%nat /\
  (forall r, analyze_fees w3 t0 t1 blocks step head_override = Ok r ->
     Z.of_nat (length (full_fetches calls)) = sampledBlocks r).
Proof.
  intros Hres Hs start_block calls.
  split; [apply analyze_fees_io_snd |].
  assert (Ecalls : exists pre tail,
             calls = pre ++ map (fun n => CallGetBlock n true)
                              (attempted w3 (walk head start_block step)) ++ tail /\
             (pre = [] \/ pre = [CallBlockNumber]) /\
             (forall c, In c tail ->
                c = CallGetBlock head false \/ c = CallGetBlock start_block false \/
                c = CallChainId) /\
             (length tail <= 3)%nat).
  { unfold calls. rewrite analyze_fees_io_fst, Hres. cbv zeta.
    fold start_block. rewrite py_range_walk by exact Hs.
    eexists. eexists. split; [reflexivity |].
    split; [destruct head_override; auto |].
    destruct (fetch_all w3 (walk head start_block step)) as [blks |];
      [| split; [intros c [] | simpl; lia]].
    destruct (sampled_blocks (collect blks) =? 0);
      [split; [intros c [<- | []]; auto | simpl; lia] |].
    destruct (get_block w3 head false); simpl;
      (split; [intros c Hc; repeat (destruct Hc as [<- | Hc]; auto);
               destruct Hc | lia]). }
  destruct Ecalls as (pre & tail & E & Hpre & Htail & Hlen).
  assert (Eff : full_fetches calls = attempted w3 (walk head start_block step)).
  { rewrite E, !full_fetches_app, full_fetches_map.
    assert (Hp : full_fetches pre = [])
      by (destruct Hpre as [-> | ->]; reflexivity).
    assert (Ht : full_fetches tail = []).
    { clear -Htail. induction tail as [| c tail IH]; [reflexivity |].
      assert (Hc := Htail c (or_introl eq_refl)).
      assert (IH' := IH (fun c' H => Htail c' (or_intror H))).
      destruct Hc as [-> | [-> | ->]]; simpl; exact IH'. }
    rewrite Hp, Ht, app_nil_r. reflexivity. }
  split; [| split; [| split; [| split; [| split]]]].
  - intros n Hin. apply In_full_fetches in Hin. rewrite Eff in Hin.
    apply attempted_In in Hin. apply walk_In_iff in Hin; assumption.
  - rewrite Eff. apply attempted_NoDup, descending_NoDup, walk_descending, Hs.
  - intros n Hin. rewrite E in Hin.
    apply in_app_or in Hin. destruct Hin as [Hin | Hin].
    + destruct Hpre as [-> | ->]; [destruct Hin |].
      destruct Hin as [H | []]. discriminate H.
    + apply in_app_or in Hin. destruct Hin as [Hin | Hin].
      * apply in_map_iff in Hin. destruct Hin as (m & H & _). discriminate H.
      * destruct (Htail _ Hin) as [H | [H | H]];
          [injection H as ->; left | injection H as ->; right | discriminate H];
          reflexivity.
  - intros Hin. rewrite E in Hin.
    apply in_app_or in Hin. destruct Hin as [Hin | Hin].
    + destruct Hpre as [-> | ->]; [destruct Hin |].
      destruct Hin as [H | []]. discriminate H.
    + apply in_app_or in Hin. destruct Hin as [Hin | Hin].
      * apply in_map_iff in Hin. destruct Hin as (m & H & _). discriminate H.
      * destruct (Htail _ Hin) as [H | [H | H]]; discriminate H.
  - rewrite E, !length_app, length_map.
    pose proof (attempted_length w3 (walk head start_block step)).
    assert (length pre <= 1)%nat by (destruct Hpre as [-> | ->]; simpl; lia).
    lia.
  - intros r Hrun. rewrite Eff. unfold start_block.
    destruct (analyze_fees_walk_inv _ _ _ _ _ _ _ _ Hres Hs Hrun)
      as (blks & cid & Hf & _ & ->).
    rewrite (attempted_ok _ _ _ Hf). cbn [sampledBlocks profile_of].
    destruct (collect_counts blks) as (-> & _ & _).
    rewrite (fetch_all_length _ _ _ Hf). reflexivity.
Qed.

Lemma rpc_request_discipline_witness :
  fst (analyze_fees_io (timeout_at 6) 0 1 5 2 None) =
    [CallBlockNumber; CallGetBlock 10 true; CallGetBlock 8 true;
     CallGetBlock 6 true] /\
  NoDup (full_fetches (fst (analyze_fees_io (timeout_at 6) 0 1 5 2 None))).
Proof.
  split; [reflexivity |].
  refine (proj1 (proj2 (proj2
    (rpc_request_discipline (timeout_at 6) 0 1 5 2 10 None eq_refl _)))).
  lia.
Defined.

(** Where the list of requests of a run ends. *)
Lemma analyze_fees_io_last_call (w3 : Web3) (t0 t1 : float) (blocks step : Z)
  (head_override : option Z) :
  step <> 0 ->
  let calls := fst (analyze_fees_io w3 t0 t1 blocks step head_override) in
  (forall e, analyze_fees w3 t0 t1 blocks step head_override = Raise e ->
     exists pre c, calls = pre ++ [c] /\ rpc_fails w3 c e) /\
  (forall r, analyze_fees w3 t0 t1 blocks step head_override = Ok r ->
     exists pre, calls = pre ++ [CallChainId]).
Proof.
  intros Hs calls. unfold calls. rewrite analyze_fees_io_fst.
  rewrite analyze_fees_eq.
  destruct (resolve_head w3 head_override) as [head | e0] eqn:Hh; cbn [bind].
  - cbv zeta.
    destruct (py_range head (Z.max 0 (head - blocks + 1) - 1) (- step))
      as [ns | e1] eqn:Hns; cbn [bind].
    + destruct (fetch_all w3 ns) as [blks | e2] eqn:Hf; cbn [bind].
      * destruct (chain_id w3) as [cid | e3] eqn:Hc; cbn [bind]; split.
        -- intros e [=].
        -- intros r _. eexists. rewrite !app_assoc. reflexivity.
        -- intros e [= <-]. eexists. exists CallChainId.
           split; [rewrite !app_assoc; reflexivity | exact Hc].
        -- intros r [=].
      * split; [| intros r [=]]. intros e [= <-].
        destruct (attempted_raise _ _ _ Hf) as (pre & n & -> & Hn).
        eexists. exists (CallGetBlock n true).
        split; [| exact Hn].
        rewrite map_app, app_nil_r. simpl. rewrite app_assoc. reflexivity.
    + exfalso. unfold py_range in Hns.
      destruct (- step =? 0) eqn:E; [apply Z.eqb_eq in E; lia | discriminate].
  - split; [| intros r [=]]. intros e [= <-].
    destruct head_override as [h |]; [discriminate |]. simpl in Hh.
    exists [], CallBlockNumber. split; [reflexivity | exact Hh].
Qed.

(** X16.  On an endpoint that keeps the contract on amounts, a run of
    [analyze_fees] with a non-zero step that raises stops at the request
    that failed: that request is the last one sent, and its exception is
    the one raised.  A run that returns ends with the chain-id request. *)
Theorem rpc_fail_fast (w3 : Web3) (t0 t1 : float) (blocks step : Z)
  (head_override : option Z) :
  amounts_ok w3 -> step <> 0 ->
  let calls := fst (analyze_fees_io w3 t0 t1 blocks step head_override) in
  (forall e, analyze_fees w3 t0 t1 blocks step head_override = Raise e ->
     exists pre c, calls = pre ++ [c] /\ rpc_fails w3 c e) /\
  (forall r, analyze_fees w3 t0 t1 blocks step head_override = Ok r ->
     exists pre, calls = pre ++ [CallChainId]).
Proof.
  intros Hamounts Hs. apply analyze_fees_io_last_call, Hs.
Qed.

Lemma rpc_fail_fast_witness :
  amounts_ok (timeout_at 6) /\
  exists pre,
    fst (analyze_fees_io (timeout_at 6) 0 1 5 2 None) =
      pre ++ [CallGetBlock 6 true] /\
    analyze_fees (timeout_at 6) 0 1 5 2 None = Raise (RpcError "timeout").
Proof.
  pose proof (timeout_at_amounts_ok 6) as Hamounts.
  split; [exact Hamounts |].
  assert (Hs : 2 <> 0) by lia.
  destruct (rpc_fail_fast (timeout_at 6) 0 1 5 2 None Hamounts Hs)
    as [Hfail _].
  destruct (Hfail (RpcError "timeout") eq_refl) as (pre & c & E & Hc).
  exists [CallBlockNumber; CallGetBlock 10 true; CallGetBlock 8 true].
  split; reflexivity.
Defined.

(** ** [main] *)

Lemma connect_io_spec (net : string -> Endpoint) (rpc : string) :
  (is_connected (net rpc) = false /\
   connect_io net rpc = ([CallIsConnected], None)) \/
  (is_connected (net rpc) = true /\
   exists info,
     connect_io net rpc = (CallIsConnected :: info, Some (eth (net rpc))) /\
     (info = [CallChainId] \/ info = [CallChainId; CallBlockNumber])).
Proof.
  unfold connect_io. destruct (is_connected (net rpc)); simpl.
  - right. split; [reflexivity |]. eexists. split; [reflexivity |].
    unfold io_try, rpc_chain_id, rpc_block_number, io_bind, io_ret.
    destruct (chain_id (eth (net rpc))); [| left; reflexivity].
    destruct (block_number (eth (net rpc))); right; reflexivity.
  - left. split; reflexivity.
Qed.

Lemma walk_length_le (head blocks step : Z) :
  0 < blocks -> 0 < step ->
  Z.of_nat (length (walk head (Z.max 0 (head - blocks + 1)) step)) <= blocks.
Proof.
  intros Hb Hs.
  destruct (Z_lt_le_dec head (Z.max 0 (head - blocks + 1))) as [L | G].
  - rewrite walk_nil by assumption. simpl. lia.
  - rewrite walk_length by assumption.
    pose proof (ceil_div_bounds (head - Z.max 0 (head - blocks + 1) + 1) step Hs).
    lia.
Qed.

Lemma main_io_cases (net : string -> Endpoint) (args : Args.t)
  (t0 t1 : Q) (generatedAtUtc : string) :
  let run := main_io net args t0 t1 generatedAtUtc in
  let w3 := eth (net (Args.rpc args)) in
  let fees := analyze_fees_io w3 t0 t1 (Args.blocks args) (Args.step args)
                (Args.head args) in
  ((Args.blocks args <= 0 \/ Args.step args <= 0) /\ run = ([], SysExit 1)) \/
  (0 < Args.blocks args /\ 0 < Args.step args /\
   is_connected (net (Args.rpc args)) = false /\
   run = ([CallIsConnected], SysExit 1)) \/
  (0 < Args.blocks args /\ 0 < Args.step args /\
   is_connected (net (Args.rpc args)) = true /\
   exists info,
     (info = [CallChainId] \/ info = [CallChainId; CallBlockNumber]) /\
     run =
       ((CallIsConnected :: info) ++ fst fees,
        match snd fees with
        | Raise e => Uncaught e
        | Ok result =>
            Completed
              ((if Args.pretty args || Args.json args then []
                else [HumanSummary result]) ++
               [JsonDocument (Args.pretty args) generatedAtUtc result])
        end)).
Proof.
  intros run w3 fees. unfold run, main_io.
  destruct (Z.leb_spec (Args.blocks args) 0) as [Hb | Hb]; cbn [orb];
    [left; split; [left; exact Hb | reflexivity] |].
  destruct (Z.leb_spec (Args.step args) 0) as [Hs | Hs];
    [left; split; [right; exact Hs | reflexivity] |].
  right.
  destruct (connect_io_spec net (Args.rpc args))
    as [[Hc ->] | (Hc & info & -> & Hinfo)].
  - left. repeat split; assumption.
  - right. repeat (split; [assumption |]). exists info. split; [exact Hinfo |].
    fold w3. fold fees. destruct fees as [calls' [result | e]]; cbn [fst snd];
      [| reflexivity].
    destruct (Args.pretty args), (Args.json args); reflexivity.
Qed.

(** X17.  [main] ends with an exit status in four cases only: with status
    0 or 2 when argparse ends the process on the command line (help, or a
    malformed command line), no request sent; with status 1 when the block
    count or the step is not positive, before any request is sent; and with
    status 1 when the endpoint is not connected, after the connection test
    alone.  With a parsed command line, valid arguments and a connected
    endpoint it goes on to the fee analysis, also when the
    chain-information queries of [connect] fail. *)
Theorem main_rejects (net : string -> Endpoint) (parse_args : parse_outcome)
  (t0 t1 : float) (generatedAtUtc : string) :
  let run := main net parse_args t0 t1 generatedAtUtc in
  (parse_args = ParseHelp -> run = ([], SysExit 0)) /\
  (parse_args = ParseError -> run = ([], SysExit 2)) /\
  (forall args, parse_args = Parsed args ->
     (Args.blocks args <= 0 \/ Args.step args <= 0 -> run = ([], SysExit 1)) /\
     (0 < Args.blocks args -> 0 < Args.step args ->
      is_connected (net (Args.rpc args)) = false ->
      run = ([CallIsConnected], SysExit 1)) /\
     (0 < Args.blocks args -> 0 < Args.step args ->
      is_connected (net (Args.rpc args)) = true ->
      (exists calls, fst run = CallIsConnected :: CallChainId :: calls) /\
      forall code, snd run <> SysExit code)) /\
  (forall code, snd run = SysExit code ->
     (code = 0 /\ parse_args = ParseHelp) \/
     (code = 2 /\ parse_args = ParseError) \/
     (code = 1 /\
      exists args, parse_args = Parsed args /\
        (Args.blocks args <= 0 \/ Args.step args <= 0 \/
         is_connected (net (Args.rpc args)) = false))).
Proof.
  intros run. unfold run.
  destruct parse_args as [| | args]; cbn [main].
  - split; [reflexivity |]. split; [discriminate |].
    split; [discriminate |].
    intros code [= <-]. left. split; reflexivity.
  - split; [discriminate |]. split; [reflexivity |].
    split; [discriminate |].
    intros code [= <-]. right. left. split; reflexivity.
  - split; [discriminate |]. split; [discriminate |].
    destruct (main_io_cases net args t0 t1 generatedAtUtc)
      as [[Hbad E] | [(Hb & Hs & Hc & E) | (Hb & Hs & Hc & info & Hinfo & E)]].
    + split.
      * intros a [= <-].
        split; [intros _; exact E |].
        split; intros; exfalso; lia.
      * intros code H. rewrite E in H. injection H as <-.
        right. right. split; [reflexivity |]. exists args.
        split; [reflexivity | tauto].
    + split.
      * intros a [= <-].
        split; [intros; exfalso; lia |].
        split; [intros _ _ _; exact E | intros _ _ H; congruence].
      * intros code H. rewrite E in H. injection H as <-.
        right. right. split; [reflexivity |]. exists args.
        split; [reflexivity | tauto].
    + split.
      * intros a [= <-].
        split; [intros; exfalso; lia |].
        split; [intros _ _ H; congruence |].
        intros _ _ _. rewrite E. cbn [fst snd]. split.
        -- destruct Hinfo as [-> | ->]; eexists; reflexivity.
        -- intros code H.
           destruct (snd (analyze_fees_io _ _ _ _ _ _)); discriminate H.
      * intros code H. rewrite E in H. cbn [snd] in H.
        destruct (snd (analyze_fees_io _ _ _ _ _ _)); discriminate H.
Qed.

(** X18.  When [main] completes, the block count and the step were positive
    and the endpoint connected; the last thing printed is the one JSON
    document, whose data is the result of [analyze_fees] for the command
    line; it is indented exactly under [--pretty], and the human summary
    precedes it exactly when neither [--pretty] nor [--json] is given.  The
    printed result reports between 0 and [blocks] sampled blocks. *)
Theorem main_completes (net : string -> Endpoint) (args : Args.t)
  (t0 t1 : float) (generatedAtUtc : string) (stdout : list stdout_item) :
  snd (main_io net args t0 t1 generatedAtUtc) = Completed stdout ->
  0 < Args.blocks args /\ 0 < Args.step args /\
  is_connected (net (Args.rpc args)) = true /\
  exists result,
    analyze_fees (eth (net (Args.rpc args))) t0 t1
      (Args.blocks args) (Args.step args) (Args.head args) = Ok result /\
    stdout =
      (if Args.pretty args || Args.json args then []
       else [HumanSummary result]) ++
      [JsonDocument (Args.pretty args) generatedAtUtc result] /\
    0 <= sampledBlocks result <= Args.blocks args /\
    blockSpan result = Args.blocks args /\
    step result = Args.step args.
Proof.
  destruct (main_io_cases net args t0 t1 generatedAtUtc)
    as [[Hbad ->] | [(Hb & Hs & Hc & ->) | (Hb & Hs & Hc & info & Hinfo & ->)]];
    [intros [=] | intros [=] |].
  cbn [snd]. rewrite analyze_fees_io_snd.
  destruct (analyze_fees _ _ _ _ _ _) as [result | e] eqn:Hrun; [| intros [=]].
  intros [= <-]. repeat (split; [assumption |]).
  exists result. split; [reflexivity |]. split; [reflexivity |].
  apply analyze_fees_ok_inv in Hrun.
  destruct Hrun as (head & ns & blks & cid & _ & Hns & Hf & _ & ->).
  rewrite py_range_walk in Hns by exact Hs. injection Hns as <-.
  cbn [sampledBlocks blockSpan step profile_of].
  destruct (collect_counts blks) as (-> & _ & _).
  rewrite (fetch_all_length _ _ _ Hf).
  pose proof (walk_length_le head (Args.blocks args) (Args.step args) Hb Hs).
  repeat split; lia.
Qed.

Lemma main_completes_witness :
  exists result,
    snd (main_io demo_net demo_args 0 1 "2026-01-01 00:00:00") =
      Completed [JsonDocument false "2026-01-01 00:00:00" result] /\
    sampledBlocks result = 3.
Proof.
  eexists. split; [reflexivity |].
  destruct (main_completes demo_net demo_args 0 1 "2026-01-01 00:00:00" _
              eq_refl) as (_ & _ & _ & r & Hr & _).
  reflexivity.
Defined.



(** ** Further facts about the samples and the statistics *)

(** X20.  The samples of a block depend on its transactions only through
    the four fee fields with their defaults applied: a field that is absent
    (or [None]) counts as 0, an absent [type] as 0 (legacy), and it makes no
    difference whether a transaction comes as a dict or as an object. *)
Theorem samples_depend_on_defaulted_fields (block block' : Block) (bf : Z) :
  Forall2 (fun tx tx' =>
             type_of tx = type_of tx' /\
             gas_price_of tx = gas_price_of tx' /\
             priority_fee_of tx = priority_fee_of tx' /\
             max_fee_of tx = max_fee_of tx')
          (transactions block) (transactions block') ->
  sample_block_fees block bf = sample_block_fees block' bf.
Proof.
  intros F. rewrite !sample_block_fees_eq.
  induction F as [| tx tx' txs txs' (Ht & Hg & Hp & Hm) F IH]; [reflexivity |].
  simpl. injection IH as IH1 IH2.
  unfold effective_wei, tip_wei in *. rewrite Ht, Hg, Hp, Hm, IH1, IH2.
  reflexivity.
Qed.

Lemma samples_depend_on_defaulted_fields_witness :
  sample_block_fees
    {| baseFeePerGas := Some 80000000000; base_fee_per_gas := None;
       transactions := [demo_legacy]; timestamp := None |} 80000000000 =
  sample_block_fees
    {| baseFeePerGas := None; base_fee_per_gas := Some 1;
       transactions := [explicit_legacy]; timestamp := Some 5 |} 80000000000.
Proof.
  apply samples_depend_on_defaulted_fields. simpl.
  constructor; [| constructor]. repeat split.
Defined.

(** X21.  The bucket of a collection whose values are all equal to [x] is
    degenerate: [min], [p50], [p95] and [max] are all [round(x, 4)].  This is
    the base-fee bucket of every run that samples a single block. *)
Theorem constant_bucket (x : float) (V : list float) :
  V <> [] -> (forall y, In y V -> (y == x)%Q) ->
  exists b,
    stats_bucket V = Ok b /\
    b_min b = round_ndigits x 4 /\ p50 b = round_ndigits x 4 /\
    p95 b = round_ndigits x 4 /\ b_max b = round_ndigits x 4.
Proof.
  intros Hne Hall. exists (bucket_of V). split; [apply stats_bucket_eq |].
  destruct V as [| v l]; [congruence |]. set (V := v :: l) in *.
  assert (Hlen : (0 < length V)%nat) by (simpl; lia).
  assert (Hs : forall i, (i < length V)%nat -> (nth i (sorted V) 0 == x)%Q).
  { intros i Hi. apply Hall, sorted_In, nth_In. rewrite sorted_length. exact Hi. }
  destruct (min_from_spec l v) as [Hmin _].
  destruct (max_from_spec l v) as [Hmax _].
  pose proof (nearest_rank_index_range (length V) (Fin (95 # 100)) Hlen) as Hr.
  destruct (median_of_bounds (sorted V) (sorted_nonempty V Hne)
              (sorted_strongly V)) as [Hm1 Hm2].
  rewrite sorted_length in Hm2.
  assert (Hh : 0 <= Z.of_nat (length V) / 2 < Z.of_nat (length V))
    by (split; [apply Z.div_pos; lia | apply Z.div_lt; lia]).
  assert (Hmed : (median_of (sorted V) == x)%Q).
  { pose proof (Hs 0%nat Hlen) as E0.
    pose proof (Hs (Z.to_nat (Z.of_nat (length V) / 2)) ltac:(lia)) as E1.
    lra. }
  unfold bucket_of, V. fold V. cbn [b_min p50 p95 b_max].
  repeat split; apply round_ndigits_comp.
  - apply Hall, Hmin.
  - exact Hmed.
  - unfold nearest_rank. apply Hs. lia.
  - apply Hall, Hmax.
Qed.

Lemma constant_bucket_witness :
  exists r b,
    analyze_fees demo_w3 0 1 1 1 (Some 10) = Ok r /\
    baseFeeGwei r = b /\
    b_min b = round_ndigits 80 4 /\ b_max b = round_ndigits 80 4.
Proof.
  assert (Hne : [from_wei_gwei 80000000000] <> []) by discriminate.
  destruct (constant_bucket 80 [from_wei_gwei 80000000000] Hne)
    as (b & Hb & H1 & _ & _ & H4).
  - intros y [<- | []]. reflexivity.
  - eexists. exists b. split; [reflexivity |].
    split; [| split; assumption].
    vm_compute in Hb. injection Hb as <-. reflexivity.
Defined.

(** X22.  For a collection of odd length, [pct] at [q = 0.5] returns the
    median. *)
Theorem pct_half_is_median (V : list float) :
  Nat.odd (length V) = true ->
  exists v m,
    pct V (Fin (1 # 2)) = Ok v /\ median V = Ok m /\ v = m.
Proof.
  intros Hodd.
  assert (Hne : V <> []) by (intros ->; discriminate Hodd).
  rewrite pct_nonempty, median_nonempty by exact Hne.
  do 2 eexists. split; [reflexivity |]. split; [reflexivity |].
  unfold median_of. rewrite sorted_length.
  apply Nat.odd_spec in Hodd. destruct Hodd as [k Hk].
  assert (Hn : Z.of_nat (length V) = 2 * Z.of_nat k + 1) by lia.
  assert (Hmod : Z.of_nat (length V) mod 2 = 1).
  { rewrite Hn. rewrite Z.add_comm, Z.mul_comm, Z.mod_add by lia. reflexivity. }
  assert (Hdiv : Z.of_nat (length V) / 2 = Z.of_nat k).
  { rewrite Hn. rewrite Z.add_comm, Z.mul_comm, Z.div_add by lia. reflexivity. }
  rewrite Hmod. cbn [Z.eqb Pos.eqb]. rewrite Hdiv. do 2 f_equal.
  unfold nearest_rank_index.
  change (clamp01 (Fin (1 # 2))) with (1 # 2)%Q.
  rewrite <- (py_round_Z (Z.of_nat k)). apply py_round_comp.
  replace (Z.of_nat (length V) - 1) with (2 * Z.of_nat k) by lia.
  rewrite inject_Z_mult. change (inject_Z 2) with 2%Q. ring.
Qed.

Lemma pct_half_is_median_witness :
  pct [3; 1; 2]%Q (Fin (1 # 2)) = Ok 2%Q /\ median [3; 1; 2]%Q = Ok 2%Q.
Proof.
  destruct (pct_half_is_median [3; 1; 2]%Q eq_refl) as (v & m & Hv & Hm & E).
  split; reflexivity.
Defined.

(** ** Widening the span *)

Lemma ceil_div_mono (a b s : Z) : 0 < s -> a <= b -> ceil_div a s <= ceil_div b s.
Proof.
  intros Hs H. rewrite !ceil_div_Z by exact Hs.
  apply Z.div_le_mono; lia.
Qed.

Lemma walk_prefix (head s1 s2 step : Z) :
  0 < step -> s2 <= s1 ->
  exists extra, walk head s2 step = walk head s1 step ++ extra.
Proof.
  intros Hs H. unfold walk.
  pose proof (ceil_div_mono (head - s1 + 1) (head - s2 + 1) step Hs ltac:(lia))
    as Hc.
  set (k1 := Z.to_nat (ceil_div (head - s1 + 1) step)).
  set (k2 := Z.to_nat (ceil_div (head - s2 + 1) step)).
  assert (Hk : (k2 = k1 + (k2 - k1))%nat) by (unfold k1, k2; lia).
  rewrite Hk, seq_app, map_app. eexists. reflexivity.
Qed.

Lemma fetch_all_app (w3 : Web3) (l1 l2 : list Z) (blks : list Block) :
  fetch_all w3 (l1 ++ l2) = Ok blks ->
  exists b1 b2,
    fetch_all w3 l1 = Ok b1 /\ fetch_all w3 l2 = Ok b2 /\ blks = b1 ++ b2.
Proof.
  revert blks. induction l1 as [| n l1 IH]; intros blks; simpl.
  - intros H. exists [], blks. repeat split. exact H.
  - destruct (get_block w3 n true) as [blk |]; simpl; [| discriminate].
    destruct (fetch_all w3 (l1 ++ l2)) as [bs |] eqn:E; simpl; [| discriminate].
    intros [= <-]. destruct (IH bs eq_refl) as (b1 & b2 & -> & H2 & ->).
    exists (blk :: b1), b2. repeat split. exact H2.
Qed.

Lemma fold_add_block_grows (blks : list Block) (st : Samples) :
  let st' := fold_left add_block blks st in
  (length (basefees st) <= length (basefees st'))%nat /\
  (length (eff_prices st) <= length (eff_prices st'))%nat /\
  (length (tips st) <= length (tips st'))%nat /\
  sampled_blocks st <= sampled_blocks st'.
Proof.
  revert st. induction blks as [| blk blks IH]; intros st; simpl.
  - repeat split; lia.
  - destruct (IH (add_block st blk)) as (H1 & H2 & H3 & H4).
    simpl in H1, H2, H3, H4. rewrite !length_app in *. simpl in *.
    repeat split; lia.
Qed.

(** X23.  Widening the block span only adds older blocks.  For the same
    endpoint, head and positive step, if the run over [blocks2] blocks
    returns then so does the run over any [blocks1 <= blocks2]; the narrower
    run samples no more blocks, gathers no more values in any of the three
    buckets, and its oldest block is not older. *)
Theorem span_monotone (w3 : Web3) (t0 t1 t0' t1' : float)
  (blocks1 blocks2 step head : Z) (head_override : option Z) (r2 : FeeProfile) :
  resolve_head w3 head_override = Ok head -> 0 < step ->
  blocks1 <= blocks2 ->
  analyze_fees w3 t0 t1 blocks2 step head_override = Ok r2 ->
  exists r1,
    analyze_fees w3 t0' t1' blocks1 step head_override = Ok r1 /\
    headBlock r1 = headBlock r2 /\
    oldestBlock r2 <= oldestBlock r1 /\
    sampledBlocks r1 <= sampledBlocks r2 /\
    count (baseFeeGwei r1) <= count (baseFeeGwei r2) /\
    count (effectivePriceGwei r1) <= count (effectivePriceGwei r2) /\
    count (tipGweiApprox r1) <= count (tipGweiApprox r2).
Proof.
  intros Hres Hs Hb Hrun.
  destruct (analyze_fees_walk_inv _ _ _ _ _ _ _ _ Hres Hs Hrun)
    as (blks2 & cid & Hf2 & Hc & ->).
  destruct (walk_prefix head (Z.max 0 (head - blocks1 + 1))
              (Z.max 0 (head - blocks2 + 1)) step Hs ltac:(lia)) as [extra E].
  rewrite E in Hf2.
  destruct (fetch_all_app _ _ _ _ Hf2) as (b1 & bx & Hf1 & _ & ->).
  exists (profile_of w3 t0' t1' blocks1 step head cid b1).
  split.
  - rewrite analyze_fees_eq, Hres. simpl.
    rewrite py_range_walk by exact Hs. simpl. rewrite Hf1. simpl.
    rewrite Hc. reflexivity.
  - cbn [headBlock oldestBlock sampledBlocks baseFeeGwei effectivePriceGwei
         tipGweiApprox profile_of].
    rewrite !bucket_of_count.
    unfold collect. rewrite fold_left_app.
    destruct (fold_add_block_grows bx (fold_left add_block b1 no_samples))
      as (H1 & H2 & H3 & H4).
    repeat split; lia.
Qed.

Lemma span_monotone_witness :
  exists r1 r2,
    analyze_fees demo_w3 0 1 8 2 (Some 10) = Ok r2 /\
    analyze_fees demo_w3 0 1 3 2 (Some 10) = Ok r1 /\
    sampledBlocks r1 <= sampledBlocks r2.
Proof.
  assert (Hrun : analyze_fees demo_w3 0 1 8 2 (Some 10) =
                 Ok (profile_of demo_w3 0 1 8 2 10 1
                       [demo_block; demo_block; demo_block; demo_block]))
    by reflexivity.
  destruct (span_monotone demo_w3 0 1 0 1 3 8 2 10 (Some 10) _
              eq_refl ltac:(lia) ltac:(lia) Hrun)
    as (r1 & Hr1 & _ & _ & Hle & _).
  exists r1. eexists. split; [exact Hrun |]. split; [exact Hr1 | exact Hle].
Defined.
